(** * clockify-cli: request pipeline, timer resolution and input utilities

    A shallow embedding of the executable core of the command-line client:
    the utilities imported as [lib/utils] ([formatDuration], [parseDuration],
    [sanitizeInput], [isValidApiKey]), the security utilities
    ([SECURITY_CONFIG], [validateSecureInput], [securelyProcessInput],
    [validateApiKeySecurity]), the configuration manager
    of [lib/simple-config], the client class [ClockifyAPI] of [lib/api]
    (request pipeline and domain operations), the commands of [auth]
    ([login], [logout], [status]) and [validateEnvironment].

    Conventions of the embedding:
    - a JavaScript string is a [list ascii]; every element is one code unit
      in the range 0..255 (the Latin-1 part of UTF-16);
    - a number the code computes with is a binary64, kept as its exact
      value, an infinity or NaN; every operation rounds to nearest, ties to
      even, and a numeral is read by correct rounding. Counts, clock
      readings and response statuses, with which the code only compares and
      adds small amounts, are [Z];
    - an instant is its epoch-millisecond count; [toISOString] and the [Date]
      constructor convert between that count and ISO-8601 text and are not
      modelled further;
    - effects (clock, pacing state, key file, configuration, network log,
      console) live in an explicit [World] threaded by a small monad. *)

From Stdlib Require Import List Ascii String ZArith QArith Qround Lia Bool Arith.
From Stdlib Require Import DecimalString DecimalNat.
Import ListNotations.
Close Scope Q_scope.
Open Scope string_scope.
Open Scope list_scope.

Set Implicit Arguments.

(** ** JavaScript numbers *)

Module JsNumber.
Local Open Scope Z_scope.

(** A number: the exact value of a finite binary64, in lowest terms, an
    infinity, or NaN. The sign of zero is not kept. *)
Inductive number : Type :=
| Finite (q : Q)
| Infinite (negative : bool)
| NaN.

(** The number of a whole value; it is a binary64 when the value is. *)
Definition whole (z : Z) : number := Finite (inject_Z z).

(** The integer nearest to [a / b], for [b] positive; of two equally near
    the even one. *)
Definition round_half_even (a b : Z) : Z :=
  let f := a / b in
  match (2 * (a mod b)) ?= b with
  | Lt => f
  | Gt => f + 1
  | Eq => if Z.even f then f else f + 1
  end.

(** The [k] with [2 ^ k <= n / d < 2 ^ (k + 1)], for [n] and [d] positive:
    the difference of the binary logarithms, or one less. *)
Definition binade (n d : Z) : Z :=
  let k := Z.log2 n - Z.log2 d in
  let below := if 0 <=? k then n <? 2 ^ k * d else n * 2 ^ (- k) <? d in
  if below then k - 1 else k.

(** The binary64 nearest to [n / d], for [n] and [d] positive, ties to even:
    the quotient is rounded to a multiple of [2 ^ e], [e] being 52 below
    its binade and not below -1074 (the subnormal numbers); what rounds to
    [2 ^ 1024] or more is infinite. *)
Definition nearest_ratio (n d : Z) : number :=
  let e := Z.max (binade n d - 52) (-1074) in
  if 0 <=? e then
    let m := round_half_even n (d * 2 ^ e) in
    if 2 ^ 1024 <=? m * 2 ^ e then Infinite false else whole (m * 2 ^ e)
  else
    let m := round_half_even (n * 2 ^ (- e)) d in
    Finite (Qred (Qmake m (Z.to_pos (2 ^ (- e))))).

Definition negate (x : number) : number :=
  match x with
  | Finite q => Finite (Qred (- q))
  | Infinite negative => Infinite (negb negative)
  | NaN => NaN
  end.

(** The Number value for a mathematical value: round to nearest, ties to
    even. *)
Definition nearest (q : Q) : number :=
  match Qred q with
  | Qmake 0 _ => whole 0
  | Qmake (Zpos n) d => nearest_ratio (Zpos n) (Zpos d)
  | Qmake (Zneg n) d => negate (nearest_ratio (Zpos n) (Zpos d))
  end.

(** [x * y] *)
Definition multiply (x y : number) : number :=
  match x, y with
  | Finite a, Finite b => nearest (a * b)%Q
  | Infinite s, Infinite s' => Infinite (xorb s s')
  | Infinite s, Finite b | Finite b, Infinite s =>
      match Qnum b with
      | 0 => NaN
      | Zpos _ => Infinite s
      | Zneg _ => Infinite (negb s)
      end
  | _, _ => NaN
  end.

(** [x + y] *)
Definition add (x y : number) : number :=
  match x, y with
  | Finite a, Finite b => nearest (a + b)%Q
  | Infinite s, Infinite s' => if Bool.eqb s s' then Infinite s else NaN
  | Infinite s, Finite _ | Finite _, Infinite s => Infinite s
  | _, _ => NaN
  end.

(** [Math.round]: the nearest integer, a tie going towards plus infinity.
    The result of rounding a binary64 is a binary64. *)
Definition Math_round (x : number) : number :=
  match x with
  | Finite q => whole (Qfloor (q + (Qmake 1 2))%Q)
  | _ => x
  end.


(** [Math.floor] *)
Definition Math_floor (x : number) : number :=
  match x with
  | Finite q => whole (Qfloor q)
  | _ => x
  end.

(** [x / c] for a positive whole constant [c]. *)
Definition divide_by (x : number) (c : Z) : number :=
  match x with
  | Finite q => nearest (q / inject_Z c)%Q
  | _ => x
  end.

(** [x % c] for a positive whole constant [c]: what is left of [x] after
    taking away [c] times the quotient truncated towards zero. The result
    is exact. *)
Definition remainder_by (x : number) (c : Z) : number :=
  match x with
  | Finite q =>
      Finite (Qred (q - inject_Z (c * Z.quot (Qnum q) (Zpos (Qden q) * c)))%Q)
  | _ => NaN
  end.

(** [x < y]; a comparison with NaN is false. *)
Definition less_than (x y : number) : bool :=
  match x, y with
  | Finite a, Finite b => match (a ?= b)%Q with Lt => true | _ => false end
  | Finite _, Infinite negative => negb negative
  | Infinite negative, Finite _ => negative
  | Infinite negative, Infinite negative' => negative && negb negative'
  | _, _ => false
  end.

(** [x === 0] *)
Definition is_zero (x : number) : bool :=
  match x with
  | Finite q => Qeq_bool q 0
  | _ => false
  end.

End JsNumber.

(** ** JavaScript strings *)

Module JsString.
Import JsNumber.

Definition t := list ascii.

Definition js (s : string) : list ascii := list_ascii_of_string s.

Definition code (c : ascii) : N := N_of_ascii c.

Definition in_range (lo hi : N) (c : ascii) : bool :=
  (lo <=? code c)%N && (code c <=? hi)%N.

(** [\d] *)
Definition is_digit (c : ascii) : bool := in_range 48 57 c.

(** [\w] = [A-Za-z0-9_] *)
Definition is_word (c : ascii) : bool :=
  in_range 65 90 c || in_range 97 122 c || in_range 48 57 c || (code c =? 95)%N.

(** WhiteSpace and LineTerminator code units below 256: TAB, LF, VT, FF, CR,
    SP and NBSP. This is both [\s] and what [String.prototype.trim] strips. *)
Definition is_space (c : ascii) : bool :=
  in_range 9 13 c || (code c =? 32)%N || (code c =? 160)%N.

(** [String.prototype.toLowerCase] on one code unit. *)
Definition lower_char (c : ascii) : ascii :=
  if in_range 65 90 c then ascii_of_N (code c + 32)
  else if in_range 192 222 c && negb (code c =? 215)%N then ascii_of_N (code c + 32)
  else c.

(** Canonicalize of a regular expression under the [i] flag (upper-casing;
    the two Latin-1 letters whose upper case lies outside Latin-1, and
    sharp s, stay as they are). *)
Definition canon_char (c : ascii) : ascii :=
  if in_range 97 122 c then ascii_of_N (code c - 32)
  else if in_range 224 254 c && negb (code c =? 247)%N then ascii_of_N (code c - 32)
  else c.

Definition toLowerCase (s : t) : t := map lower_char s.

Fixpoint drop_space (s : t) : t :=
  match s with
  | c :: r => if is_space c then drop_space r else s
  | [] => []
  end.

Definition trim (s : t) : t := rev (drop_space (rev (drop_space s))).

(** [s.substring(0, n)] *)
Definition substring0 (n : nat) (s : t) : t := firstn n s.

(** Truthiness of a string value: only the empty string is falsy. *)
Definition truthy (s : t) : bool :=
  match s with [] => false | _ => true end.

(** The mathematical value of a text of decimal digits. *)
Definition digit_val (c : ascii) : Z := Z.of_N (code c) - 48.

Definition digits_value (s : t) : Z :=
  fold_left (fun acc c => 10 * acc + digit_val c)%Z s 0%Z.

(** [parseInt] on a text of decimal digits: the number nearest to its
    mathematical value. *)
Definition parseInt (s : t) : number := nearest (inject_Z (digits_value s)).

Fixpoint span (p : ascii -> bool) (s : t) : t * t :=
  match s with
  | c :: r => if p c then let (a, b) := span p r in (c :: a, b) else ([], s)
  | [] => ([], [])
  end.

(** The mathematical value of the texts the duration pattern captures:
    decimal digits, optionally followed by a dot and more decimal digits. *)
Definition decimal_value (s : t) : Q :=
  let (ip, r) := span is_digit s in
  match r with
  | c :: f =>
      if (code c =? 46)%N then
        let (fp, _) := span is_digit f in
        (inject_Z (digits_value ip) + inject_Z (digits_value fp) / inject_Z (10 ^ Z.of_nat (List.length fp)))%Q
      else inject_Z (digits_value ip)
  | [] => inject_Z (digits_value ip)
  end.

(** [parseFloat] on such a text: the number nearest to its mathematical
    value. *)
Definition parseFloat (s : t) : number := nearest (decimal_value s).

(** The decimal digits of an integer, with a minus sign in front of a
    negative one. *)
Definition show_int (z : Z) : t :=
  if (z <? 0)%Z
  then "-"%char :: js (NilEmpty.string_of_uint (Nat.to_uint (Z.to_nat (- z))))
  else js (NilEmpty.string_of_uint (Nat.to_uint (Z.to_nat z))).

(** A number as a template literal prints it, for the numbers whose text
    the embedding describes: a whole number of magnitude below 2^53 prints
    as its decimal digits, the infinities and NaN as their names. A
    fraction, and a whole number from 2^53 on, which prints as the shortest
    digits that identify it, filled up with zeros or in exponent form, have
    no text here. *)
Definition show_number (x : number) : option t :=
  match x with
  | Finite q =>
      if (Zpos (Qden q) =? 1)%Z && (Z.abs (Qnum q) <? 2 ^ 53)%Z
      then Some (show_int (Qnum q)) else None
  | Infinite false => Some (js "Infinity")
  | Infinite true => Some (js "-Infinity")
  | NaN => Some (js "NaN")
  end.

(** [a === b] on strings. *)
Fixpoint str_eqb (a b : t) : bool :=
  match a, b with
  | [], [] => true
  | x :: a', y :: b' => Ascii.eqb x y && str_eqb a' b'
  | _, _ => false
  end.

End JsString.

Coercion JsString.js : string >-> list.

(** ** A backtracking matcher for the regular expressions of the repository

    The patterns of the source repeat single-character classes only, so the
    quantifiers below take a class; everything else nests freely. *)

Module Regex.
Import JsString.

Inductive regex : Type :=
| Lit (c : ascii)                    (* a literal character *)
| Class (p : ascii -> bool)          (* \d, \w, \s, [...] *)
| Cat (r1 r2 : regex)
| Alt (r1 r2 : regex)
| Opt (r : regex)                    (* r? *)
| Plus (p : ascii -> bool)           (* class+ *)
| Star (p : ascii -> bool)           (* class* *)
| LazyStar (p : ascii -> bool)       (* class*? *)
| Grp (i : nat) (r : regex)          (* the i-th capturing group *)
| Bol                                (* ^ *)
| Eol.                               (* $ *)

Definition captures := list (nat * t).

(** Text of group [i], [None] when the group did not take part. *)
Fixpoint group (i : nat) (cs : captures) : option t :=
  match cs with
  | (j, w) :: r => if Nat.eqb i j then Some w else group i r
  | [] => None
  end.

Definition lit_eqb (ci : bool) (c x : ascii) : bool :=
  if ci then Ascii.eqb (canon_char c) (canon_char x) else Ascii.eqb c x.

Section Repeat.
Variable R : Type.
Variable p : ascii -> bool.

(** Greedy repetition: longest run first, giving characters back one at a
    time while the continuation fails. *)
Fixpoint greedy (s : t) (k : t -> option R) : option R :=
  match s with
  | c :: r =>
      if p c then
        match greedy r k with
        | Some x => Some x
        | None => k s
        end
      else k s
  | [] => k []
  end.

(** Lazy repetition: shortest run first. *)
Fixpoint lazy (s : t) (k : t -> option R) : option R :=
  match k s with
  | Some x => Some x
  | None =>
      match s with
      | c :: r => if p c then lazy r k else None
      | [] => None
      end
  end.
End Repeat.

Definition result := (t * captures)%type.

(** [run ci r inp s cs k]: match [r] at the suffix [s] of the input [inp],
    then continue with [k] on what is left. [ci] is the [i] flag. *)
Fixpoint run (ci : bool) (r : regex) (inp s : t) (cs : captures)
             (k : t -> captures -> option result) : option result :=
  match r with
  | Lit c =>
      match s with
      | x :: s' => if lit_eqb ci c x then k s' cs else None
      | [] => None
      end
  | Class p =>
      match s with
      | x :: s' => if p x then k s' cs else None
      | [] => None
      end
  | Cat r1 r2 => run ci r1 inp s cs (fun s' cs' => run ci r2 inp s' cs' k)
  | Alt r1 r2 =>
      match run ci r1 inp s cs k with
      | Some x => Some x
      | None => run ci r2 inp s cs k
      end
  | Opt r1 =>
      match run ci r1 inp s cs k with
      | Some x => Some x
      | None => k s cs
      end
  | Plus p =>
      match s with
      | x :: s' => if p x then greedy p s' (fun s'' => k s'' cs) else None
      | [] => None
      end
  | Star p => greedy p s (fun s'' => k s'' cs)
  | LazyStar p => lazy p s (fun s'' => k s'' cs)
  | Grp i r1 =>
      run ci r1 inp s cs
          (fun s' cs' => k s' ((i, firstn (List.length s - List.length s') s) :: cs'))
  | Bol => if Nat.eqb (List.length s) (List.length inp) then k s cs else None
  | Eol => match s with [] => k [] cs | _ :: _ => None end
  end.

Definition exec_at (ci : bool) (r : regex) (inp s : t) : option result :=
  run ci r inp s [] (fun s' cs => Some (s', cs)).

(** The leftmost match at or after the position where [s] starts. *)
Fixpoint search (ci : bool) (r : regex) (inp s : t) : option result :=
  match exec_at ci r inp s with
  | Some x => Some x
  | None =>
      match s with
      | _ :: s' => search ci r inp s'
      | [] => None
      end
  end.

(** [str.match(re)] for a pattern without the [g] flag: the captures of the
    leftmost match. *)
Definition js_match (ci : bool) (r : regex) (s : t) : option captures :=
  match search ci r s s with
  | Some (_, cs) => Some cs
  | None => None
  end.

(** [re.test(str)] for a pattern without the [g] flag. *)
Definition test (ci : bool) (r : regex) (s : t) : bool :=
  match search ci r s s with Some _ => true | None => false end.

(** [re.test(str)] for a pattern with the [g] flag. The pattern object keeps
    [lastIndex]: the search starts there, a match leaves it at the end of
    the match, a failure resets it to 0. *)
Definition test_global (ci : bool) (r : regex) (s : t) (lastIndex : nat)
  : bool * nat :=
  if Nat.ltb (List.length s) lastIndex then (false, 0)
  else
    match search ci r s (skipn lastIndex s) with
    | Some (rest, _) => (true, List.length s - List.length rest)
    | None => (false, 0)
    end.

(** [str.replace(re, '')] for a pattern with the [g] flag: every
    non-overlapping match, left to right, is removed. [fuel] bounds the
    number of scanning steps; the length of the input plus one suffices. *)
Fixpoint remove_all (fuel : nat) (ci : bool) (r : regex) (inp s : t) : t :=
  match fuel with
  | O => s
  | S fuel' =>
      match exec_at ci r inp s with
      | Some (rest, _) =>
          if Nat.ltb (List.length rest) (List.length s)
          then remove_all fuel' ci r inp rest
          else match s with
               | c :: s' => c :: remove_all fuel' ci r inp s'
               | [] => []
               end
      | None =>
          match s with
          | c :: s' => c :: remove_all fuel' ci r inp s'
          | [] => []
          end
      end
  end.

Definition replace_all_empty (ci : bool) (r : regex) (s : t) : t :=
  remove_all (S (List.length s)) ci r s s.

(** The characters of a string literal, in sequence. *)
Fixpoint lits (s : t) : regex :=
  match s with
  | [] => Star (fun _ => false)
  | [c] => Lit c
  | c :: r => Cat (Lit c) (lits r)
  end.

(** What a successful run may consume: [matches ci inp r s s'] says that
    [r], started at the suffix [s] of the input [inp], can stop with [s']
    left over. It forgets in which order the matcher tries alternatives. *)
Inductive matches (ci : bool) (inp : t) : regex -> t -> t -> Prop :=
| m_lit c x s : lit_eqb ci c x = true -> matches ci inp (Lit c) (x :: s) s
| m_class (p : ascii -> bool) x s : p x = true -> matches ci inp (Class p) (x :: s) s
| m_cat r1 r2 s s' s'' :
    matches ci inp r1 s s' -> matches ci inp r2 s' s'' ->
    matches ci inp (Cat r1 r2) s s''
| m_alt_l r1 r2 s s' : matches ci inp r1 s s' -> matches ci inp (Alt r1 r2) s s'
| m_alt_r r1 r2 s s' : matches ci inp r2 s s' -> matches ci inp (Alt r1 r2) s s'
| m_opt_some r s s' : matches ci inp r s s' -> matches ci inp (Opt r) s s'
| m_opt_none r s : matches ci inp (Opt r) s s
| m_plus (p : ascii -> bool) w s :
    w <> [] -> Forall (fun c => p c = true) w -> matches ci inp (Plus p) (w ++ s) s
| m_star (p : ascii -> bool) w s :
    Forall (fun c => p c = true) w -> matches ci inp (Star p) (w ++ s) s
| m_lazy (p : ascii -> bool) w s :
    Forall (fun c => p c = true) w -> matches ci inp (LazyStar p) (w ++ s) s
| m_grp i r s s' : matches ci inp r s s' -> matches ci inp (Grp i r) s s'
| m_bol s : List.length s = List.length inp -> matches ci inp Bol s s
| m_eol : matches ci inp Eol [] [].

End Regex.

(** A value returned or an [Error] thrown, for the functions that touch no
    state. *)
Inductive thrown (A : Type) : Type :=
| Returned (a : A)
| Thrown (message : JsString.t).
Arguments Returned {A} a.
Arguments Thrown {A} message.

(** ** The utilities of [lib/utils] *)

Module Utils.
Import JsNumber JsString Regex.

(** [/^\d+$/] *)
Definition re_plain_minutes : regex :=
  Cat Bol (Cat (Plus is_digit) Eol).

(** [/^(\d+(?:\.\d+)?)h?$/] *)
Definition re_decimal_hours : regex :=
  Cat Bol
    (Cat (Grp 1 (Cat (Plus is_digit) (Opt (Cat (Lit ".") (Plus is_digit)))))
         (Cat (Opt (Lit "h")) Eol)).

(** [/^(?:(\d+)h)?(?:(\d+)m)?$/] *)
Definition re_hours_minutes : regex :=
  Cat Bol
    (Cat (Opt (Cat (Grp 1 (Plus is_digit)) (Lit "h")))
         (Cat (Opt (Cat (Grp 2 (Plus is_digit)) (Lit "m"))) Eol)).

(** [/^(\d+)m$/] *)
Definition re_minutes : regex :=
  Cat Bol (Cat (Grp 1 (Plus is_digit)) (Cat (Lit "m") Eol)).

(** [/^(\d+)h$/] *)
Definition re_hours : regex :=
  Cat Bol (Cat (Grp 1 (Plus is_digit)) (Cat (Lit "h") Eol)).

(** [m && m[i]]: the text of group [i] when there is a match and the group
    is a non-empty string. *)
Definition match_group (i : nat) (m : option captures) : option t :=
  match m with
  | Some cs =>
      match group i cs with
      | Some g => if truthy g then Some g else None
      | None => None
      end
  | None => None
  end.

(** [m[i] || d] *)
Definition group_or (i : nat) (cs : captures) (d : t) : t :=
  match group i cs with
  | Some g => if truthy g then g else d
  | None => d
  end.

Definition invalid_duration_message (duration : t) : t :=
  "Invalid duration format: " ++ duration
    ++ ". Use formats like: 1h, 30m, 1h30m, 1.5h, or 90".

Definition parseDuration (duration : t) : thrown number :=
  let normalizedDuration := trim (toLowerCase duration) in
  if test false re_plain_minutes normalizedDuration then
    Returned (parseInt normalizedDuration)
  else
    match match_group 1 (js_match false re_decimal_hours normalizedDuration) with
    | Some g => Returned (Math_round (multiply (parseFloat g) (whole 60)))
    | None =>
        match js_match false re_hours_minutes normalizedDuration with
        | Some cs =>
            let hours := parseInt (group_or 1 cs "0") in
            let minutes := parseInt (group_or 2 cs "0") in
            Returned (add (multiply hours (whole 60)) minutes)
        | None =>
            match match_group 1 (js_match false re_minutes normalizedDuration) with
            | Some g => Returned (parseInt g)
            | None =>
                match match_group 1 (js_match false re_hours normalizedDuration) with
                | Some g => Returned (multiply (parseInt g) (whole 60))
                | None => Thrown (invalid_duration_message duration)
                end
            end
        end
    end.

(** The class of the first replacement: less-than, greater-than, ampersand,
    double quote, single quote and backquote. *)
Definition is_markup_char (c : ascii) : bool :=
  match code c with
  | 60%N | 62%N | 38%N | 34%N | 39%N | 96%N => true
  | _ => false
  end.

(** [/\x00-\x1f/g]: outside brackets this is the three-character sequence
    NUL, hyphen, U+001F. *)
Definition re_nul_dash_us : regex :=
  Cat (Lit (ascii_of_N 0)) (Cat (Lit "-") (Lit (ascii_of_N 31))).

(** [/\x7f-\x9f/g]: the three-character sequence DEL, hyphen, U+009F. *)
Definition re_del_dash_apc : regex :=
  Cat (Lit (ascii_of_N 127)) (Cat (Lit "-") (Lit (ascii_of_N 159))).

Definition sanitizeInput (input : t) : t :=
  substring0 1000
    (replace_all_empty false re_del_dash_apc
       (replace_all_empty false re_nul_dash_us
          (replace_all_empty false (Class is_markup_char)
             (trim input)))).

(** [/^[a-zA-Z0-9]+$/] *)
Definition is_alnum (c : ascii) : bool :=
  in_range 97 122 c || in_range 65 90 c || in_range 48 57 c.

Definition re_alnum : regex := Cat Bol (Cat (Plus is_alnum) Eol).

(** [/^(test|fake|demo|sample)/i] *)
Definition re_placeholder_prefix : regex :=
  Cat Bol (Grp 1 (Alt (lits "test") (Alt (lits "fake") (Alt (lits "demo") (lits "sample"))))).

(** [/^(1234|abcd|0000)/] *)
Definition re_sequence_prefix : regex :=
  Cat Bol (Grp 1 (Alt (lits "1234") (Alt (lits "abcd") (lits "0000")))).

(** [/(.)\1{10,}/]: some character other than a line terminator occurs at
    least eleven times in a row. The back-reference is written out as a
    run counter. *)
Fixpoint has_run (prev : option ascii) (count : nat) (s : t) : bool :=
  match s with
  | [] => false
  | c :: r =>
      let line_end := (code c =? 10)%N || (code c =? 13)%N in
      let n := match prev with
               | Some p => if Ascii.eqb p c then S count else 1
               | None => 1
               end in
      if line_end then has_run None 0 r
      else if Nat.leb 11 n then true
      else has_run (Some c) n r
  end.

Definition isValidApiKey (apiKey : t) : bool :=
  if Nat.ltb (List.length apiKey) 40 || Nat.ltb 60 (List.length apiKey) then false
  else if negb (test false re_alnum apiKey) then false
  else negb (test true re_placeholder_prefix apiKey
             || test false re_sequence_prefix apiKey
             || has_run None 0 apiKey).

(** [formatDuration]. The result is [None] where a number has to be printed
    whose text [show_number] does not describe. *)
Definition formatDuration (minutes : number) : option t :=
  if less_than minutes (whole 60) then
    option_map (fun m => m ++ "m") (show_number minutes)
  else
    let hours := Math_floor (divide_by minutes 60) in
    let remainingMinutes := remainder_by minutes 60 in
    if is_zero remainingMinutes then
      option_map (fun h => h ++ "h") (show_number hours)
    else
      match show_number hours, show_number remainingMinutes with
      | Some h, Some m => Some (h ++ "h " ++ m ++ "m")
      | _, _ => None
      end.

End Utils.


(** ** The security utilities *)

Module Security.
Import JsString Regex.

Definition MAX_DESCRIPTION_LENGTH : nat := 1000.

Definition any_char (_ : ascii) : bool := true.

(** [SECURITY_CONFIG.DANGEROUS_PATTERNS]; every one carries the flags [gi]. *)
Definition DANGEROUS_PATTERNS : list regex :=
  [ (* /<script[\s\S]*?<\/script>/gi *)
    Cat (lits "<script") (Cat (LazyStar any_char) (lits "</script>"));
    (* /javascript:/gi *)
    lits "javascript:";
    (* /on\w+\s*=/gi *)
    Cat (lits "on") (Cat (Plus is_word) (Cat (Star is_space) (Lit "=")));
    (* /data:text\/html/gi *)
    lits "data:text/html";
    (* /vbscript:/gi *)
    lits "vbscript:" ].

(** The pattern objects are created once, when the module is loaded, and
    shared by every call: the state of the module is the [lastIndex] of
    each pattern, in the order of the list. *)
Definition PatternState := list nat.

Definition fresh : PatternState := map (fun _ => 0) DANGEROUS_PATTERNS.

(** The [for ... of] loop of [validateSecureInput]: [pattern.test(input)] on
    each pattern in turn, leaving at the first hit. *)
Fixpoint check_patterns (ps : list regex) (st : PatternState) (input : t)
  : bool * PatternState :=
  match ps, st with
  | p :: ps', i :: st' =>
      let (hit, i') := test_global true p input i in
      if hit then (false, i' :: st')
      else
        let (ok, st'') := check_patterns ps' st' input in
        (ok, i' :: st'')
  | _, _ => (true, st)
  end.

Definition validateSecureInput (input : t) (maxLength : nat) (st : PatternState)
  : bool * PatternState :=
  if Nat.ltb maxLength (List.length input) then (false, st)
  else check_patterns DANGEROUS_PATTERNS st input.

(** [/\x00/g] *)
Definition is_nul (c : ascii) : bool := (code c =? 0)%N.

(** [/[\x00-\x08\x0B\x0C\x0E-\x1F\x7F-\x9F]/g] *)
Definition is_control (c : ascii) : bool :=
  in_range 0 8 c || (code c =? 11)%N || (code c =? 12)%N
  || in_range 14 31 c || in_range 127 159 c.

Definition clean (input : t) : t :=
  trim (replace_all_empty false (Class is_control)
          (replace_all_empty false (Class is_nul) input)).

Definition dangerous_message : t := "Input contains potentially dangerous content".

Definition securelyProcessInput (input : t) (maxLength : nat) (st : PatternState)
  : thrown t * PatternState :=
  let cleaned := clean input in
  let (valid, st') := validateSecureInput cleaned maxLength st in
  if negb valid then (Thrown dangerous_message, st')
  else
    let cleaned :=
      if Nat.ltb maxLength (List.length cleaned)
      then substring0 maxLength cleaned else cleaned in
    (Returned cleaned, st').

Definition MIN_API_KEY_LENGTH : nat := 40.
Definition MAX_API_KEY_LENGTH : nat := 60.

(** [API_KEY_CHARS_REGEX], [/^[a-zA-Z0-9]+$/] *)
Definition API_KEY_CHARS_REGEX : regex := Cat Bol (Cat (Plus Utils.is_alnum) Eol).

Definition is_lower_letter (c : ascii) : bool := in_range 97 122 c.

Definition is_upper_letter (c : ascii) : bool := in_range 65 90 c.

(** [SUSPICIOUS_API_KEY_PATTERNS], each pattern as its [test]. None carries
    the [g] flag, so none keeps a position between calls. *)
Definition SUSPICIOUS_API_KEY_PATTERNS : list (t -> bool) :=
  [ (* /^(test|fake|demo|sample|example|placeholder)/i *)
    test true
      (Cat Bol (Grp 1 (Alt (lits "test") (Alt (lits "fake") (Alt (lits "demo")
                 (Alt (lits "sample") (Alt (lits "example") (lits "placeholder"))))))));
    (* /^(1234|abcd|0000|aaaa|bbbb)/ *)
    test false
      (Cat Bol (Grp 1 (Alt (lits "1234") (Alt (lits "abcd") (Alt (lits "0000")
                 (Alt (lits "aaaa") (lits "bbbb")))))));
    (* /(.)\1{10,}/ *)
    Utils.has_run None 0;
    (* /^[a-z]+$/ *)
    test false (Cat Bol (Cat (Plus is_lower_letter) Eol));
    (* /^[A-Z]+$/ *)
    test false (Cat Bol (Cat (Plus is_upper_letter) Eol)) ].

(** The object [validateApiKeySecurity] returns. *)
Record Verdict := { valid : bool; reason : option t }.

Definition validateApiKeySecurity (apiKey : t) : Verdict :=
  if Nat.ltb (List.length apiKey) MIN_API_KEY_LENGTH
     || Nat.ltb MAX_API_KEY_LENGTH (List.length apiKey)
  then {| valid := false; reason := Some (js "API key length is invalid") |}
  else if negb (test false API_KEY_CHARS_REGEX apiKey)
  then {| valid := false; reason := Some (js "API key contains invalid characters") |}
  else if existsb (fun pattern => pattern apiKey) SUSPICIOUS_API_KEY_PATTERNS
  then {| valid := false;
          reason := Some (js "API key appears to be a placeholder or test key") |}
  else {| valid := true; reason := None |}.

End Security.


(** ** The process and its surroundings *)

Module Sys.
Import JsString.

(** An instant, in milliseconds since the epoch. *)
Definition Timestamp := Z.

(** *** The entities of the service, restricted to the fields the code reads *)

Record User := { user_id : t; user_email : t; user_name : t }.
Record Workspace := { workspace_id : t; workspace_name : t }.
Record Project := { project_id : t; project_name : t }.

(** [timeInterval.end] is an ISO-8601 text or absent ([null]); such a text is
    never empty, so the value is falsy exactly when it is absent. *)
Record TimeInterval := {
  ti_start : Timestamp;
  ti_end : option Timestamp
}.

(** A time entry as the service sends it and [api.ts] reads it. *)
Record TimeEntry := {
  te_id : t;
  te_description : option t;
  te_timeInterval : TimeInterval;
  te_projectId : option t;
  te_taskId : option t;
  te_billable : bool;
  te_tagIds : option (list t)
}.

Record TimeEntryRequest := {
  req_start : option Timestamp;
  req_end : option Timestamp;
  req_billable : option bool;
  req_description : option t;
  req_projectId : option t;
  req_taskId : option t;
  req_tagIds : option (list t)
}.

Record ProjectRequest := { pr_name : t }.

(** The object literal [stopData] of [stopTimer]. *)
Record StopData := {
  sd_start : Timestamp;
  sd_end : Timestamp;
  sd_billable : bool;
  sd_description : t;
  sd_projectId : option t;          (* [null] when there is none *)
  sd_taskId : option t;
  sd_tagIds : list t
}.

Record ClockifyConfig := {
  cfg_workspaceId : option t;
  cfg_timeFormat24h : bool;
  cfg_billableByDefault : bool;
  cfg_autoStartTimer : bool;
  cfg_notificationsEnabled : bool
}.

(** *** Requests and replies *)

Inductive Method := GET | POST | PUT | DELETE.

Inductive Payload :=
| PEntry (r : TimeEntryRequest)
| PStop (d : StopData)
| PProject (p : ProjectRequest).

Record Request := { method : Method; path : t; body : option Payload }.

(** What the transport hands back: a response with a status the transport
    accepts and its decoded data, or a rejection. A rejection carries the
    status of the response when one arrived, the text [error.response?.data]
    prints as, and the transport's own [error.message]. *)
Inductive Reply (A : Type) :=
| Success (data : A)
| Failure (status : option Z) (data : t) (message : t).
Arguments Success {A} data.
Arguments Failure {A} status data message.

Definition History := list Request.

(** Everything outside the process: the remote service, the duration of a
    round trip, by how much a timer fires late, the answer typed at the
    prompt and the text of a file-system error. *)
Record Env := {
  service_user : History -> Reply User;
  service_workspaces : History -> Reply (list Workspace);
  service_projects : History -> t -> Reply (list Project);
  service_create_project : History -> t -> ProjectRequest -> Reply Project;
  service_time_entries : History -> t -> t -> Reply (list TimeEntry);
  service_create_entry : History -> t -> TimeEntryRequest -> Reply TimeEntry;
  service_update_entry : History -> t -> t -> Payload -> Reply TimeEntry;
  service_delete_entry : History -> t -> t -> Reply unit;
  latency : History -> Request -> Z;
  timer_slack : Z -> Z -> Z;
  prompt_answer : t;
  fs_error : t
}.

(** *** The state of the process *)

Record World := {
  clock : Z;                          (* Date.now() *)
  lastRequestTime : Z;                (* ClockifyAPI.lastRequestTime *)
  env_api_key : option t;             (* process.env.CLOCKIFY_API_KEY *)
  development : bool;                 (* process.env.NODE_ENV === 'development' *)
  api_key_file : option t;            (* ~/.clockify-cli/api-key *)
  disk_writable : bool;               (* whether writing and unlinking succeed *)
  config : ClockifyConfig;            (* SimpleConfigManager.config *)
  config_file : option ClockifyConfig;(* ~/.clockify-cli/config.json *)
  net_log : History;                  (* requests handed to the transport, latest first *)
  dispatch_log : list Z;              (* the time the gate stamped on each, latest first *)
  console : list t;                   (* lines printed, latest first *)
  stderr : list t
}.

Definition initial_config : ClockifyConfig :=
  {| cfg_workspaceId := None; cfg_timeFormat24h := true;
     cfg_billableByDefault := false; cfg_autoStartTimer := false;
     cfg_notificationsEnabled := true |}.

Definition with_clock (c : Z) (w : World) : World :=
  {| clock := c; lastRequestTime := lastRequestTime w; env_api_key := env_api_key w;
     development := development w; api_key_file := api_key_file w;
     disk_writable := disk_writable w; config := config w; config_file := config_file w;
     net_log := net_log w; dispatch_log := dispatch_log w; console := console w;
     stderr := stderr w |}.

Definition with_lastRequestTime (x : Z) (w : World) : World :=
  {| clock := clock w; lastRequestTime := x; env_api_key := env_api_key w;
     development := development w; api_key_file := api_key_file w;
     disk_writable := disk_writable w; config := config w; config_file := config_file w;
     net_log := net_log w; dispatch_log := dispatch_log w; console := console w;
     stderr := stderr w |}.

Definition with_api_key_file (k : option t) (w : World) : World :=
  {| clock := clock w; lastRequestTime := lastRequestTime w; env_api_key := env_api_key w;
     development := development w; api_key_file := k;
     disk_writable := disk_writable w; config := config w; config_file := config_file w;
     net_log := net_log w; dispatch_log := dispatch_log w; console := console w;
     stderr := stderr w |}.

Definition with_config (c : ClockifyConfig) (w : World) : World :=
  {| clock := clock w; lastRequestTime := lastRequestTime w; env_api_key := env_api_key w;
     development := development w; api_key_file := api_key_file w;
     disk_writable := disk_writable w; config := c; config_file := config_file w;
     net_log := net_log w; dispatch_log := dispatch_log w; console := console w;
     stderr := stderr w |}.

Definition with_config_file (c : option ClockifyConfig) (w : World) : World :=
  {| clock := clock w; lastRequestTime := lastRequestTime w; env_api_key := env_api_key w;
     development := development w; api_key_file := api_key_file w;
     disk_writable := disk_writable w; config := config w; config_file := c;
     net_log := net_log w; dispatch_log := dispatch_log w; console := console w;
     stderr := stderr w |}.

Definition with_departure (r : Request) (w : World) : World :=
  {| clock := clock w; lastRequestTime := lastRequestTime w; env_api_key := env_api_key w;
     development := development w; api_key_file := api_key_file w;
     disk_writable := disk_writable w; config := config w; config_file := config_file w;
     net_log := r :: net_log w; dispatch_log := clock w :: dispatch_log w;
     console := console w; stderr := stderr w |}.

Definition with_console (line : t) (w : World) : World :=
  {| clock := clock w; lastRequestTime := lastRequestTime w; env_api_key := env_api_key w;
     development := development w; api_key_file := api_key_file w;
     disk_writable := disk_writable w; config := config w; config_file := config_file w;
     net_log := net_log w; dispatch_log := dispatch_log w; console := line :: console w;
     stderr := stderr w |}.

Definition with_stderr (line : t) (w : World) : World :=
  {| clock := clock w; lastRequestTime := lastRequestTime w; env_api_key := env_api_key w;
     development := development w; api_key_file := api_key_file w;
     disk_writable := disk_writable w; config := config w; config_file := config_file w;
     net_log := net_log w; dispatch_log := dispatch_log w; console := console w;
     stderr := line :: stderr w |}.

(** *** Computations: state, exceptions and process exit *)

(** A thrown value: a plain [Error] with its message, or the transport's
    rejection, which also has [response.status] when a response arrived. *)
Inductive Exn :=
| Error (message : t)
| AxiosError (status : option Z) (data : t) (message : t).

(** [error.message] *)
Definition exn_message (e : Exn) : t :=
  match e with Error m => m | AxiosError _ _ m => m end.

(** [error.response?.status] *)
Definition response_status (e : Exn) : option Z :=
  match e with Error _ => None | AxiosError st _ _ => st end.

(** What [error.response?.data] prints as. *)
Definition response_data (e : Exn) : t :=
  match e with Error _ => "undefined" | AxiosError _ d _ => d end.

Inductive Outcome (A : Type) :=
| Ret (a : A)
| Throw (e : Exn)
| Exit (exit_code : Z).              (* process.exit *)
Arguments Ret {A} a.
Arguments Throw {A} e.
Arguments Exit {A} exit_code.

Definition M (A : Type) := World -> Outcome A * World.

Definition ret {A} (a : A) : M A := fun w => (Ret a, w).

Definition bind {A B} (m : M A) (f : A -> M B) : M B :=
  fun w =>
    match m w with
    | (Ret a, w') => f a w'
    | (Throw e, w') => (Throw e, w')
    | (Exit c, w') => (Exit c, w')
    end.

Definition throw {A} (e : Exn) : M A := fun w => (Throw e, w).

Definition exit {A} (c : Z) : M A := fun w => (Exit c, w).

(** [try { m } catch (error) { h error }] *)
Definition try_catch {A} (m : M A) (h : Exn -> M A) : M A :=
  fun w =>
    match m w with
    | (Throw e, w') => h e w'
    | r => r
    end.

Definition gets {A} (f : World -> A) : M A := fun w => (Ret (f w), w).

Definition modify (f : World -> World) : M unit := fun w => (Ret tt, f w).

Definition console_log (line : t) : M unit := modify (with_console line).

End Sys.

Declare Scope sys_scope.
Delimit Scope sys_scope with sys.
Notation "x <- m ;; k" := (Sys.bind m (fun x => k))
  (at level 61, m at next level, right associativity) : sys_scope.
Notation "m ;; k" := (Sys.bind m (fun _ => k))
  (at level 61, right associativity) : sys_scope.

(** ** [SimpleConfigManager] of [lib/simple-config] *)

Module ConfigManager.
Import JsString Sys.
Local Open Scope sys_scope.

Section WithEnv.
Variable env : Env.

(** [fs.writeFileSync] / [fs.unlinkSync] raise when the disk refuses. *)
Definition fs_guard : M unit :=
  fun w => if disk_writable w then (Ret tt, w) else (Throw (Error (fs_error env)), w).

Definition setApiKey (apiKey : t) : M unit :=
  try_catch
    (fs_guard ;; modify (with_api_key_file (Some apiKey)))
    (fun error => throw (Error ("Failed to store API key: " ++ exn_message error))).

Definition getApiKey : M (option t) :=
  fun w =>
    match env_api_key w with
    | Some k => if truthy k then (Ret (Some k), w)
                else match api_key_file w with
                     | Some content => (Ret (Some (trim content)), w)
                     | None => (Ret None, w)
                     end
    | None => match api_key_file w with
              | Some content => (Ret (Some (trim content)), w)
              | None => (Ret None, w)
              end
    end.

Definition removeApiKey : M bool :=
  try_catch
    (present <- gets api_key_file ;;
     match present with
     | Some _ => fs_guard ;; modify (with_api_key_file None) ;; ret true
     | None => ret false
     end)
    (fun _ => ret false).

Definition hasApiKey : M bool :=
  apiKey <- getApiKey ;;
  ret (match apiKey with Some k => Nat.ltb 0 (List.length k) | None => false end).

Definition saveConfig : M unit :=
  try_catch
    (fs_guard ;; cfg <- gets config ;; modify (with_config_file (Some cfg)))
    (fun error => throw (Error ("Failed to save config: " ++ exn_message error))).

Definition with_workspaceId (value : t) (c : ClockifyConfig) : ClockifyConfig :=
  {| cfg_workspaceId := Some value; cfg_timeFormat24h := cfg_timeFormat24h c;
     cfg_billableByDefault := cfg_billableByDefault c;
     cfg_autoStartTimer := cfg_autoStartTimer c;
     cfg_notificationsEnabled := cfg_notificationsEnabled c |}.

(** [configManager.set('workspaceId', value)] *)
Definition set_workspaceId (value : t) : M unit :=
  cfg <- gets config ;;
  modify (with_config (with_workspaceId value cfg)) ;;
  saveConfig.

(** [configManager.get('workspaceId')] *)
Definition get_workspaceId : M (option t) :=
  gets (fun w => cfg_workspaceId (config w)).
(** [configManager.getAll()] *)
Definition getAll : M ClockifyConfig := gets config.

(** [configManager.reset()]: the object literal of the defaults has no
    [workspaceId]. *)
Definition reset : M unit :=
  modify (with_config initial_config) ;;
  saveConfig.
End WithEnv.
End ConfigManager.

(** ** [ClockifyAPI] of [lib/api] *)

Module Api.
Import JsString Sys.
Local Open Scope sys_scope.
Local Open Scope Z_scope.

Definition minRequestInterval : Z := 100.

Definition msg_authentication_failed : t := "Authentication failed. Please check your API key.".
Definition msg_access_denied : t := "Access denied. Check your permissions.".
Definition msg_rate_limited : t := "Rate limit exceeded. Please try again later.".
Definition msg_not_found : t := "Resource not found.".
Definition msg_server_error : t := "Server error. Please try again later.".
Definition msg_generic : t := "Request failed. Please check your connection and try again.".
Definition msg_no_running_timer : t := "No running timer found".
Definition msg_invalid_key_format : t := "Invalid API key format detected".

(** The chain of [if]s of the response interceptor's error handler, on
    [error.response?.status]. A comparison with [undefined] is false. *)
Definition classify (status : option Z) : t :=
  match status with
  | Some s =>
      if s =? 401 then msg_authentication_failed
      else if s =? 403 then msg_access_denied
      else if s =? 429 then msg_rate_limited
      else if s =? 404 then msg_not_found
      else if 500 <=? s then msg_server_error
      else msg_generic
  | None => msg_generic
  end.

(** Truthiness of an optional string: absent and empty are falsy. *)
Definition truthy_opt (x : option t) : bool :=
  match x with Some s => truthy s | None => false end.

(** [x || null] *)
Definition or_null (x : option t) : option t :=
  if truthy_opt x then x else None.

(** [x || ''] *)
Definition or_empty (x : option t) : t :=
  match x with Some s => s | None => [] end.

(** [x || []] ; an array is truthy whatever its length. *)
Definition or_nil (x : option (list t)) : list t :=
  match x with Some l => l | None => [] end.

Section WithEnv.
Variable env : Env.

Definition Date_now : M Z := gets clock.

(** [await sleep(ms)]: the timer fires [timer_slack] after it is due. *)
Definition sleep (ms : Z) : M unit :=
  modify (fun w => with_clock (clock w + ms + timer_slack env (clock w) ms) w).

(** The first half of the request interceptor. *)
Definition rate_limit : M unit :=
  now <- Date_now ;;
  last <- gets lastRequestTime ;;
  let timeSinceLastRequest := now - last in
  (if timeSinceLastRequest <? minRequestInterval
   then sleep (minRequestInterval - timeSinceLastRequest)
   else ret tt) ;;
  now' <- Date_now ;;
  modify (with_lastRequestTime now').

(** The second half: the value of the [X-Api-Key] header, if any. *)
Definition authenticate : M (option t) :=
  apiKey <- ConfigManager.getApiKey ;;
  if truthy_opt apiKey then
    if negb (Utils.isValidApiKey (or_empty apiKey))
    then throw (Error msg_invalid_key_format)
    else ret apiKey
  else ret None.

Definition request_interceptor : M (option t) :=
  rate_limit ;; authenticate.

(** The transport: the request leaves, the round trip takes its time, and
    the reply settles the promise. *)
Definition dispatch {A} (req : Request) (reply : History -> Reply A) : M A :=
  fun w =>
    let w' := with_clock (clock w + latency env (net_log w) req) (with_departure req w) in
    match reply (net_log w) with
    | Success data => (Ret data, w')
    | Failure status data message => (Throw (AxiosError status data message), w')
    end.

(** The rejection handler of the response interceptor. *)
Definition response_error {A} (error : Exn) : M A :=
  dev <- gets development ;;
  (if dev then modify (with_stderr ("API Error: " ++ response_data error)) else ret tt) ;;
  throw (Error (classify (response_status error))).

(** One call through the client. The interceptors and the transport form
    one promise chain: a rejection raised by the request interceptor skips
    the transport and reaches the rejection handler of the response
    interceptor like any other. *)
Definition send {A} (req : Request) (reply : History -> Reply A) : M A :=
  try_catch (request_interceptor ;; dispatch req reply) response_error.

Definition client_get {A} (p : t) (reply : History -> Reply A) : M A :=
  send {| method := GET; path := p; body := None |} reply.

Definition client_post {A} (p : t) (b : Payload) (reply : History -> Reply A) : M A :=
  send {| method := POST; path := p; body := Some b |} reply.

Definition client_put {A} (p : t) (b : Payload) (reply : History -> Reply A) : M A :=
  send {| method := PUT; path := p; body := Some b |} reply.


Definition testConnection : M User :=
  try_catch
    (client_get "/user" (service_user env))
    (fun error => throw (Error ("Connection test failed: " ++ exn_message error))).

Definition getCurrentUser : M User :=
  client_get "/user" (service_user env).

Definition getWorkspaces : M (list Workspace) :=
  client_get "/workspaces" (service_workspaces env).

Definition projects_path (workspaceId : t) : t :=
  "/workspaces/" ++ workspaceId ++ "/projects".

Definition entries_path (workspaceId userId : t) : t :=
  "/workspaces/" ++ workspaceId ++ "/user/" ++ userId ++ "/time-entries".

Definition entry_collection_path (workspaceId : t) : t :=
  "/workspaces/" ++ workspaceId ++ "/time-entries".

Definition entry_path (workspaceId timeEntryId : t) : t :=
  "/workspaces/" ++ workspaceId ++ "/time-entries/" ++ timeEntryId.

Definition getProjects (workspaceId : t) : M (list Project) :=
  client_get (projects_path workspaceId)
             (fun h => service_projects env h workspaceId).


Definition getTimeEntries (workspaceId userId : t) : M (list TimeEntry) :=
  client_get (entries_path workspaceId userId)
             (fun h => service_time_entries env h workspaceId userId).

Definition with_start (s : Timestamp) (r : TimeEntryRequest) : TimeEntryRequest :=
  {| req_start := Some s; req_end := req_end r; req_billable := req_billable r;
     req_description := req_description r; req_projectId := req_projectId r;
     req_taskId := req_taskId r; req_tagIds := req_tagIds r |}.

Definition startTimer (workspaceId : t) (timeEntry : TimeEntryRequest) : M TimeEntry :=
  now <- Date_now ;;
  let entryWithStart := with_start now timeEntry in
  client_post (entry_collection_path workspaceId) (PEntry entryWithStart)
              (fun h => service_create_entry env h workspaceId entryWithStart).

(** [entry => !entry.timeInterval.end] *)
Definition is_running (entry : TimeEntry) : bool :=
  match ti_end (te_timeInterval entry) with
  | Some _ => false
  | None => true
  end.

(** The [try]/[catch] around the default-project lookup. *)
Definition default_project (workspaceId : t) (projectId : option t) : M (option t) :=
  try_catch
    (projects <- getProjects workspaceId ;;
     match projects with
     | p :: _ => ret (Some (project_id p))
     | [] => ret projectId
     end)
    (fun _ => ret projectId).

Definition stopTimer (workspaceId userId : t) : M TimeEntry :=
  timeEntries <- getTimeEntries workspaceId userId ;;
  match find is_running timeEntries with
  | None => throw (Error msg_no_running_timer)
  | Some runningEntry =>
      projectId <-
        (if negb (truthy_opt (te_projectId runningEntry))
         then default_project workspaceId (te_projectId runningEntry)
         else ret (te_projectId runningEntry)) ;;
      now <- Date_now ;;
      let stopData :=
        {| sd_start := ti_start (te_timeInterval runningEntry);
           sd_end := now;
           sd_billable := te_billable runningEntry;
           sd_description := or_empty (te_description runningEntry);
           sd_projectId := or_null projectId;
           sd_taskId := or_null (te_taskId runningEntry);
           sd_tagIds := or_nil (te_tagIds runningEntry) |} in
      client_put (entry_path workspaceId (te_id runningEntry)) (PStop stopData)
                 (fun h => service_update_entry env h workspaceId
                             (te_id runningEntry) (PStop stopData))
  end.




End WithEnv.
End Api.

(** ** [authCommands]

    Colours and pictographs of the console output are left out: a printed
    line is its text, and a double quote inside a line is written as a single
    one. *)

Module Auth.
Import JsString Sys.
Local Open Scope sys_scope.

Definition LF : ascii := ascii_of_N 10.

(** Decimal text of an array length. *)
Definition show_nat (n : nat) : t :=
  js (NilEmpty.string_of_uint (Nat.to_uint n)).

Section WithEnv.
Variable env : Env.

(** The body of the inner [try] of [login]. *)
Definition verify_and_configure : M unit :=
  user <- Api.testConnection env ;;
  console_log ("Successfully authenticated as: " ++ user_name user
                 ++ " (" ++ user_email user ++ ")") ;;
  workspaces <- Api.getWorkspaces env ;;
  console_log ("Found " ++ show_nat (List.length workspaces) ++ " workspace(s)") ;;
  match workspaces with
  | [workspace] =>
      ConfigManager.set_workspaceId env (workspace_id workspace) ;;
      console_log ("Set default workspace: " ++ workspace_name workspace)
  | _ :: _ :: _ =>
      console_log "Multiple workspaces found. Use 'clockify workspace list' to see all." ;;
      console_log "Tip: Use 'clockify workspace switch <name>' to set a default workspace."
  | [] => ret tt
  end ;;
  console_log (LF :: "Authentication setup complete!") ;;
  console_log "Try: clockify status".

(** [authCommands.login(options)], [key] being [options.key]. The prompt
    hands back the answer the user settled on. *)
Definition login (key : option t) : M unit :=
  try_catch
    (apiKey <-
       (if negb (Api.truthy_opt key) then
          console_log ("Clockify CLI Authentication" ++ [LF]) ;;
          console_log ("Get your API key from: https://clockify.me/user/settings" ++ [LF]) ;;
          ret (Some (trim (prompt_answer env)))
        else ret key) ;;
     (if negb (Api.truthy_opt apiKey)
      then console_log "No API key provided" ;; exit 1%Z
      else ret tt) ;;
     let apiKey := Api.or_empty apiKey in
     (if negb (Utils.isValidApiKey apiKey)
      then console_log "Invalid API key format" ;; exit 1%Z
      else ret tt) ;;
     console_log "Validating API key..." ;;
     ConfigManager.setApiKey env apiKey ;;
     try_catch
       verify_and_configure
       (fun error => ConfigManager.removeApiKey env ;; throw error))
    (fun error =>
       console_log ("Authentication failed: " ++ exn_message error) ;;
       exit 1%Z).


(** [authCommands.logout()] *)
Definition logout : M unit :=
  try_catch
    (console_log "Removing stored credentials..." ;;
     hasKey <- ConfigManager.hasApiKey ;;
     if negb hasKey then console_log "No credentials found to remove"
     else
       removed <- ConfigManager.removeApiKey env ;;
       if removed then
         console_log "Credentials removed successfully" ;;
         console_log "Run 'clockify auth login' to authenticate again"
       else console_log "Could not remove credentials from keychain")
    (fun error =>
       console_log ("Logout failed: " ++ exn_message error) ;;
       exit 1%Z).

(** The rule of fifty box-drawing characters and the path of the
    configuration file ([configManager.getConfigPath()], which depends on
    the home directory). *)
Variable rule : t.
Variable config_path : t.

(** [currentWorkspace?.name || 'Unknown'] *)
Definition workspace_label (workspaces : list Workspace) (workspaceId : t) : t :=
  match find (fun w => str_eqb (workspace_id w) workspaceId) workspaces with
  | Some currentWorkspace =>
      if truthy (workspace_name currentWorkspace)
      then workspace_name currentWorkspace else "Unknown"
  | None => "Unknown"
  end.

(** [authCommands.status()]; [console.log(a, b)] prints [a], a blank and
    [b]. *)
Definition status : M unit :=
  try_catch
    (console_log ("Checking authentication status..." ++ [LF]) ;;
     hasKey <- ConfigManager.hasApiKey ;;
     if negb hasKey then
       console_log "Not authenticated" ;;
       console_log "Run: clockify auth login"
     else
       try_catch
         (user <- Api.getCurrentUser env ;;
          workspaces <- Api.getWorkspaces env ;;
          config <- ConfigManager.getAll ;;
          console_log "Authenticated" ;;
          console_log rule ;;
          console_log ("User: " ++ user_name user) ;;
          console_log ("Email: " ++ user_email user) ;;
          console_log ("Workspaces: " ++ show_nat (List.length workspaces)) ;;
          (if Api.truthy_opt (cfg_workspaceId config) then
             console_log ("Current Workspace: "
                            ++ workspace_label workspaces
                                 (Api.or_empty (cfg_workspaceId config)))
           else console_log "Current Workspace: Not set") ;;
          console_log ("Config File: " ++ config_path) ;;
          console_log rule)
         (fun _ =>
            console_log "Authentication invalid" ;;
            console_log "Run: clockify auth login"))
    (fun error =>
       console_log ("Status check failed: " ++ exn_message error) ;;
       exit 1%Z).

End WithEnv.
End Auth.

(** ** [validateEnvironment] of [lib/utils]

    [process.version] and [os.platform()] are parameters. *)

Module Environment.
Import JsString Sys.
Local Open Scope sys_scope.






Section WithProcess.
Variable nodeVersion : t.
Variable platform : t.


End WithProcess.
End Environment.

(** ** Vocabulary of the statements *)

Module Model.
Import JsString Sys Api.
Local Open Scope Z_scope.

(** The world once the pacing gate has let the request through. *)
Definition paced (env : Env) (w : World) : World := snd (rate_limit env w).

(** Whether the authentication step lets the request through. *)
Definition key_accepted (w : World) : bool :=
  match fst (authenticate w) with Ret _ => true | _ => false end.

(** The world when the reply of a request that left has arrived. *)
Definition answered (env : Env) (req : Request) (w : World) : World :=
  let w1 := paced env w in
  with_clock (clock w1 + latency env (net_log w1) req) (with_departure req w1).

(** The same world with the debug line of the response interceptor, which
    is printed in development mode only. *)
Definition noted (line : t) (w : World) : World :=
  if development w then with_stderr ("API Error: " ++ line) w else w.

(** A thrown value is classified when it is an [Error] whose message is
    one of the six texts of the response interceptor. *)
Definition classified (e : Exn) : Prop := exists st, e = Error (classify st).

(** Reduce projections of updated worlds, leaving arithmetic alone. *)
Ltac world_simpl :=
  cbn [fst snd clock lastRequestTime env_api_key development api_key_file
       disk_writable config config_file net_log dispatch_log console stderr
       with_clock with_lastRequestTime with_api_key_file with_config
       with_config_file with_departure with_console with_stderr] in *.

(** Two calls of [securelyProcessInput] in one process, the first on freshly
    loaded patterns. *)
Definition twice (a b : t) :=
  let (r1, s1) := Security.securelyProcessInput a Security.MAX_DESCRIPTION_LENGTH Security.fresh in
  let (r2, s2) := Security.securelyProcessInput b Security.MAX_DESCRIPTION_LENGTH s1 in
  (r1, r2, s2).

(** The three requests of the stop procedure. *)
Definition entries_request (ws uid : t) : Request :=
  {| method := GET; path := entries_path ws uid; body := None |}.

Definition projects_request (ws : t) : Request :=
  {| method := GET; path := projects_path ws; body := None |}.

Definition update_request (ws id : t) (d : StopData) : Request :=
  {| method := PUT; path := entry_path ws id; body := Some (PStop d) |}.

(** The project the stop procedure settles on for the running entry [e],
    and the world in which it then builds the payload; [w1] is the world
    in which the entry list has arrived. *)
Definition project_lookup (env : Env) (ws : t) (e : TimeEntry) (w1 : World)
  : option t * World :=
  if truthy_opt (te_projectId e) then (te_projectId e, w1)
  else
    match service_projects env (net_log w1) ws with
    | Success (p :: _) => (Some (project_id p), answered env (projects_request ws) w1)
    | Success [] => (te_projectId e, answered env (projects_request ws) w1)
    | Failure _ raw _ => (te_projectId e, noted raw (answered env (projects_request ws) w1))
    end.

(** The payload [stopTimer] builds for [e], given the project and the time. *)
Definition stop_data (e : TimeEntry) (pid : option t) (now : Z) : StopData :=
  {| sd_start := ti_start (te_timeInterval e);
     sd_end := now;
     sd_billable := te_billable e;
     sd_description := or_empty (te_description e);
     sd_projectId := or_null pid;
     sd_taskId := or_null (te_taskId e);
     sd_tagIds := or_nil (te_tagIds e) |}.

(** The clock never runs backwards and a timer never fires early. *)
Definition time_forward (env : Env) : Prop :=
  (forall h r, 0 <= latency env h r) /\ (forall c ms, 0 <= timer_slack env c ms).

(** N calls through the client, one after the other, whatever each one
    yields. *)
Record Call := {
  call_type : Type;
  call_request : Request;
  call_reply : History -> Reply call_type
}.

Fixpoint issue (env : Env) (calls : list Call) : M unit :=
  match calls with
  | [] => ret tt
  | c :: rest =>
      bind (try_catch
              (bind (send env (call_request c) (call_reply c)) (fun _ => ret tt))
              (fun _ => ret tt))
           (fun _ => issue env rest)
  end.

(** Departure times, latest first, any two neighbours at least [gap] apart. *)
Fixpoint spaced (gap : Z) (l : list Z) : Prop :=
  match l with
  | later :: (earlier :: _) as rest => earlier + gap <= later /\ spaced gap rest
  | _ => True
  end.

(** What the pacing gate maintains: the departures so far are spaced, and
    the latest of them is not after the time the gate last recorded. *)
Definition well_paced (w : World) : Prop :=
  spaced minRequestInterval (dispatch_log w) /\
  match dispatch_log w with
  | latest :: _ => latest <= lastRequestTime w
  | [] => True
  end.

(** The line printed once the connectivity check has passed. *)
Definition greeting (user : User) : t :=
  "Successfully authenticated as: " ++ user_name user ++ " (" ++ user_email user ++ ")".

(** The key [login] works with: the option when it is given, the trimmed
    answer to the prompt otherwise. *)
Definition entered_key (env : Env) (key : option t) : t :=
  if truthy_opt key then or_empty key else trim (prompt_answer env).

(** The world once [login] has asked for the key, if it had to. *)
Definition prompted (key : option t) (w : World) : World :=
  if truthy_opt key then w
  else with_console ("Get your API key from: https://clockify.me/user/settings" ++ [Auth.LF])
         (with_console ("Clockify CLI Authentication" ++ [Auth.LF]) w).

(** The world in which the key is stored and about to be checked. *)
Definition key_stored (key : t) (w : World) : World :=
  with_api_key_file (Some key) (with_console "Validating API key..." w).

(** The key the process works with: the one of the environment when that is
    set and not empty, else the trimmed content of the key file. *)
Definition effective_key (w : World) : option t :=
  if truthy_opt (env_api_key w) then env_api_key w
  else option_map trim (api_key_file w).

(** The lines a command has printed, latest first. *)
Definition printed (before after : World) (lines : list t) : Prop :=
  console after = lines ++ console before.

(** What no call through the client changes: credentials, configuration and
    the lines printed with [console.log].  What [console.error] prints is
    kept apart, in [stderr]. *)
Definition same_store (w w' : World) : Prop :=
  env_api_key w' = env_api_key w /\
  api_key_file w' = api_key_file w /\
  disk_writable w' = disk_writable w /\
  config w' = config w /\
  config_file w' = config_file w /\
  console w' = console w.

(** What a call leaves alone outside development mode: the mode itself and
    the lines printed with [console.error]. *)
Definition same_errors (w w' : World) : Prop :=
  development w' = development w /\
  (development w = false -> stderr w' = stderr w).

(** *** Duration texts *)

(** A number that is not negative, and not NaN. *)
Definition nonnegative (x : JsNumber.number) : Prop :=
  match x with
  | JsNumber.Finite q => (0 <= q)%Q
  | JsNumber.Infinite negative => negative = false
  | JsNumber.NaN => False
  end.

(** One or more decimal digits. *)
Definition digits (n : t) : Prop :=
  n <> [] /\ Forall (fun c => JsString.is_digit c = true) n.

(** The texts the patterns of [parseDuration] accept, after lower-casing
    and trimming: digits; digits with an optional decimal part and an
    optional [h]; an optional digits-[h] followed by an optional
    digits-[m]. *)
Inductive recognized : t -> Prop :=
| rec_plain n : digits n -> recognized n
| rec_hours n : digits n -> recognized (n ++ "h")
| rec_decimal a b : digits a -> digits b -> recognized (a ++ "." ++ b)
| rec_decimal_hours a b : digits a -> digits b -> recognized (a ++ "." ++ b ++ "h")
| rec_nothing : recognized []
| rec_minutes m : digits m -> recognized (m ++ "m")
| rec_hours_minutes h m : digits h -> digits m -> recognized (h ++ "h" ++ m ++ "m").

(** A text that does not start with whitespace. *)
Definition starts_solid (s : t) : Prop :=
  match s with c :: _ => is_space c = false | [] => True end.

(** A character that neither [toLowerCase] nor [trim] touches. *)
Definition plain (c : ascii) : Prop := lower_char c = c /\ is_space c = false.

(** The text of a decimal numeral. *)
Definition uint_text (d : Decimal.uint) : t := js (NilEmpty.string_of_uint d).

(** The characters the duration patterns accept. *)
Definition duration_char (c : ascii) : bool :=
  is_digit c || Ascii.eqb c "." || Ascii.eqb c "h" || Ascii.eqb c "m".

(** *** Texts *)

(** [w] occurs in [s]. *)
Definition occurs (w s : t) : Prop := exists pre post, s = pre ++ w ++ post.

(** [s] starts with the characters of [w]; under the [i] flag, up to the
    case of letters. *)
Fixpoint starts_with (ci : bool) (w s : t) : bool :=
  match w, s with
  | [], _ => true
  | c :: w', x :: s' => Regex.lit_eqb ci c x && starts_with ci w' s'
  | _ :: _, [] => false
  end.

(** The two three-character sequences [sanitizeInput] removes. *)
Definition nul_dash_us : t := [ascii_of_N 0; "-"%char; ascii_of_N 31].

Definition del_dash_apc : t := [ascii_of_N 127; "-"%char; ascii_of_N 159].

(** A key of forty lower-case letters. *)
Definition lowercase_key : t := "qwertyuiopasdfghjklzqwertyuiopasdfghjklz".

(** *** Concrete surroundings for the closed statements *)

Definition sample_key : t := "Zk3Xp9Qa7Lm2Vb8Nc4Rt6Yw1Hs5Jd0Fg3Ue7Io2PaLs4".

Definition sample_user : User :=
  {| user_id := "u1"; user_email := "ada@example.org"; user_name := "Ada" |}.

Definition sample_entry (start : Timestamp) : TimeEntry :=
  {| te_id := "e1"; te_description := Some (js "writing");
     te_timeInterval := {| ti_start := start; ti_end := None |};
     te_projectId := Some (js "p1"); te_taskId := None;
     te_billable := true; te_tagIds := None |}.

(** A service that answers by kind of request, whatever came before, in 20
    milliseconds, with timers that are never late. *)
Definition fixed_env (user : Reply User) (workspaces : Reply (list Workspace))
           (projects : Reply (list Project)) (entries : Reply (list TimeEntry))
           (update : Reply TimeEntry) : Env :=
  {| service_user := fun _ => user;
     service_workspaces := fun _ => workspaces;
     service_projects := fun _ _ => projects;
     service_create_project := fun _ _ _ => Failure (Some 403) "Forbidden" "Request failed with status code 403";
     service_time_entries := fun _ _ _ => entries;
     service_create_entry := fun _ _ _ => Failure (Some 403) "Forbidden" "Request failed with status code 403";
     service_update_entry := fun _ _ _ _ => update;
     service_delete_entry := fun _ _ _ => Failure (Some 403) "Forbidden" "Request failed with status code 403";
     latency := fun _ _ => 20;
     timer_slack := fun _ _ => 0;
     prompt_answer := sample_key;
     fs_error := "EACCES: permission denied" |}.

Definition unauthorized_env : Env :=
  fixed_env (Failure (Some 401) "Unauthorized" "Request failed with status code 401")
            (Success []) (Success []) (Success []) (Failure None "undefined" "Network Error").

(** The running entry was started at 5000; the machine that stops it reads
    1000 on its clock. *)
Definition skewed_env : Env :=
  fixed_env (Success sample_user) (Success []) (Success [])
            (Success [sample_entry 5000]) (Success (sample_entry 5000)).

Definition sample_calls : list Call :=
  [ {| call_type := User;
       call_request := {| method := GET; path := "/user"; body := None |};
       call_reply := fun _ => Success sample_user |};
    {| call_type := list Workspace;
       call_request := {| method := GET; path := "/workspaces"; body := None |};
       call_reply := fun _ => Failure (Some 429) "Too Many Requests" "Request failed with status code 429" |};
    {| call_type := unit;
       call_request := {| method := DELETE; path := "/workspaces/ws/time-entries/e1";
                          body := None |};
       call_reply := fun _ => Success tt |} ].

Definition finished_entry : TimeEntry :=
  {| te_id := "e0"; te_description := None;
     te_timeInterval := {| ti_start := 100; ti_end := Some 200 |};
     te_projectId := None; te_taskId := None;
     te_billable := false; te_tagIds := None |}.

Definition bare_entry : TimeEntry :=
  {| te_id := "e2"; te_description := None;
     te_timeInterval := {| ti_start := 300; ti_end := None |};
     te_projectId := None; te_taskId := None;
     te_billable := false; te_tagIds := None |}.

(** One finished entry, then a running one with a project. *)
Definition busy_env : Env :=
  fixed_env (Success sample_user) (Success []) (Success [])
            (Success [finished_entry; sample_entry 500])
            (Success (sample_entry 500)).

(** The same service on a machine whose timers fire one millisecond before
    they are due by the clock. *)
Definition early_timer_env : Env :=
  {| service_user := service_user busy_env;
     service_workspaces := service_workspaces busy_env;
     service_projects := service_projects busy_env;
     service_create_project := service_create_project busy_env;
     service_time_entries := service_time_entries busy_env;
     service_create_entry := service_create_entry busy_env;
     service_update_entry := service_update_entry busy_env;
     service_delete_entry := service_delete_entry busy_env;
     latency := latency busy_env;
     timer_slack := fun _ _ => -1;
     prompt_answer := prompt_answer busy_env;
     fs_error := fs_error busy_env |}.

(** Only finished entries. *)
Definition idle_env : Env :=
  fixed_env (Success sample_user) (Success []) (Success [])
            (Success [finished_entry]) (Failure (Some 404) "Not Found" "Request failed with status code 404").

(** A running entry without a project, and a project list that cannot be
    fetched. *)
Definition no_projects_env : Env :=
  fixed_env (Success sample_user) (Success []) (Failure (Some 500) "Internal Server Error" "Request failed with status code 500")
            (Success [bare_entry]) (Success bare_entry).

Definition sample_workspace : Workspace :=
  {| workspace_id := "ws1"; workspace_name := "Research" |}.

(** A service that knows the user and their single workspace. *)
Definition welcoming_env : Env :=
  fixed_env (Success sample_user) (Success [sample_workspace]) (Success [])
            (Success []) (Failure (Some 404) "Not Found" "Request failed with status code 404").

(** A process that has just started at time [now], with [key] stored. *)
Definition started (now : Z) (key : option t) : World :=
  {| clock := now; lastRequestTime := 0; env_api_key := None;
     development := false; api_key_file := key; disk_writable := true;
     config := initial_config; config_file := None;
     net_log := []; dispatch_log := []; console := []; stderr := [] |}.

(** The same process with [CLOCKIFY_API_KEY] set to [key]. *)
Definition overridden (key : t) (w : World) : World :=
  {| clock := clock w; lastRequestTime := lastRequestTime w; env_api_key := Some key;
     development := development w; api_key_file := api_key_file w;
     disk_writable := disk_writable w; config := config w; config_file := config_file w;
     net_log := net_log w; dispatch_log := dispatch_log w; console := console w;
     stderr := stderr w |}.

(** The same process on a disk that refuses writes. *)
Definition read_only (w : World) : World :=
  {| clock := clock w; lastRequestTime := lastRequestTime w; env_api_key := env_api_key w;
     development := development w; api_key_file := api_key_file w;
     disk_writable := false; config := config w; config_file := config_file w;
     net_log := net_log w; dispatch_log := dispatch_log w; console := console w;
     stderr := stderr w |}.

End Model.

(** * Properties *)

(** ** Worked evaluations *)

Module UtilsExamples.
Import JsNumber JsString Regex Utils.
Example pd1 : parseDuration "90" = Returned (whole 90). Proof. vm_compute. reflexivity. Qed.
Example pd2 : parseDuration "1h30m" = Returned (whole 90). Proof. vm_compute. reflexivity. Qed.
Example pd3 : parseDuration "1.5h" = Returned (whole 90). Proof. vm_compute. reflexivity. Qed.
Example pd4 : parseDuration "2h" = Returned (whole 120). Proof. vm_compute. reflexivity. Qed.
Example pd5 : parseDuration " 45M " = Returned (whole 45). Proof. vm_compute. reflexivity. Qed.
Example pd6 : parseDuration "" = Returned (whole 0). Proof. vm_compute. reflexivity. Qed.
Example pd7 : parseDuration "0.025h" = Returned (whole 2). Proof. vm_compute. reflexivity. Qed.
Example pd8 : parseDuration "1.5" = Returned (whole 90). Proof. vm_compute. reflexivity. Qed.
Example pd9 : parseDuration "1.025h" = Returned (whole 61). Proof. vm_compute. reflexivity. Qed.
Example si1 : sanitizeInput "< a" = " a". Proof. vm_compute. reflexivity. Qed.
Example si2 : sanitizeInput " a" = "a". Proof. vm_compute. reflexivity. Qed.
End UtilsExamples.

Module SecurityExamples.
Import JsString Regex Security Model.
Example sp1 : fst (securelyProcessInput "  hello  " 1000 fresh) = Returned (js "hello").
Proof. vm_compute. reflexivity. Qed.
Example sp2 : fst (securelyProcessInput "<SCRIPT>x</script >y</Script>" 1000 fresh) = Thrown dangerous_message.
Proof. vm_compute. reflexivity. Qed.
Example sp3 : fst (securelyProcessInput "a onclick  = 1" 1000 fresh) = Thrown dangerous_message.
Proof. vm_compute. reflexivity. Qed.
Example sp4 : fst (securelyProcessInput "on = 1" 1000 fresh) = Returned (js "on = 1").
Proof. vm_compute. reflexivity. Qed.
Example sp5 : twice "javascript:alert(1)" "javascript:alert(1)"
              = (Thrown dangerous_message, Returned (js "javascript:alert(1)"), fresh).
Proof. vm_compute. reflexivity. Qed.
End SecurityExamples.


(** ** The request pipeline *)

Module Pipeline.
Import JsString Sys Api Model.
Local Open Scope Z_scope.

Lemma paced_fields env w :
  env_api_key (paced env w) = env_api_key w /\
  api_key_file (paced env w) = api_key_file w /\
  development (paced env w) = development w /\
  disk_writable (paced env w) = disk_writable w /\
  config (paced env w) = config w /\
  config_file (paced env w) = config_file w /\
  net_log (paced env w) = net_log w /\
  dispatch_log (paced env w) = dispatch_log w /\
  console (paced env w) = console w /\
  stderr (paced env w) = stderr w /\
  lastRequestTime (paced env w) = clock (paced env w).
Proof.
  unfold paced, rate_limit, bind, Date_now, gets, sleep, modify, ret.
  destruct (clock w - lastRequestTime w <? minRequestInterval); simpl;
    repeat split; reflexivity.
Qed.

Lemma paced_clock env w :
  clock (paced env w) =
    if clock w - lastRequestTime w <? minRequestInterval
    then lastRequestTime w + minRequestInterval
         + timer_slack env (clock w) (minRequestInterval - (clock w - lastRequestTime w))
    else clock w.
Proof.
  unfold paced, rate_limit, bind, Date_now, gets, sleep, modify, ret.
  destruct (clock w - lastRequestTime w <? minRequestInterval); world_simpl;
    unfold minRequestInterval; lia.
Qed.

Lemma authenticate_world w : snd (authenticate w) = w.
Proof.
  unfold authenticate, bind, ConfigManager.getApiKey, throw, ret.
  destruct (env_api_key w) as [k|]; [destruct (truthy k)|];
    try destruct (api_key_file w); simpl;
    repeat match goal with
      | |- context [if ?b then _ else _] => destruct b; simpl
      end; reflexivity.
Qed.

Lemma authenticate_stable w w' :
  env_api_key w' = env_api_key w ->
  api_key_file w' = api_key_file w ->
  fst (authenticate w') = fst (authenticate w).
Proof.
  intros He Hf.
  unfold authenticate, bind, ConfigManager.getApiKey, throw, ret.
  rewrite He, Hf.
  destruct (env_api_key w) as [k|]; [destruct (truthy k)|];
    try destruct (api_key_file w); simpl;
    repeat match goal with
      | |- context [if ?b then _ else _] => destruct b; simpl
      end; reflexivity.
Qed.

Lemma key_accepted_stable w w' :
  env_api_key w' = env_api_key w ->
  api_key_file w' = api_key_file w ->
  key_accepted w' = key_accepted w.
Proof.
  intros He Hf. unfold key_accepted.
  now rewrite (authenticate_stable _ _ He Hf).
Qed.

Lemma authenticate_cases w :
  (exists hdr, authenticate w = (Ret hdr, w)) \/
  authenticate w = (Throw (Error msg_invalid_key_format), w).
Proof.
  unfold authenticate, bind, ConfigManager.getApiKey, throw, ret.
  destruct (env_api_key w) as [k|]; [destruct (truthy k)|];
    try destruct (api_key_file w); simpl;
    repeat match goal with
      | |- context [if ?b then _ else _] => destruct b; simpl
      end; eauto.
Qed.

Lemma rate_limit_eq env w : rate_limit env w = (Ret tt, paced env w).
Proof.
  unfold paced, rate_limit, bind, Date_now, gets, sleep, modify, ret.
  destruct (clock w - lastRequestTime w <? minRequestInterval); reflexivity.
Qed.

(** One call through the client, written out. *)
Lemma send_eq env A (req : Request) (reply : History -> Reply A) w :
  send env req reply w =
    if key_accepted w then
      match reply (net_log w) with
      | Success d => (Ret d, answered env req w)
      | Failure st raw _ =>
          (Throw (Error (classify st)), noted raw (answered env req w))
      end
    else (Throw (Error msg_generic), noted "undefined" (paced env w)).
Proof.
  destruct (paced_fields env w) as (He & Hf & Hd & _ & _ & _ & Hn & _).
  unfold key_accepted.
  rewrite <- (authenticate_stable w (paced env w) He Hf).
  unfold send, try_catch, request_interceptor, bind.
  rewrite rate_limit_eq.
  destruct (authenticate_cases (paced env w)) as [[hdr Ha] | Ha]; rewrite Ha;
    cbn [fst].
  - unfold dispatch, answered. rewrite Hn.
    destruct (reply (net_log w)) as [d | st raw msg]; [reflexivity|].
    unfold response_error, bind, gets, modify, throw, ret, noted.
    world_simpl. rewrite Hd. destruct (development w); reflexivity.
  - unfold response_error, bind, gets, modify, throw, ret, noted.
    rewrite Hd. destruct (development w); reflexivity.
Qed.

Lemma answered_fields env req w :
  env_api_key (answered env req w) = env_api_key w /\
  api_key_file (answered env req w) = api_key_file w /\
  development (answered env req w) = development w /\
  disk_writable (answered env req w) = disk_writable w /\
  config (answered env req w) = config w /\
  config_file (answered env req w) = config_file w /\
  net_log (answered env req w) = req :: net_log w /\
  dispatch_log (answered env req w) = clock (paced env w) :: dispatch_log w /\
  console (answered env req w) = console w /\
  stderr (answered env req w) = stderr w /\
  lastRequestTime (answered env req w) = clock (paced env w) /\
  clock (answered env req w) = clock (paced env w) + latency env (net_log w) req.
Proof.
  destruct (paced_fields env w) as (? & ? & ? & ? & ? & ? & Hn & ? & ? & ? & ?).
  unfold answered. world_simpl. rewrite Hn.
  repeat split; try assumption; try reflexivity; congruence.
Qed.

Lemma noted_fields line w :
  env_api_key (noted line w) = env_api_key w /\
  api_key_file (noted line w) = api_key_file w /\
  development (noted line w) = development w /\
  disk_writable (noted line w) = disk_writable w /\
  config (noted line w) = config w /\
  config_file (noted line w) = config_file w /\
  net_log (noted line w) = net_log w /\
  dispatch_log (noted line w) = dispatch_log w /\
  console (noted line w) = console w /\
  lastRequestTime (noted line w) = lastRequestTime w /\
  clock (noted line w) = clock w.
Proof.
  unfold noted. destruct (development w) eqn:E;
    repeat split; try reflexivity; exact E.
Qed.

Lemma key_accepted_answered env req w :
  key_accepted (answered env req w) = key_accepted w.
Proof.
  destruct (answered_fields env req w) as (He & Hf & _).
  now apply key_accepted_stable.
Qed.

Lemma key_accepted_noted line w : key_accepted (noted line w) = key_accepted w.
Proof.
  destruct (noted_fields line w) as (He & Hf & _).
  now apply key_accepted_stable.
Qed.

Lemma send_outcome env A (req : Request) (reply : History -> Reply A) w :
  match fst (send env req reply w) with
  | Ret d => key_accepted w = true /\ reply (net_log w) = Success d
  | Throw e => classified e
  | Exit _ => False
  end.
Proof.
  rewrite send_eq.
  destruct (key_accepted w); [destruct (reply (net_log w)) as [d|st raw msg]|]; cbn [fst].
  - now split.
  - now exists st.
  - now exists None.
Qed.

Lemma send_ret_inv env A (req : Request) (reply : History -> Reply A) w d w' :
  send env req reply w = (Ret d, w') ->
  key_accepted w = true /\ reply (net_log w) = Success d /\ w' = answered env req w.
Proof.
  rewrite send_eq.
  destruct (key_accepted w); [destruct (reply (net_log w)) as [d0|st raw msg]|];
    intro H; inversion H; subst; auto.
Qed.

Lemma classify_cases st :
  In (classify st)
     [msg_authentication_failed; msg_access_denied; msg_rate_limited;
      msg_not_found; msg_server_error; msg_generic].
Proof.
  unfold classify. destruct st as [s|]; [|simpl; tauto].
  repeat match goal with
    | |- context [if ?b then _ else _] => destruct b
    end; simpl; tauto.
Qed.

Lemma classify_not_no_running_timer st : classify st <> msg_no_running_timer.
Proof.
  intro H. pose proof (classify_cases st) as Hc. rewrite H in Hc.
  simpl in Hc. repeat (destruct Hc as [Hc|Hc]; [discriminate Hc|]). exact Hc.
Qed.


Lemma testConnection_eq env w :
  testConnection env w =
    match getCurrentUser env w with
    | (Throw e, w') => (Throw (Error ("Connection test failed: " ++ exn_message e)), w')
    | r => r
    end.
Proof.
  unfold testConnection, getCurrentUser, try_catch, throw.
  destruct (client_get env "/user" (service_user env) w) as [[u|e|c] w']; reflexivity.
Qed.





End Pipeline.

(** ** The stop procedure *)

Module Stop.
Import JsString Sys Api Model Pipeline.
Local Open Scope Z_scope.

Lemma is_running_false x :
  is_running x = false <-> ti_end (te_timeInterval x) <> None.
Proof.
  unfold is_running. destruct (ti_end (te_timeInterval x)); split; congruence.
Qed.

Lemma find_none_iff (entries : list TimeEntry) :
  find is_running entries = None
  <-> Forall (fun x => ti_end (te_timeInterval x) <> None) entries.
Proof.
  induction entries as [|x r IH]; simpl.
  - split; auto.
  - destruct (is_running x) eqn:E.
    + split; [discriminate|]. intro H. inversion H as [|? ? Hx _]; subst.
      apply is_running_false in Hx. congruence.
    + rewrite IH. split; intro H.
      * constructor; [now apply is_running_false | exact H].
      * now inversion H.
Qed.

Lemma find_first (pre post : list TimeEntry) e :
  Forall (fun x => ti_end (te_timeInterval x) <> None) pre ->
  ti_end (te_timeInterval e) = None ->
  find is_running (pre ++ e :: post) = Some e.
Proof.
  intros Hpre He. induction Hpre as [|x r Hx _ IH]; simpl.
  - unfold is_running. now rewrite He.
  - apply is_running_false in Hx. now rewrite Hx.
Qed.

Lemma getTimeEntries_inv env ws uid w entries w1 :
  getTimeEntries env ws uid w = (Ret entries, w1) ->
  key_accepted w = true /\
  service_time_entries env (net_log w) ws uid = Success entries /\
  w1 = answered env (entries_request ws uid) w.
Proof.
  unfold getTimeEntries, client_get. intro H.
  apply send_ret_inv in H. exact H.
Qed.

Lemma project_lookup_key env ws e w1 :
  key_accepted (snd (project_lookup env ws e w1)) = key_accepted w1.
Proof.
  unfold project_lookup.
  destruct (truthy_opt (te_projectId e)); [reflexivity|].
  destruct (service_projects env (net_log w1) ws) as [[|p l]|st raw msg]; cbn [snd];
    rewrite ?key_accepted_noted; apply key_accepted_answered.
Qed.

Lemma project_lookup_log env ws e w1 :
  net_log (snd (project_lookup env ws e w1))
  = (if truthy_opt (te_projectId e) then [] else [projects_request ws]) ++ net_log w1.
Proof.
  unfold project_lookup.
  destruct (truthy_opt (te_projectId e)); [reflexivity|].
  destruct (service_projects env (net_log w1) ws) as [[|p l]|st raw msg]; cbn [snd].
  - apply (answered_fields env (projects_request ws) w1).
  - apply (answered_fields env (projects_request ws) w1).
  - destruct (noted_fields raw (answered env (projects_request ws) w1))
      as (_ & _ & _ & _ & _ & _ & Hn & _).
    rewrite Hn. apply (answered_fields env (projects_request ws) w1).
Qed.

Lemma default_project_eq env ws e w1 :
  key_accepted w1 = true ->
  truthy_opt (te_projectId e) = false ->
  default_project env ws (te_projectId e) w1
  = (Ret (fst (project_lookup env ws e w1)), snd (project_lookup env ws e w1)).
Proof.
  intros Hk Ht.
  unfold default_project, try_catch, bind, getProjects, client_get, project_lookup.
  rewrite send_eq, Hk, Ht.
  destruct (service_projects env (net_log w1) ws) as [[|p l]|st raw msg]; reflexivity.
Qed.

(** With a running entry in the list, the stop procedure comes down to the
    project lookup followed by one update. *)
Lemma stopTimer_running env ws uid w entries w1 e :
  getTimeEntries env ws uid w = (Ret entries, w1) ->
  find is_running entries = Some e ->
  let w2 := snd (project_lookup env ws e w1) in
  let d := stop_data e (fst (project_lookup env ws e w1)) (clock w2) in
  key_accepted w2 = true /\
  stopTimer env ws uid w
  = send env (update_request ws (te_id e) d)
         (fun h => service_update_entry env h ws (te_id e) (PStop d)) w2.
Proof.
  intros Hfetch Hfind w2 d.
  destruct (getTimeEntries_inv _ _ _ _ Hfetch) as (Hk & _ & Hw1).
  assert (Hk1 : key_accepted w1 = true)
    by (rewrite Hw1, key_accepted_answered; exact Hk).
  split; [unfold w2; now rewrite project_lookup_key|].
  unfold stopTimer, bind at 1. rewrite Hfetch, Hfind.
  unfold bind at 1.
  destruct (truthy_opt (te_projectId e)) eqn:Ht; cbn [negb].
  - unfold d, w2, project_lookup. rewrite Ht. reflexivity.
  - rewrite (default_project_eq env ws e w1 Hk1 Ht). reflexivity.
Qed.

Lemma paced_clock_mono env w :
  time_forward env -> clock w <= clock (paced env w).
Proof.
  intros [_ Hs]. rewrite paced_clock.
  destruct (clock w - lastRequestTime w <? minRequestInterval) eqn:E; [|lia].
  apply Z.ltb_lt in E.
  pose proof (Hs (clock w) (minRequestInterval - (clock w - lastRequestTime w))).
  lia.
Qed.

Lemma answered_clock_mono env req w :
  time_forward env -> clock w <= clock (answered env req w).
Proof.
  intros Ht. pose proof (paced_clock_mono w Ht) as Hp. destruct Ht as [Hl _].
  destruct (answered_fields env req w) as (_ & _ & _ & _ & _ & _ & _ & _ & _ & _ & _ & Hc).
  rewrite Hc. pose proof (Hl (net_log w) req). lia.
Qed.

Lemma project_lookup_clock_mono env ws e w1 :
  time_forward env -> clock w1 <= clock (snd (project_lookup env ws e w1)).
Proof.
  intro Ht. unfold project_lookup.
  destruct (truthy_opt (te_projectId e)); cbn [snd]; [lia|].
  pose proof (answered_clock_mono (projects_request ws) w1 Ht) as Ha.
  destruct (service_projects env (net_log w1) ws) as [[|p l]|st raw msg]; cbn [snd];
    try exact Ha.
  destruct (noted_fields raw (answered env (projects_request ws) w1))
    as (_ & _ & _ & _ & _ & _ & _ & _ & _ & _ & Hc).
  now rewrite Hc.
Qed.

Lemma send_log env A (req : Request) (reply : History -> Reply A) w :
  key_accepted w = true ->
  net_log (snd (send env req reply w)) = req :: net_log w.
Proof.
  intro Hk. rewrite send_eq, Hk.
  destruct (reply (net_log w)) as [d|st raw msg]; cbn [snd].
  - apply (answered_fields env req w).
  - destruct (noted_fields raw (answered env req w)) as (_ & _ & _ & _ & _ & _ & Hn & _).
    rewrite Hn. apply (answered_fields env req w).
Qed.

(** C1, with the condition on the clock made explicit. When the fetched
    list has an entry without an end, the stop procedure takes the first
    one in response order and issues exactly
    one update, aimed at the id of that entry; besides it the procedure
    sends only the fetch of the list and, when the entry has no project,
    the fetch of the project list. The payload copies start, billable flag,
    description, task and tags of the entry, carries the resolved project,
    and has the reading of the local clock as its end. That end is not
    before the start provided the start is not later than the local clock
    at the time of the call and time runs forward. *)
Theorem stop_updates_first_running env ws uid w entries w1 pre e post :
  getTimeEntries env ws uid w = (Ret entries, w1) ->
  entries = pre ++ e :: post ->
  Forall (fun x => ti_end (te_timeInterval x) <> None) pre ->
  ti_end (te_timeInterval e) = None ->
  exists d,
    net_log (snd (stopTimer env ws uid w))
    = update_request ws (te_id e) d
        :: (if truthy_opt (te_projectId e) then [] else [projects_request ws])
        ++ entries_request ws uid :: net_log w /\
    sd_start d = ti_start (te_timeInterval e) /\
    sd_billable d = te_billable e /\
    sd_description d = or_empty (te_description e) /\
    sd_projectId d = or_null (fst (project_lookup env ws e w1)) /\
    sd_taskId d = or_null (te_taskId e) /\
    sd_tagIds d = or_nil (te_tagIds e) /\
    sd_end d = clock (snd (project_lookup env ws e w1)) /\
    (time_forward env -> clock w <= sd_end d) /\
    (time_forward env -> ti_start (te_timeInterval e) <= clock w ->
     sd_start d <= sd_end d).
Proof.
  intros Hfetch Hsplit Hpre He.
  assert (Hfind : find is_running entries = Some e)
    by (rewrite Hsplit; now apply find_first).
  destruct (stopTimer_running _ _ _ _ Hfetch Hfind) as [Hk Heq].
  destruct (getTimeEntries_inv _ _ _ _ Hfetch) as (_ & _ & Hw1).
  set (w2 := snd (project_lookup env ws e w1)) in *.
  set (d := stop_data e (fst (project_lookup env ws e w1)) (clock w2)) in *.
  exists d.
  assert (Hclock : time_forward env -> clock w <= sd_end d).
  { intro Ht. cbn [d sd_end stop_data]. unfold w2.
    pose proof (project_lookup_clock_mono ws e w1 Ht).
    pose proof (answered_clock_mono (entries_request ws uid) w Ht).
    rewrite <- Hw1 in *. lia. }
  repeat split; try reflexivity.
  - rewrite Heq, send_log by exact Hk.
    unfold w2. rewrite project_lookup_log, Hw1.
    destruct (answered_fields env (entries_request ws uid) w)
      as (_ & _ & _ & _ & _ & _ & Hn & _).
    now rewrite Hn.
  - exact Hclock.
  - intros Ht Hs. specialize (Hclock Ht). cbn [d sd_start stop_data] in *. lia.
Qed.

Lemma stop_updates_first_running_witness :
  exists d,
    net_log (snd (stopTimer busy_env "ws" "u1" (started 9000 (Some sample_key))))
    = [update_request "ws" "e1" d; entries_request "ws" "u1"]
    /\ sd_start d = 500 /\ sd_end d = 9020.
Proof.
  destruct (@stop_updates_first_running busy_env "ws" "u1"
              (started 9000 (Some sample_key))
              [finished_entry; sample_entry 500]
              (snd (getTimeEntries busy_env "ws" "u1" (started 9000 (Some sample_key))))
              [finished_entry] (sample_entry 500) [])
    as [d (Hlog & Hstart & _ & _ & _ & _ & _ & Hend & _)].
  - vm_compute. reflexivity.
  - reflexivity.
  - repeat constructor. discriminate.
  - reflexivity.
  - exists d. split; [exact Hlog | split; [exact Hstart | exact Hend]].
Defined.

(** Counterexample for C1: the update that goes out for an entry started at
    5000, from a machine whose clock reads 1000, ends before it starts. *)
Lemma stop_end_before_start :
  exists d,
    net_log (snd (stopTimer skewed_env "ws" "u1" (started 1000 (Some sample_key))))
    = [update_request "ws" "e1" d; entries_request "ws" "u1"]
    /\ sd_start d = 5000 /\ sd_end d = 1020 /\ sd_end d < sd_start d.
Proof.
  exists (stop_data (sample_entry 5000) (Some (js "p1")) 1020).
  split; [vm_compute; reflexivity|].
  split; [reflexivity|]. split; [reflexivity|]. reflexivity.
Qed.

(** C2. Once the entry list has been fetched, the stop procedure fails with
    "No running timer found" exactly when no entry of the list lacks an
    end; it then stops in the world in which the list arrived, so the
    fetch of the list is the only request it has sent: no update and no
    fetch of the project list. That failure is none of the messages the
    pipeline gives to transport failures. *)
Theorem stop_without_running_timer env ws uid w entries w1 :
  getTimeEntries env ws uid w = (Ret entries, w1) ->
  (fst (stopTimer env ws uid w) = Throw (Error msg_no_running_timer)
   <-> Forall (fun x => ti_end (te_timeInterval x) <> None) entries) /\
  (Forall (fun x => ti_end (te_timeInterval x) <> None) entries ->
   snd (stopTimer env ws uid w) = w1 /\
   net_log (snd (stopTimer env ws uid w)) = entries_request ws uid :: net_log w) /\
  (forall st, classify st <> msg_no_running_timer).
Proof.
  intro Hfetch.
  destruct (getTimeEntries_inv _ _ _ _ Hfetch) as (_ & _ & Hw1).
  assert (Hnone : find is_running entries = None ->
                  stopTimer env ws uid w = (Throw (Error msg_no_running_timer), w1)).
  { intro Hf. unfold stopTimer, bind. now rewrite Hfetch, Hf. }
  split; [split|split].
  - intro Hthrow. apply find_none_iff.
    destruct (find is_running entries) as [e|] eqn:Hfind; [|reflexivity].
    exfalso.
    destruct (stopTimer_running _ _ _ _ Hfetch Hfind) as [_ Heq].
    rewrite Heq in Hthrow.
    match type of Hthrow with
    | fst (send ?env ?req ?reply ?w) = _ =>
        pose proof (send_outcome env req reply w) as Ho
    end.
    rewrite Hthrow in Ho. destruct Ho as [st Hst]. inversion Hst as [Hm].
    exact (classify_not_no_running_timer st (eq_sym Hm)).
  - intro Hall. apply find_none_iff in Hall. now rewrite (Hnone Hall).
  - intro Hall. apply find_none_iff in Hall. rewrite (Hnone Hall). cbn [snd].
    split; [reflexivity|]. rewrite Hw1.
    apply (answered_fields env (entries_request ws uid) w).
  - exact classify_not_no_running_timer.
Qed.

Lemma stop_without_running_timer_witness :
  fst (stopTimer idle_env "ws" "u1" (started 1000 (Some sample_key)))
  = Throw (Error msg_no_running_timer)
  /\ net_log (snd (stopTimer idle_env "ws" "u1" (started 1000 (Some sample_key))))
     = [entries_request "ws" "u1"].
Proof.
  destruct (@stop_without_running_timer idle_env "ws" "u1"
              (started 1000 (Some sample_key)) [finished_entry]
              (snd (getTimeEntries idle_env "ws" "u1" (started 1000 (Some sample_key)))))
    as (Hiff & Hlog & _).
  - vm_compute. reflexivity.
  - assert (Hall : Forall (fun x => ti_end (te_timeInterval x) <> None) [finished_entry])
      by (repeat constructor; discriminate).
    split; [exact (proj2 Hiff Hall) | exact (proj2 (Hlog Hall))].
Defined.

(** C8. When the running entry has no project, the stop procedure fetches
    the project list of the workspace and takes the id of its first
    element; when that fetch fails, or the list is empty, it goes on
    without a project. Either way the update is sent, and what the stop
    procedure yields is what the update yields. *)
Theorem stop_default_project env ws uid w entries w1 e :
  getTimeEntries env ws uid w = (Ret entries, w1) ->
  find is_running entries = Some e ->
  truthy_opt (te_projectId e) = false ->
  exists d,
    net_log (snd (stopTimer env ws uid w))
    = update_request ws (te_id e) d :: projects_request ws :: net_log w1 /\
    sd_projectId d
    = match service_projects env (net_log w1) ws with
      | Success (p :: _) => or_null (Some (project_id p))
      | Success [] => None
      | Failure _ _ _ => None
      end /\
    fst (stopTimer env ws uid w)
    = match service_update_entry env (projects_request ws :: net_log w1) ws
              (te_id e) (PStop d) with
      | Success saved => Ret saved
      | Failure st _ _ => Throw (Error (classify st))
      end.
Proof.
  intros Hfetch Hfind Ht.
  destruct (stopTimer_running _ _ _ _ Hfetch Hfind) as [Hk Heq].
  pose proof (project_lookup_log env ws e w1) as Hlog. rewrite Ht in Hlog.
  set (w2 := snd (project_lookup env ws e w1)) in *.
  set (d := stop_data e (fst (project_lookup env ws e w1)) (clock w2)) in *.
  exists d. split; [|split].
  - rewrite Heq, send_log by exact Hk. now rewrite Hlog.
  - cbn [d sd_projectId stop_data]. unfold project_lookup. rewrite Ht.
    destruct (service_projects env (net_log w1) ws) as [[|p l]|st raw msg]; cbn [fst];
      try reflexivity; unfold or_null; now rewrite Ht.
  - rewrite Heq, send_eq, Hk, Hlog. cbn [app].
    destruct (service_update_entry env (projects_request ws :: net_log w1) ws
                (te_id e) (PStop d)); reflexivity.
Qed.

Lemma stop_default_project_witness :
  exists d,
    net_log (snd (stopTimer no_projects_env "ws" "u1" (started 1000 (Some sample_key))))
    = [update_request "ws" "e2" d; projects_request "ws"; entries_request "ws" "u1"]
    /\ sd_projectId d = None
    /\ fst (stopTimer no_projects_env "ws" "u1" (started 1000 (Some sample_key)))
       = Ret bare_entry.
Proof.
  destruct (@stop_default_project no_projects_env "ws" "u1"
              (started 1000 (Some sample_key)) [bare_entry]
              (snd (getTimeEntries no_projects_env "ws" "u1"
                      (started 1000 (Some sample_key))))
              bare_entry)
    as [d (Hlog & Hpid & Hout)].
  - vm_compute. reflexivity.
  - reflexivity.
  - reflexivity.
  - exists d. split; [exact Hlog | split; [exact Hpid | exact Hout]].
Defined.

End Stop.

(** ** Pacing *)

Module Pacing.
Import JsString Sys Api Model Pipeline.
Local Open Scope Z_scope.

Section NeverEarly.
Variable env : Env.
Hypothesis never_early : forall c ms, 0 <= timer_slack env c ms.

Lemma gate_advances w :
  lastRequestTime w + minRequestInterval <= clock (paced env w).
Proof.
  rewrite paced_clock.
  destruct (clock w - lastRequestTime w <? minRequestInterval) eqn:E.
  - pose proof (never_early (clock w)
                  (minRequestInterval - (clock w - lastRequestTime w))). lia.
  - apply Z.ltb_ge in E. lia.
Qed.

Lemma well_paced_departure req w :
  well_paced w -> well_paced (answered env req w).
Proof.
  intros [Hs Hl]. unfold well_paced.
  destruct (answered_fields env req w)
    as (_ & _ & _ & _ & _ & _ & _ & Hd & _ & _ & Hr & _).
  rewrite Hd, Hr. pose proof (gate_advances w) as Hg.
  split; [|lia].
  destruct (dispatch_log w) as [|latest rest]; cbn [spaced]; [exact I|].
  split; [lia | exact Hs].
Qed.

Lemma well_paced_held_back w :
  well_paced w -> well_paced (paced env w).
Proof.
  intros [Hs Hl]. unfold well_paced.
  destruct (paced_fields env w) as (_ & _ & _ & _ & _ & _ & _ & Hd & _ & _ & Hr).
  rewrite Hd, Hr. pose proof (gate_advances w) as Hg.
  split; [exact Hs|].
  destruct (dispatch_log w); [exact I | unfold minRequestInterval in Hg; lia].
Qed.

Lemma well_paced_noted line w : well_paced w -> well_paced (noted line w).
Proof.
  unfold well_paced.
  destruct (noted_fields line w) as (_ & _ & _ & _ & _ & _ & _ & Hd & _ & Hr & _).
  now rewrite Hd, Hr.
Qed.

Lemma send_well_paced A (req : Request) (reply : History -> Reply A) w :
  well_paced w -> well_paced (snd (send env req reply w)).
Proof.
  intro H. rewrite send_eq.
  destruct (key_accepted w); [destruct (reply (net_log w))|]; cbn [snd];
    auto using well_paced_departure, well_paced_held_back, well_paced_noted.
Qed.

Lemma issue_step c rest w :
  issue env (c :: rest) w
  = issue env rest (snd (send env (call_request c) (call_reply c) w)).
Proof.
  cbn [issue]. unfold bind, try_catch, ret.
  pose proof (send_outcome env (call_request c) (call_reply c) w) as Ho.
  destruct (send env (call_request c) (call_reply c) w) as [[d|e|x] w'];
    cbn [fst snd] in *; [reflexivity | reflexivity | contradiction].
Qed.

Lemma issue_well_paced calls : forall w,
  well_paced w -> well_paced (snd (issue env calls w)).
Proof.
  induction calls as [|c rest IH]; intros w H; [exact H|].
  rewrite issue_step. apply IH. now apply send_well_paced.
Qed.

Lemma send_departs A (req : Request) (reply : History -> Reply A) w :
  key_accepted w = true ->
  key_accepted (snd (send env req reply w)) = true /\
  List.length (dispatch_log (snd (send env req reply w)))
  = S (List.length (dispatch_log w)).
Proof.
  intro Hk. rewrite send_eq, Hk.
  destruct (answered_fields env req w)
    as (_ & _ & _ & _ & _ & _ & _ & Hd & _).
  destruct (reply (net_log w)) as [d|st raw msg]; cbn [snd].
  - rewrite key_accepted_answered, Hd. now split.
  - destruct (noted_fields raw (answered env req w))
      as (_ & _ & _ & _ & _ & _ & _ & Hd' & _).
    rewrite key_accepted_noted, key_accepted_answered, Hd', Hd. now split.
Qed.

Lemma issue_departs calls : forall w,
  key_accepted w = true ->
  List.length (dispatch_log (snd (issue env calls w)))
  = (List.length calls + List.length (dispatch_log w))%nat.
Proof.
  induction calls as [|c rest IH]; intros w Hk; [reflexivity|].
  rewrite issue_step.
  destruct (send_departs (call_request c) (call_reply c) w Hk) as [Hk' Hl].
  rewrite (IH _ Hk'), Hl. cbn [List.length]. lia.
Qed.
End NeverEarly.

(** C3, for timers that are never early. The time of a call is the one the
    gate stamps on it, the value it stores in [lastRequestTime]; the request
    is handed to the transport once the key has been read, which takes no
    time here.  Provided a timer never fires early by the clock, any number
    of calls issued one after the other through the client are stamped with
    times of which any two consecutive ones are at least the minimum
    interval, 100 ms, apart; with a usable key every one of the calls is
    stamped and leaves. *)
Theorem pacing_invariant env calls w :
  (forall c ms, 0 <= timer_slack env c ms) ->
  well_paced w ->
  minRequestInterval = 100 /\
  spaced minRequestInterval (dispatch_log (snd (issue env calls w))) /\
  (key_accepted w = true ->
   List.length (dispatch_log (snd (issue env calls w)))
   = (List.length calls + List.length (dispatch_log w))%nat).
Proof.
  intros Hslack Hw. split; [reflexivity|]. split.
  - now apply issue_well_paced.
  - now apply issue_departs.
Qed.

Lemma pacing_invariant_witness :
  dispatch_log (snd (issue busy_env sample_calls (started 1000 (Some sample_key))))
  = [1200; 1100; 1000]
  /\ spaced 100 (dispatch_log (snd (issue busy_env sample_calls
                                        (started 1000 (Some sample_key))))).
Proof.
  split; [vm_compute; reflexivity|].
  apply (@pacing_invariant busy_env sample_calls (started 1000 (Some sample_key))).
  - intros c ms. cbn. lia.
  - split; exact I.
Defined.

(** Counterexample for C3: the gate measures its wait with a timer and never
    looks at the clock again before stamping.  With a timer that fires one
    millisecond early, two calls issued one after the other are stamped 99 ms
    apart. *)
Lemma early_timer_gap :
  dispatch_log (snd (issue early_timer_env (firstn 2 sample_calls)
                           (started 1000 (Some sample_key))))
  = [1099; 1000]
  /\ well_paced (started 1000 (Some sample_key))
  /\ ~ spaced minRequestInterval
        (dispatch_log (snd (issue early_timer_env (firstn 2 sample_calls)
                                  (started 1000 (Some sample_key)))))
  /\ ~ (forall env calls w,
          well_paced w ->
          spaced minRequestInterval (dispatch_log (snd (issue env calls w)))).
Proof.
  assert (E : dispatch_log (snd (issue early_timer_env (firstn 2 sample_calls)
                                       (started 1000 (Some sample_key))))
              = [1099; 1000]) by (vm_compute; reflexivity).
  assert (W : well_paced (started 1000 (Some sample_key))) by (split; exact I).
  assert (N : ~ spaced minRequestInterval
                (dispatch_log (snd (issue early_timer_env (firstn 2 sample_calls)
                                          (started 1000 (Some sample_key)))))).
  { rewrite E. cbn [spaced]. unfold minRequestInterval. lia. }
  repeat split; try assumption.
  intro H. apply N. apply H. exact W.
Qed.

End Pacing.

(** ** Login *)

Module Login.
Import JsString Sys Api Model Pipeline.
Local Open Scope Z_scope.

Lemma send_frame env A (req : Request) (reply : History -> Reply A) w :
  api_key_file (snd (send env req reply w)) = api_key_file w /\
  disk_writable (snd (send env req reply w)) = disk_writable w /\
  config (snd (send env req reply w)) = config w /\
  config_file (snd (send env req reply w)) = config_file w /\
  console (snd (send env req reply w)) = console w.
Proof.
  rewrite send_eq.
  destruct (paced_fields env w) as (_ & P1 & _ & P2 & P3 & P4 & _ & _ & P5 & _).
  destruct (answered_fields env req w) as (_ & A1 & _ & A2 & A3 & A4 & _ & _ & A5 & _).
  destruct (key_accepted w); [destruct (reply (net_log w)) as [d|st raw msg]|]; cbn [snd].
  - repeat split; assumption.
  - destruct (noted_fields raw (answered env req w))
      as (_ & N1 & _ & N2 & N3 & N4 & _ & _ & N5 & _).
    repeat split; congruence.
  - destruct (noted_fields "undefined" (paced env w))
      as (_ & N1 & _ & N2 & N3 & N4 & _ & _ & N5 & _).
    repeat split; congruence.
Qed.

Lemma testConnection_frame env w :
  api_key_file (snd (testConnection env w)) = api_key_file w /\
  disk_writable (snd (testConnection env w)) = disk_writable w /\
  config (snd (testConnection env w)) = config w /\
  config_file (snd (testConnection env w)) = config_file w /\
  console (snd (testConnection env w)) = console w.
Proof.
  rewrite testConnection_eq. unfold getCurrentUser, client_get.
  pose proof (send_frame env {| method := GET; path := "/user"; body := None |}
                (service_user env) w) as H.
  destruct (send env {| method := GET; path := "/user"; body := None |}
              (service_user env) w) as [[u|e|c] w']; exact H.
Qed.

Lemma removeApiKey_removes env w k :
  disk_writable w = true ->
  api_key_file w = Some k ->
  ConfigManager.removeApiKey env w = (Ret true, with_api_key_file None w).
Proof.
  intros Hd Hk.
  unfold ConfigManager.removeApiKey, try_catch, bind, gets, ConfigManager.fs_guard,
    modify, ret.
  now rewrite Hk, Hd.
Qed.

Lemma verify_fails env w1 e w2 :
  testConnection env w1 = (Throw e, w2) ->
  Auth.verify_and_configure env w1 = (Throw e, w2).
Proof.
  intro H. unfold Auth.verify_and_configure, bind at 1. now rewrite H.
Qed.

Lemma login_eq env key w :
  truthy (entered_key env key) = true ->
  Utils.isValidApiKey (entered_key env key) = true ->
  disk_writable w = true ->
  Auth.login env key w
  = match Auth.verify_and_configure env
            (key_stored (entered_key env key) (prompted key w)) with
    | (Ret _, w2) => (Ret tt, w2)
    | (Throw e, w2) =>
        (Exit 1,
         with_console ("Authentication failed: " ++ exn_message e)
           (snd (ConfigManager.removeApiKey env w2)))
    | (Exit c, w2) => (Exit c, w2)
    end.
Proof.
  unfold entered_key, prompted. intros Ht Hv Hd.
  unfold Auth.login, try_catch, bind, ret, console_log, modify, throw, exit,
    ConfigManager.setApiKey, ConfigManager.fs_guard, try_catch, bind, modify.
  destruct (truthy_opt key) eqn:Hk.
  - destruct key as [k|]; [|discriminate Hk]. cbn [or_empty] in Ht, Hv.
    repeat (progress (cbn [truthy_opt negb or_empty]; world_simpl;
                      rewrite ?Ht, ?Hv, ?Hd)).
    fold (key_stored k w).
    destruct (Auth.verify_and_configure env (key_stored k w)) as [[[]|e|c] w2];
      try reflexivity.
    unfold ConfigManager.removeApiKey, try_catch, bind, gets, ConfigManager.fs_guard,
      modify, ret.
    destruct (api_key_file w2); [destruct (disk_writable w2)|]; reflexivity.
  - repeat (progress (cbn [truthy_opt negb or_empty]; world_simpl;
                      rewrite ?Ht, ?Hv, ?Hd)).
    unfold key_stored.
    match goal with
    | |- context [Auth.verify_and_configure env ?w0] =>
        destruct (Auth.verify_and_configure env w0) as [[[]|e|c] w2]
    end; try reflexivity.
    unfold ConfigManager.removeApiKey, try_catch, bind, gets, ConfigManager.fs_guard,
      modify, ret.
    destruct (api_key_file w2); [destruct (disk_writable w2)|]; reflexivity.
Qed.

Lemma prompted_disk key w : disk_writable (prompted key w) = disk_writable w.
Proof. unfold prompted. destruct (truthy_opt key); reflexivity. Qed.

Lemma verify_one_workspace env w1 user w2 workspace w3 :
  testConnection env w1 = (Ret user, w2) ->
  getWorkspaces env (with_console (greeting user) w2) = (Ret [workspace], w3) ->
  disk_writable w3 = true ->
  fst (Auth.verify_and_configure env w1) = Ret tt /\
  cfg_workspaceId (config (snd (Auth.verify_and_configure env w1)))
  = Some (workspace_id workspace) /\
  config_file (snd (Auth.verify_and_configure env w1))
  = Some (config (snd (Auth.verify_and_configure env w1))) /\
  api_key_file (snd (Auth.verify_and_configure env w1)) = api_key_file w3.
Proof.
  intros H1 H2 Hd.
  assert (E : exists wf,
             Auth.verify_and_configure env w1 = (Ret tt, wf) /\
             cfg_workspaceId (config wf) = Some (workspace_id workspace) /\
             config_file wf = Some (config wf) /\
             api_key_file wf = api_key_file w3).
  { unfold Auth.verify_and_configure, bind at 1. rewrite H1.
    unfold bind at 1, console_log at 1, modify at 1. fold (greeting user).
    unfold bind at 1. rewrite H2.
    unfold bind, console_log, modify, ret, ConfigManager.set_workspaceId,
      ConfigManager.saveConfig, ConfigManager.fs_guard, try_catch, bind, gets, modify.
    world_simpl. rewrite Hd.
    eexists. split; [reflexivity|]. world_simpl. repeat split; reflexivity. }
  destruct E as (wf & E & P1 & P2 & P3). rewrite E. cbn [fst snd].
  repeat split; assumption.
Qed.

(** C9. [login] stores the key it was given or asked for, once the key is
    well formed, and then checks the connection. When the check fails the
    stored key is removed, the failure is printed and the process exits with
    code 1. When the check succeeds and the service lists exactly one
    workspace, the id of that workspace becomes the active workspace of the
    configuration, in memory and on disk, and the key stays stored. The disk
    is taken to accept writes. *)
Theorem login_checks_key env key w :
  let k := entered_key env key in
  let w1 := key_stored k (prompted key w) in
  truthy k = true ->
  Utils.isValidApiKey k = true ->
  disk_writable w = true ->
  api_key_file w1 = Some k /\
  (forall e w2,
      testConnection env w1 = (Throw e, w2) ->
      fst (Auth.login env key w) = Exit 1 /\
      api_key_file (snd (Auth.login env key w)) = None /\
      console (snd (Auth.login env key w))
      = ("Authentication failed: " ++ exn_message e) :: console w1) /\
  (forall user w2 workspace w3,
      testConnection env w1 = (Ret user, w2) ->
      getWorkspaces env (with_console (greeting user) w2) = (Ret [workspace], w3) ->
      fst (Auth.login env key w) = Ret tt /\
      cfg_workspaceId (config (snd (Auth.login env key w)))
      = Some (workspace_id workspace) /\
      config_file (snd (Auth.login env key w))
      = Some (config (snd (Auth.login env key w))) /\
      api_key_file (snd (Auth.login env key w)) = Some k).
Proof.
  intros k w1 Ht Hv Hd.
  assert (Hd1 : disk_writable w1 = true)
    by (unfold w1, key_stored; world_simpl; now rewrite prompted_disk).
  assert (Hk1 : api_key_file w1 = Some k) by reflexivity.
  split; [exact Hk1|]. split.
  - intros e w2 Hfail.
    rewrite (login_eq env key w Ht Hv Hd). fold k w1.
    rewrite (verify_fails env _ Hfail).
    destruct (testConnection_frame env w1) as (Fk & Fd & _ & _ & Fc).
    rewrite Hfail in Fk, Fd, Fc. cbn [snd] in Fk, Fd, Fc.
    rewrite Hd1 in Fd. rewrite Hk1 in Fk.
    rewrite (removeApiKey_removes env w2 Fd Fk). world_simpl.
    rewrite Fc. repeat split; reflexivity.
  - intros user w2 workspace w3 Hu Hw.
    destruct (testConnection_frame env w1) as (Fk & Fd & _ & _ & _).
    rewrite Hu in Fk, Fd. cbn [snd] in Fk, Fd.
    pose proof (send_frame env {| method := GET; path := "/workspaces"; body := None |}
                  (service_workspaces env) (with_console (greeting user) w2)) as Fs.
    unfold getWorkspaces, client_get in Hw. rewrite Hw in Fs. cbn [snd] in Fs.
    world_simpl. destruct Fs as (Gk & Gd & _).
    assert (Hd3 : disk_writable w3 = true) by congruence.
    destruct (verify_one_workspace env w1 Hu Hw Hd3) as (V1 & V2 & V3 & V4).
    rewrite (login_eq env key w Ht Hv Hd). fold k w1.
    destruct (Auth.verify_and_configure env w1) as [[[]|e|c] wf];
      cbn [fst snd] in *; try discriminate.
    repeat split; try assumption. congruence.
Qed.

Lemma login_checks_key_witness :
  (fst (Auth.login unauthorized_env (Some sample_key) (started 1000 None)) = Exit 1
   /\ api_key_file (snd (Auth.login unauthorized_env (Some sample_key) (started 1000 None)))
      = None)
  /\ (fst (Auth.login welcoming_env None (started 1000 None)) = Ret tt
      /\ cfg_workspaceId
           (config (snd (Auth.login welcoming_env None (started 1000 None))))
         = Some (js "ws1")).
Proof.
  split.
  - destruct (@login_checks_key unauthorized_env (Some sample_key) (started 1000 None))
      as (_ & Hfail & _); try (vm_compute; reflexivity).
    destruct (Hfail (Error "Connection test failed: Authentication failed. Please check your API key.")
                (snd (testConnection unauthorized_env
                        (key_stored sample_key (started 1000 None)))))
      as (H1 & H2 & _); [vm_compute; reflexivity|].
    split; [exact H1 | exact H2].
  - destruct (@login_checks_key welcoming_env None (started 1000 None))
      as (_ & _ & Hok); try (vm_compute; reflexivity).
    destruct (Hok sample_user
                (snd (testConnection welcoming_env
                        (key_stored sample_key (prompted None (started 1000 None)))))
                sample_workspace
                (snd (getWorkspaces welcoming_env
                        (with_console (greeting sample_user)
                           (snd (testConnection welcoming_env
                                   (key_stored sample_key
                                      (prompted None (started 1000 None)))))))))
      as (H1 & H2 & _); try (vm_compute; reflexivity).
    split; [exact H1 | exact H2].
Defined.

End Login.

(** ** Characters and strings *)

Module StringFacts.
Import JsString Model.

(** Decide the comparisons on the code of a character and leave linear
    arithmetic over [N]. *)
Ltac code_cases :=
  unfold is_digit, is_space, is_word, in_range in *;
  repeat match goal with
    | H : context [(?a <=? ?b)%N] |- _ => destruct (N.leb_spec a b)
    | H : context [(?a =? ?b)%N] |- _ => destruct (N.eqb_spec a b)
    | |- context [(?a <=? ?b)%N] => destruct (N.leb_spec a b)
    | |- context [(?a =? ?b)%N] => destruct (N.eqb_spec a b)
    end;
  cbn [andb orb negb] in *;
  try discriminate; try reflexivity; try lia.

Lemma space_lower c : is_space c = true -> lower_char c = c.
Proof. intro H. unfold lower_char. code_cases. Qed.

Lemma digit_lower c : is_digit c = true -> lower_char c = c.
Proof. intro H. unfold lower_char. code_cases. Qed.

Lemma digit_not_space c : is_digit c = true -> is_space c = false.
Proof. intro H. code_cases. Qed.

Lemma drop_space_all s :
  Forall (fun c => is_space c = true) s -> drop_space s = [].
Proof.
  induction 1 as [|c r Hc _ IH]; [reflexivity|]. cbn [drop_space]. now rewrite Hc.
Qed.

Lemma drop_space_none s :
  Forall (fun c => is_space c = false) s -> drop_space s = s.
Proof.
  destruct 1 as [|c r Hc _]; [reflexivity|]. cbn [drop_space]. now rewrite Hc.
Qed.

Lemma trim_none s :
  Forall (fun c => is_space c = false) s -> trim s = s.
Proof.
  intro H. unfold trim. rewrite (drop_space_none H).
  rewrite drop_space_none by (now apply Forall_rev). apply rev_involutive.
Qed.

Lemma normalize_blank s :
  Forall (fun c => is_space c = true) s -> trim (toLowerCase s) = [].
Proof.
  intro H. unfold trim, toLowerCase.
  assert (E : map lower_char s = s).
  { induction H as [|c r Hc _ IH]; [reflexivity|].
    cbn [map]. now rewrite (space_lower c Hc), IH. }
  rewrite E, (drop_space_all H). reflexivity.
Qed.

Lemma normalize_plain s : Forall plain s -> trim (toLowerCase s) = s.
Proof.
  intro H. unfold toLowerCase.
  assert (E : map lower_char s = s).
  { induction H as [|c r [Hc _] _ IH]; [reflexivity|].
    cbn [map]. now rewrite Hc, IH. }
  rewrite E. apply trim_none.
  eapply Forall_impl; [|exact H]. now intros c [_ Hc].
Qed.

Lemma digit_plain c : is_digit c = true -> plain c.
Proof. intro H. split; [now apply digit_lower | now apply digit_not_space]. Qed.

Lemma digits_plain n : Forall (fun c => is_digit c = true) n -> Forall plain n.
Proof. intro H. eapply Forall_impl; [|exact H]. exact digit_plain. Qed.

Lemma span_app p a b :
  Forall (fun c => p c = true) a ->
  match b with c :: _ => p c = false | [] => True end ->
  span p (a ++ b) = (a, b).
Proof.
  intros Ha Hb. induction Ha as [|c r Hc _ IH]; cbn [app span].
  - destruct b as [|c r]; [reflexivity|]. cbn [span]. now rewrite Hb.
  - now rewrite Hc, IH.
Qed.

Lemma span_all p a : Forall (fun c => p c = true) a -> span p a = (a, []).
Proof.
  intro H. rewrite <- (app_nil_r a) at 1. now apply span_app.
Qed.

End StringFacts.

(** ** Numbers *)

Module NumberFacts.
Import JsNumber.
Local Open Scope Z_scope.

Lemma Qred_whole z : Qred (inject_Z z) = inject_Z z.
Proof.
  unfold Qred, inject_Z.
  pose proof (Z.ggcd_gcd z 1) as G. pose proof (Z.ggcd_correct_divisors z 1) as D.
  destruct (Z.ggcd z 1) as [g [aa bb]]. cbn [fst snd] in *.
  rewrite Z.gcd_1_r in G. subst g. destruct D as [D1 D2].
  rewrite Z.mul_1_l in D1, D2. subst aa bb. reflexivity.
Qed.

Lemma round_half_even_exact a : round_half_even a 1 = a.
Proof.
  unfold round_half_even. rewrite Z.mod_1_r, Z.div_1_r. reflexivity.
Qed.

Lemma round_half_even_bounds a b :
  0 <= a -> 0 < b -> 0 <= round_half_even a b <= a / b + 1.
Proof.
  intros Ha Hb. unfold round_half_even.
  assert (0 <= a / b) by (apply Z.div_pos; lia).
  destruct (2 * (a mod b) ?= b); [destruct (Z.even (a / b))| |]; lia.
Qed.

Lemma binade_le n d : 0 < n -> 0 < d -> binade n d <= Z.log2 n.
Proof.
  intros Hn Hd. unfold binade.
  assert (0 <= Z.log2 d) by apply Z.log2_nonneg.
  destruct (if 0 <=? Z.log2 n - Z.log2 d then _ else _); lia.
Qed.

Lemma binade_whole z : 0 < z -> binade z 1 = Z.log2 z.
Proof.
  intro Hz. unfold binade. change (Z.log2 1) with 0. rewrite Z.sub_0_r.
  pose proof (Z.log2_nonneg z) as L.
  destruct (Z.leb_spec 0 (Z.log2 z)); [|lia].
  rewrite Z.mul_1_r.
  destruct (Z.ltb_spec z (2 ^ Z.log2 z)); [|reflexivity].
  pose proof (Z.log2_spec z Hz). lia.
Qed.

(** A whole number below 2^53 is a binary64. *)
Lemma nearest_ratio_whole z :
  0 < z < 2 ^ 53 -> nearest_ratio z 1 = whole z.
Proof.
  intros [Hz Hb]. unfold nearest_ratio. rewrite (binade_whole Hz).
  assert (L : 0 <= Z.log2 z < 53).
  { split; [apply Z.log2_nonneg|]. apply Z.log2_lt_pow2; lia. }
  rewrite Z.max_l by lia.
  destruct (Z.leb_spec 0 (Z.log2 z - 52)) as [E|E].
  - assert (E0 : Z.log2 z - 52 = 0) by lia. rewrite E0.
    change (2 ^ 0) with 1. rewrite !Z.mul_1_r, round_half_even_exact.
    destruct (Z.leb_spec (2 ^ 1024) z) as [B|_]; [|reflexivity].
    assert (2 ^ 53 < 2 ^ 1024) by (apply Z.pow_lt_mono_r; lia). lia.
  - rewrite round_half_even_exact. unfold whole. f_equal.
    set (P := 2 ^ (- (Z.log2 z - 52))).
    assert (HP : 0 < P) by (apply Z.pow_pos_nonneg; lia).
    transitivity (Qred (inject_Z z)); [|apply Qred_whole]. apply Qred_complete.
    unfold Qeq, inject_Z. cbn [Qnum Qden]. rewrite Z2Pos.id by exact HP. lia.
Qed.

Lemma nearest_whole q z :
  (q == inject_Z z)%Q -> 0 <= z < 2 ^ 53 -> nearest q = whole z.
Proof.
  intros E [Hz Hb]. unfold nearest.
  rewrite (Qred_complete _ _ E), Qred_whole. unfold inject_Z.
  destruct z as [|p|p]; [reflexivity| |lia].
  apply nearest_ratio_whole. lia.
Qed.

Lemma nearest_ratio_bound n d :
  0 < n -> 0 < d ->
  match nearest_ratio n d with
  | Finite v => (0 <= v <= inject_Z (2 * n + 1))%Q
  | Infinite negative => negative = false /\ 2 ^ 1024 <= 2 * n
  | NaN => False
  end.
Proof.
  intros Hn Hd. unfold nearest_ratio.
  set (e := Z.max (binade n d - 52) (-1074)).
  destruct (Z.leb_spec 0 e) as [E|E].
  - assert (P : 0 < 2 ^ e) by (apply Z.pow_pos_nonneg; lia).
    assert (B : 0 < d * 2 ^ e) by lia.
    pose proof (round_half_even_bounds (a := n) (b := d * 2 ^ e) (Z.lt_le_incl _ _ Hn) B)
      as [M0 M1].
    assert (Le : 2 ^ e <= n).
    { pose proof (binade_le Hn Hd) as BL. pose proof (Z.log2_spec n Hn) as [L _].
      assert (e <= Z.log2 n) by (unfold e; lia).
      etransitivity; [|exact L]. apply Z.pow_le_mono_r; lia. }
    assert (Q1 : n / (d * 2 ^ e) * 2 ^ e <= n).
    { assert (n / (d * 2 ^ e) <= n / 2 ^ e).
      { apply Z.div_le_compat_l; [lia|]. nia. }
      pose proof (Z.mul_div_le n (2 ^ e) P). nia. }
    assert (Up : round_half_even n (d * 2 ^ e) * 2 ^ e <= 2 * n) by nia.
    destruct (Z.leb_spec (2 ^ 1024) (round_half_even n (d * 2 ^ e) * 2 ^ e));
      [split; [reflexivity | lia]|].
    unfold whole. change 0%Q with (inject_Z 0). rewrite <- !Zle_Qle.
    split; [apply Z.mul_nonneg_nonneg; lia | lia].
  - set (P := 2 ^ (- e)).
    assert (HP : 0 < P) by (apply Z.pow_pos_nonneg; lia).
    assert (A : 0 <= n * P) by nia.
    pose proof (round_half_even_bounds (a := n * P) (b := d) A Hd) as [M0 M1].
    set (m := round_half_even (n * P) d) in *.
    rewrite (Qred_correct (Qmake m (Z.to_pos P))).
    unfold Qle, inject_Z. cbn [Qnum Qden]. rewrite Z2Pos.id by exact HP.
    split; [lia|].
    assert (n * P / d <= n * P) by (apply Z.div_le_upper_bound; nia).
    nia.
Qed.

Lemma nearest_bound q :
  (0 <= q)%Q ->
  match nearest q with
  | Finite v => (0 <= v <= inject_Z (2 * Qnum (Qred q) + 1))%Q
  | Infinite negative => negative = false /\ 2 ^ 1024 <= 2 * Qnum (Qred q)
  | NaN => False
  end.
Proof.
  intro H. unfold nearest.
  assert (S : (0 <= Qred q)%Q) by (now rewrite Qred_correct).
  destruct (Qred q) as [n d]. cbn [Qnum].
  destruct n as [|p|p].
  - unfold whole. change 0%Q with (inject_Z 0). rewrite <- !Zle_Qle. lia.
  - apply nearest_ratio_bound; lia.
  - unfold Qle in S. cbn in S. lia.
Qed.

Lemma multiply_whole a b :
  0 <= a -> 0 <= b -> a * b < 2 ^ 53 ->
  multiply (whole a) (whole b) = whole (a * b).
Proof.
  intros Ha Hb Hab. unfold multiply, whole.
  apply nearest_whole; [now rewrite inject_Z_mult | nia].
Qed.

Lemma add_whole a b :
  0 <= a -> 0 <= b -> a + b < 2 ^ 53 ->
  add (whole a) (whole b) = whole (a + b).
Proof.
  intros Ha Hb Hab. unfold add, whole.
  apply nearest_whole; [now rewrite inject_Z_plus | lia].
Qed.

Lemma Math_round_whole z : Math_round (whole z) = whole z.
Proof.
  unfold Math_round, whole. f_equal. f_equal.
  unfold Qfloor, Qplus, inject_Z. cbn [Qnum Qden Pos.mul].
  symmetry. apply Z.div_unique with (r := 1); lia.
Qed.

(** A number that is not negative. *)
Lemma nearest_nonneg q :
  (0 <= q)%Q ->
  match nearest q with
  | Finite v => (0 <= v)%Q
  | Infinite negative => negative = false
  | NaN => False
  end.
Proof.
  intro H. pose proof (nearest_bound H) as B.
  destruct (nearest q); [apply B | apply B | exact B].
Qed.

Lemma Qnum_Qred_le q : 0 <= Qnum q -> 0 <= Qnum (Qred q) <= Qnum q.
Proof.
  destruct q as [n d]. cbn [Qnum]. intro H. unfold Qred.
  pose proof (Z.ggcd_gcd n (Zpos d)) as G.
  pose proof (Z.ggcd_correct_divisors n (Zpos d)) as D.
  destruct (Z.ggcd n (Zpos d)) as [g [aa bb]]. cbn [fst snd Qnum] in *.
  destruct D as [D1 D2].
  assert (0 <= g) by (rewrite G; apply Z.gcd_nonneg).
  assert (0 < g).
  { destruct (Z.eq_dec g 0) as [E|]; [|lia]. rewrite E in D2. discriminate D2. }
  assert (0 <= aa) by nia. nia.
Qed.

Lemma round_half_even_near a b :
  0 < b -> 2 * Z.abs (round_half_even a b * b - a) <= b.
Proof.
  intro Hb. unfold round_half_even.
  pose proof (Z.div_mod a b ltac:(lia)) as E.
  pose proof (Z.mod_pos_bound a b Hb) as M.
  destruct (Z.compare_spec (2 * (a mod b)) b) as [C|C|C];
    [destruct (Z.even (a / b))| |]; nia.
Qed.

Lemma binade_below n d k :
  0 < n -> 0 < d -> 0 <= k -> n < 2 ^ k * d -> binade n d < k.
Proof.
  intros Hn Hd Hk H. unfold binade.
  pose proof (Z.log2_spec n Hn) as [Ln _].
  pose proof (Z.log2_spec d Hd) as [_ Ld].
  pose proof (Z.log2_nonneg n) as N0. pose proof (Z.log2_nonneg d) as D0.
  assert (K : Z.log2 n - Z.log2 d <= k).
  { destruct (Z.le_gt_cases (Z.log2 n - Z.log2 d) k) as [L|L]; [exact L|exfalso].
    assert (P : 2 ^ (k + (Z.log2 d + 1)) <= 2 ^ Z.log2 n) by (apply Z.pow_le_mono_r; lia).
    rewrite Z.pow_add_r in P by lia.
    assert (0 < 2 ^ k) by (apply Z.pow_pos_nonneg; lia). nia. }
  destruct (Z.eq_dec (Z.log2 n - Z.log2 d) k) as [E|E].
  - rewrite E. destruct (Z.leb_spec 0 k); [|lia].
    destruct (Z.ltb_spec n (2 ^ k * d)); lia.
  - destruct (if 0 <=? Z.log2 n - Z.log2 d then _ else _); lia.
Qed.

(** Below 2^48 the nearest number is within 1/64 of the value. *)
Lemma nearest_ratio_near n d :
  0 < n -> 0 < d -> n < 2 ^ 48 * d ->
  exists v, nearest_ratio n d = Finite v /\
            (Qmake n (Z.to_pos d) - (1 # 64) <= v <= Qmake n (Z.to_pos d) + (1 # 64))%Q.
Proof.
  intros Hn Hd H. unfold nearest_ratio.
  pose proof (@binade_below n d 48 Hn Hd ltac:(lia) H) as B.
  set (e := Z.max (binade n d - 52) (-1074)).
  assert (E : e <= -5) by (unfold e; lia).
  assert (E' : -1074 <= e) by (unfold e; lia).
  destruct (Z.leb_spec 0 e); [lia|].
  set (P := 2 ^ (- e)).
  assert (HP : 32 <= P).
  { change 32 with (2 ^ 5). apply Z.pow_le_mono_r; lia. }
  pose proof (@round_half_even_near (n * P) d Hd) as R.
  set (m := round_half_even (n * P) d) in *.
  exists (Qred (Qmake m (Z.to_pos P))). split; [reflexivity|].
  rewrite (Qred_correct (Qmake m (Z.to_pos P))).
  unfold Qle, Qminus, Qplus, Qopp. cbn [Qnum Qden].
  rewrite !Pos2Z.inj_mul, !Z2Pos.id by lia.
  split; nia.
Qed.

Lemma Qfloor_between v k :
  (inject_Z k <= v)%Q -> (v < inject_Z (k + 1))%Q -> Qfloor v = k.
Proof.
  intros L U.
  pose proof (Qfloor_resp_le _ _ L) as A. rewrite Qfloor_Z in A.
  pose proof (Qfloor_le v) as F.
  assert (G : (inject_Z (Qfloor v) < inject_Z (k + 1))%Q) by (eapply Qle_lt_trans; eassumption).
  rewrite <- Zlt_Qlt in G. lia.
Qed.

(** The hours of a whole number of minutes below 2^53: dividing rounds,
    but never across a whole number. *)
Lemma hours_whole z :
  0 <= z < 2 ^ 53 -> Math_floor (divide_by (whole z) 60) = whole (z / 60).
Proof.
  intros [Hz Hb]. unfold divide_by, whole, nearest.
  pose proof (Z.div_mod z 60 ltac:(lia)) as DM.
  pose proof (Z.mod_pos_bound z 60 ltac:(lia)) as MB.
  assert (K53 : z / 60 < 2 ^ 53) by (apply Z.div_lt_upper_bound; lia).
  assert (K0 : 0 <= z / 60) by (apply Z.div_pos; lia).
  assert (V : (inject_Z z / inject_Z 60 == Qmake z 60)%Q).
  { unfold Qeq, Qdiv, Qmult, Qinv, inject_Z. cbn. lia. }
  assert (RC : (Qred (inject_Z z / inject_Z 60) == Qmake z 60)%Q)
    by (rewrite Qred_correct; exact V).
  destruct (Qred (inject_Z z / inject_Z 60)) as [n d] eqn:QR.
  unfold Qeq in RC. cbn [Qnum Qden] in RC.
  destruct n as [|p|p]; [| |nia].
  - assert (z = 0) by nia. subst z. reflexivity.
  - destruct (@nearest_ratio_near (Zpos p) (Zpos d)) as (v & NV & Lo & Hi); [lia|lia| |].
    { assert (2 ^ 53 < 2 ^ 48 * 60) by (vm_compute; reflexivity). nia. }
    rewrite NV. cbn [Math_floor]. change (whole (Qfloor v) = whole (z / 60)). f_equal.
    destruct (Z.eq_dec (z mod 60) 0) as [M0|M0].
    + (* exact *)
      assert (NR : nearest_ratio (Zpos p) (Zpos d) = whole (z / 60)).
      { assert (Q : nearest (inject_Z z / inject_Z 60) = whole (z / 60)).
        { apply nearest_whole; [|lia]. rewrite V. unfold Qeq, inject_Z. cbn [Qnum Qden]. lia. }
        unfold nearest in Q. rewrite QR in Q. exact Q. }
      rewrite NR in NV. injection NV as <-. now rewrite Qfloor_Z.
    + apply Qfloor_between.
      * eapply Qle_trans; [|exact Lo]. unfold Qle, Qminus, Qplus, Qopp, inject_Z.
        cbn [Qnum Qden]. rewrite Pos2Z.id. nia.
      * eapply Qle_lt_trans; [exact Hi|]. unfold Qlt, Qplus, inject_Z.
        cbn [Qnum Qden]. rewrite Pos2Z.id. nia.
Qed.

End NumberFacts.

(** ** The matcher *)

Module RegexFacts.
Import JsString Regex StringFacts.

Section Repetition.
Variable R : Type.
Variable p : ascii -> bool.

(** When the continuation rejects every text that starts inside the
    class, only the longest run counts. *)
Lemma greedy_longest (k : t -> option R) s :
  (forall c r, p c = true -> k (c :: r) = None) ->
  greedy p s k = k (snd (span p s)).
Proof.
  intro Hk. induction s as [|c r IH]; [reflexivity|].
  cbn [greedy span]. destruct (p c) eqn:E; [|reflexivity].
  rewrite IH. destruct (span p r) as [a b]. cbn [snd].
  destruct (k b) eqn:Eb; [reflexivity|]. now apply Hk.
Qed.

Lemma greedy_sound (k : t -> option R) s x :
  greedy p s k = Some x ->
  exists w s', s = w ++ s' /\ Forall (fun c => p c = true) w /\ k s' = Some x.
Proof.
  revert x. induction s as [|c r IH]; intros x H; cbn [greedy] in H.
  - exists [], []. auto.
  - destruct (p c) eqn:E.
    + destruct (greedy p r k) as [y|] eqn:G.
      * inversion H; subst y. destruct (IH x eq_refl) as (w & s' & -> & Hw & Hk).
        exists (c :: w), s'. repeat split; auto.
      * exists [], (c :: r). auto.
    + exists [], (c :: r). auto.
Qed.

Lemma lazy_sound (k : t -> option R) s x :
  lazy p s k = Some x ->
  exists w s', s = w ++ s' /\ Forall (fun c => p c = true) w /\ k s' = Some x.
Proof.
  revert x. induction s as [|c r IH]; intros x H; cbn [lazy] in H.
  - destruct (k []) eqn:E; [|discriminate]. inversion H; subst.
    exists [], []. auto.
  - destruct (k (c :: r)) eqn:E.
    + inversion H; subst. exists [], (c :: r). auto.
    + destruct (p c) eqn:Ec; [|discriminate].
      destruct (IH x H) as (w & s' & -> & Hw & Hk).
      exists (c :: w), s'. repeat split; auto.
Qed.
End Repetition.

(** Whatever the matcher accepts is a match. *)
Lemma run_sound ci inp r : forall s cs k res,
  run ci r inp s cs k = Some res ->
  exists s' cs', matches ci inp r s s' /\ k s' cs' = Some res.
Proof.
  induction r as [c|p|r1 IH1 r2 IH2|r1 IH1 r2 IH2|r1 IH1|p|p|p|i r1 IH1| |];
    intros s cs k res H; cbn [run] in H.
  - destruct s as [|x s']; [discriminate|].
    destruct (lit_eqb ci c x) eqn:E; [|discriminate].
    exists s', cs. split; [now constructor | exact H].
  - destruct s as [|x s']; [discriminate|].
    destruct (p x) eqn:E; [|discriminate].
    exists s', cs. split; [now constructor | exact H].
  - destruct (IH1 _ _ _ _ H) as (s1 & cs1 & M1 & H1).
    destruct (IH2 _ _ _ _ H1) as (s2 & cs2 & M2 & H2).
    exists s2, cs2. split; [econstructor; eassumption | exact H2].
  - destruct (run ci r1 inp s cs k) as [y|] eqn:E.
    + inversion H; subst y. destruct (IH1 _ _ _ _ E) as (s1 & cs1 & M1 & H1).
      exists s1, cs1. split; [now apply m_alt_l | exact H1].
    + destruct (IH2 _ _ _ _ H) as (s1 & cs1 & M1 & H1).
      exists s1, cs1. split; [now apply m_alt_r | exact H1].
  - destruct (run ci r1 inp s cs k) as [y|] eqn:E.
    + inversion H; subst y. destruct (IH1 _ _ _ _ E) as (s1 & cs1 & M1 & H1).
      exists s1, cs1. split; [now apply m_opt_some | exact H1].
    + exists s, cs. split; [apply m_opt_none | exact H].
  - destruct s as [|x s']; [discriminate|].
    destruct (p x) eqn:E; [|discriminate].
    destruct (greedy_sound _ _ _ H) as (w & s1 & -> & Hw & Hk).
    exists s1, cs. split; [|exact Hk].
    apply (m_plus ci inp p (w := x :: w)); [discriminate | now constructor].
  - destruct (greedy_sound _ _ _ H) as (w & s1 & -> & Hw & Hk).
    exists s1, cs. split; [now constructor | exact Hk].
  - destruct (lazy_sound _ _ _ H) as (w & s1 & -> & Hw & Hk).
    exists s1, cs. split; [now constructor | exact Hk].
  - destruct (IH1 _ _ _ _ H) as (s1 & cs1 & M1 & H1).
    eexists s1, _. split; [now constructor | exact H1].
  - destruct (Nat.eqb (List.length s) (List.length inp)) eqn:E; [|discriminate].
    apply Nat.eqb_eq in E. exists s, cs. split; [now constructor | exact H].
  - destruct s; [|discriminate]. exists [], cs. split; [constructor | exact H].
Qed.

Lemma exec_at_sound ci r inp s s' cs :
  exec_at ci r inp s = Some (s', cs) -> matches ci inp r s s'.
Proof.
  unfold exec_at. intro H. apply run_sound in H.
  destruct H as (s1 & cs1 & M & E). now inversion E; subst.
Qed.

(** A pattern that starts with [^] matches at the start of the input or
    nowhere. *)
Lemma anchored_elsewhere ci r inp s :
  List.length s < List.length inp ->
  search ci (Cat Bol r) inp s = None.
Proof.
  induction s as [|c s IH]; intro H.
  - cbn [search exec_at run]. destruct inp; [cbn in H; lia | reflexivity].
  - cbn [search]. unfold exec_at at 1. cbn [run].
    destruct (Nat.eqb_spec (List.length (c :: s)) (List.length inp)) as [E|_]; [lia|].
    apply IH. cbn [List.length] in H. lia.
Qed.

Lemma search_anchored ci r inp :
  search ci (Cat Bol r) inp inp = exec_at ci (Cat Bol r) inp inp.
Proof.
  destruct inp as [|c s]; cbn [search].
  - destruct (exec_at ci (Cat Bol r) [] []); reflexivity.
  - destruct (exec_at ci (Cat Bol r) (c :: s) (c :: s)); [reflexivity|].
    apply anchored_elsewhere. cbn [List.length]. lia.
Qed.

Lemma test_anchored_sound ci r s :
  test ci (Cat Bol r) s = true -> exists s', matches ci s r s s'.
Proof.
  unfold test. rewrite search_anchored.
  destruct (exec_at ci (Cat Bol r) s s) as [[s' cs]|] eqn:E; [|discriminate].
  intros _. apply exec_at_sound in E. inversion E; subst.
  match goal with H : matches _ _ Bol _ _ |- _ => inversion H; subst end.
  eauto.
Qed.

Lemma match_anchored_sound ci r s cs :
  js_match ci (Cat Bol r) s = Some cs -> exists s', matches ci s r s s'.
Proof.
  unfold js_match. rewrite search_anchored.
  destruct (exec_at ci (Cat Bol r) s s) as [[s' cs']|] eqn:E; [|discriminate].
  intros _. apply exec_at_sound in E. inversion E; subst.
  match goal with H : matches _ _ Bol _ _ |- _ => inversion H; subst end.
  eauto.
Qed.

End RegexFacts.

(** ** Duration parsing *)

Module Duration.
Import JsNumber JsString Regex Utils Model StringFacts NumberFacts RegexFacts.

Lemma lit_not_digit x c :
  is_digit x = false -> is_digit c = true -> lit_eqb false x c = false.
Proof.
  intros Hx Hc. unfold lit_eqb. destruct (Ascii.eqb_spec x c); [congruence|reflexivity].
Qed.

Lemma firstn_consumed (a b : t) :
  firstn (List.length (a ++ b) - List.length b) (a ++ b) = a.
Proof.
  rewrite length_app, Nat.add_sub. 
  rewrite firstn_app, Nat.sub_diag, firstn_all. cbn. apply app_nil_r.
Qed.

Lemma firstn_consumed_eq (s a b : t) :
  s = a ++ b -> firstn (List.length s - List.length b) s = a.
Proof. intros ->. apply firstn_consumed. Qed.

Ltac reject_digit :=
  let Hd := fresh "Hd" in
  intros ? ? Hd;
  repeat (cbn [run];
          rewrite ?(lit_not_digit "." _ eq_refl Hd),
                  ?(lit_not_digit "h" _ eq_refl Hd),
                  ?(lit_not_digit "m" _ eq_refl Hd));
  reflexivity.

Lemma form_plain n : digits n -> test false re_plain_minutes n = true.
Proof.
  intros [Hne Hd]. unfold test, re_plain_minutes. rewrite search_anchored.
  unfold exec_at.
  destruct Hd as [|c n' Hc Hn']; [congruence|].
  cbn [run]. rewrite Nat.eqb_refl, Hc.
  rewrite greedy_longest by reject_digit.
  rewrite (@span_all is_digit n' Hn'). reflexivity.
Qed.

Ltac eval_lits :=
  repeat match goal with
    | |- context [lit_eqb ?ci (Ascii ?a0 ?a1 ?a2 ?a3 ?a4 ?a5 ?a6 ?a7)
                              (Ascii ?b0 ?b1 ?b2 ?b3 ?b4 ?b5 ?b6 ?b7)] =>
        let v := eval vm_compute in
                   (lit_eqb ci (Ascii a0 a1 a2 a3 a4 a5 a6 a7)
                               (Ascii b0 b1 b2 b3 b4 b5 b6 b7)) in
        change (lit_eqb ci (Ascii a0 a1 a2 a3 a4 a5 a6 a7)
                           (Ascii b0 b1 b2 b3 b4 b5 b6 b7)) with v
    end.

Ltac step := cbn [run snd app js list_ascii_of_string]; eval_lits; cbn [run snd].

Lemma form_minutes n :
  digits n ->
  test false re_plain_minutes (n ++ "m") = false /\
  js_match false re_decimal_hours (n ++ "m") = None /\
  js_match false re_hours_minutes (n ++ "m") = Some [(2, n)].
Proof.
  intros [Hne Hd].
  destruct Hd as [|c n' Hc Hn']; [congruence|].
  unfold test, js_match, re_plain_minutes, re_decimal_hours, re_hours_minutes.
  rewrite !search_anchored. unfold exec_at.
  repeat split.
  - step. rewrite Nat.eqb_refl, Hc.
    rewrite greedy_longest by reject_digit.
    rewrite (@span_app is_digit n' ["m"%char] Hn' eq_refl). step.
    reflexivity.
  - step. rewrite Nat.eqb_refl, Hc.
    rewrite greedy_longest by reject_digit.
    rewrite (@span_app is_digit n' ["m"%char] Hn' eq_refl). step.
    reflexivity.
  - step. rewrite Nat.eqb_refl, Hc.
    rewrite greedy_longest by reject_digit.
    rewrite (@span_app is_digit n' ["m"%char] Hn' eq_refl). step.
    rewrite greedy_longest by reject_digit.
    rewrite (@span_app is_digit n' ["m"%char] Hn' eq_refl). step.
    change (c :: n' ++ ["m"%char]) with ((c :: n') ++ ["m"%char]).
    rewrite firstn_consumed. reflexivity.
Qed.

Lemma decimal_value_whole n :
  Forall (fun c => is_digit c = true) n -> decimal_value n = inject_Z (digits_value n).
Proof.
  intro H. unfold decimal_value. now rewrite (@span_all is_digit n H).
Qed.

Lemma decimal_value_fraction a b :
  Forall (fun c => is_digit c = true) a ->
  Forall (fun c => is_digit c = true) b ->
  decimal_value (a ++ "." ++ b)
  = (inject_Z (digits_value a)
     + inject_Z (digits_value b) / inject_Z (10 ^ Z.of_nat (List.length b)))%Q.
Proof.
  intros Ha Hb. unfold decimal_value.
  cbn [js list_ascii_of_string app].
  rewrite (@span_app is_digit a ("."%char :: b) Ha eq_refl).
  change (code "."%char =? 46)%N with true. cbv iota.
  now rewrite (@span_all is_digit b Hb).
Qed.

Lemma form_hours n :
  digits n ->
  test false re_plain_minutes (n ++ "h") = false /\
  js_match false re_decimal_hours (n ++ "h") = Some [(1, n)].
Proof.
  intros [Hne Hd].
  destruct Hd as [|c n' Hc Hn']; [congruence|].
  unfold test, js_match, re_plain_minutes, re_decimal_hours.
  rewrite !search_anchored. unfold exec_at.
  split.
  - step. rewrite Nat.eqb_refl, Hc.
    rewrite greedy_longest by reject_digit.
    rewrite (@span_app is_digit n' ["h"%char] Hn' eq_refl). step.
    reflexivity.
  - step. rewrite Nat.eqb_refl, Hc.
    rewrite greedy_longest by reject_digit.
    rewrite (@span_app is_digit n' ["h"%char] Hn' eq_refl). step.
    change (c :: n' ++ ["h"%char]) with ((c :: n') ++ ["h"%char]).
    rewrite firstn_consumed. reflexivity.
Qed.

Lemma form_hours_minutes h m :
  digits h -> digits m ->
  test false re_plain_minutes (h ++ "h" ++ m ++ "m") = false /\
  js_match false re_decimal_hours (h ++ "h" ++ m ++ "m") = None /\
  js_match false re_hours_minutes (h ++ "h" ++ m ++ "m") = Some [(2, m); (1, h)].
Proof.
  intros [Hne Hd] [Hne2 Hd2].
  destruct Hd as [|c h' Hc Hh']; [congruence|].
  destruct Hd2 as [|c2 m' Hc2 Hm']; [congruence|].
  unfold test, js_match, re_plain_minutes, re_decimal_hours, re_hours_minutes.
  rewrite !search_anchored. unfold exec_at.
  repeat split.
  - step. rewrite Nat.eqb_refl, Hc.
    rewrite greedy_longest by reject_digit.
    rewrite (@span_app is_digit h' ("h"%char :: c2 :: m' ++ ["m"%char]) Hh' eq_refl).
    step. reflexivity.
  - step. rewrite Nat.eqb_refl, Hc.
    rewrite greedy_longest by reject_digit.
    rewrite (@span_app is_digit h' ("h"%char :: c2 :: m' ++ ["m"%char]) Hh' eq_refl).
    step. reflexivity.
  - step. rewrite Nat.eqb_refl, Hc.
    rewrite greedy_longest by reject_digit.
    rewrite (@span_app is_digit h' ("h"%char :: c2 :: m' ++ ["m"%char]) Hh' eq_refl).
    step. rewrite Hc2.
    rewrite greedy_longest by reject_digit.
    rewrite (@span_app is_digit m' ["m"%char] Hm' eq_refl). step.
    change (c2 :: m' ++ ["m"%char]) with ((c2 :: m') ++ ["m"%char]).
    rewrite firstn_consumed.
    change (c :: h' ++ "h"%char :: (c2 :: m') ++ ["m"%char])
      with ((c :: h') ++ ("h"%char :: (c2 :: m') ++ ["m"%char])).
    rewrite firstn_consumed. reflexivity.
Qed.

Lemma form_decimal a b :
  digits a -> digits b ->
  test false re_plain_minutes (a ++ "." ++ b ++ "h") = false /\
  js_match false re_decimal_hours (a ++ "." ++ b ++ "h") = Some [(1, a ++ "." ++ b)].
Proof.
  intros [Hne Hd] [Hne2 Hd2].
  destruct Hd as [|c a' Hc Ha']; [congruence|].
  destruct Hd2 as [|c2 b' Hc2 Hb']; [congruence|].
  unfold test, js_match, re_plain_minutes, re_decimal_hours.
  rewrite !search_anchored. unfold exec_at.
  split.
  - step. rewrite Nat.eqb_refl, Hc.
    rewrite greedy_longest by reject_digit.
    rewrite (@span_app is_digit a' ("."%char :: c2 :: b' ++ ["h"%char]) Ha' eq_refl).
    step. reflexivity.
  - step. rewrite Nat.eqb_refl, Hc.
    rewrite greedy_longest by reject_digit.
    rewrite (@span_app is_digit a' ("."%char :: c2 :: b' ++ ["h"%char]) Ha' eq_refl).
    step. rewrite Hc2.
    rewrite greedy_longest by reject_digit.
    rewrite (@span_app is_digit b' ["h"%char] Hb' eq_refl). step.
    rewrite (@firstn_consumed_eq _ (c :: a' ++ "."%char :: c2 :: b') ["h"%char])
      by (cbn [app]; now rewrite <- app_assoc).
    reflexivity.
Qed.

Ltac inv_matches :=
  repeat match goal with
    | H : matches _ _ (Cat _ _) _ _ |- _ => inversion H; clear H; subst
    | H : matches _ _ (Grp _ _) _ _ |- _ => inversion H; clear H; subst
    | H : matches _ _ (Opt _) _ _ |- _ => inversion H; clear H; subst
    | H : matches _ _ (Plus _) _ _ |- _ => inversion H; clear H; subst
    | H : matches _ _ (Lit _) _ _ |- _ => inversion H; clear H; subst
    | H : matches _ _ Eol _ _ |- _ => inversion H; clear H; subst
    | H : lit_eqb false _ _ = true |- _ => apply Ascii.eqb_eq in H; subst
    end.

Ltac found := rewrite ?app_nil_r; solve [econstructor; split; eassumption | apply rec_nothing].

Lemma sound_plain s : test false re_plain_minutes s = true -> recognized s.
Proof.
  unfold re_plain_minutes. intro H. apply test_anchored_sound in H.
  destruct H as [s' H]. inv_matches; found.
Qed.

Lemma sound_decimal s cs :
  js_match false re_decimal_hours s = Some cs -> recognized s.
Proof.
  unfold re_decimal_hours. intro H. apply match_anchored_sound in H.
  destruct H as [s' H]. inv_matches; found.
Qed.

Lemma sound_hours_minutes s cs :
  js_match false re_hours_minutes s = Some cs -> recognized s.
Proof.
  unfold re_hours_minutes. intro H. apply match_anchored_sound in H.
  destruct H as [s' H]. inv_matches; found.
Qed.

Lemma sound_minutes s cs :
  js_match false re_minutes s = Some cs -> recognized s.
Proof.
  unfold re_minutes. intro H. apply match_anchored_sound in H.
  destruct H as [s' H]. inv_matches; found.
Qed.

Lemma sound_hours s cs :
  js_match false re_hours s = Some cs -> recognized s.
Proof.
  unfold re_hours. intro H. apply match_anchored_sound in H.
  destruct H as [s' H]. inv_matches; found.
Qed.

Lemma match_group_none i m : m = None -> match_group i m = None.
Proof. now intros ->. Qed.

Lemma unrecognized_throws s :
  ~ recognized (trim (toLowerCase s)) ->
  parseDuration s = Thrown (invalid_duration_message s).
Proof.
  intro H. unfold parseDuration.
  destruct (test false re_plain_minutes (trim (toLowerCase s))) eqn:E1;
    [elim H; now apply sound_plain|].
  destruct (js_match false re_decimal_hours (trim (toLowerCase s))) eqn:E2;
    [elim H; eapply sound_decimal; eassumption|].
  destruct (js_match false re_hours_minutes (trim (toLowerCase s))) eqn:E3;
    [elim H; eapply sound_hours_minutes; eassumption|].
  destruct (js_match false re_minutes (trim (toLowerCase s))) eqn:E4;
    [elim H; eapply sound_minutes; eassumption|].
  destruct (js_match false re_hours (trim (toLowerCase s))) eqn:E5;
    [elim H; eapply sound_hours; eassumption|].
  reflexivity.
Qed.

Lemma form_decimal_bare a b :
  digits a -> digits b ->
  test false re_plain_minutes (a ++ "." ++ b) = false /\
  js_match false re_decimal_hours (a ++ "." ++ b) = Some [(1, a ++ "." ++ b)].
Proof.
  intros [Hne Hd] [Hne2 Hd2].
  destruct Hd as [|c a' Hc Ha']; [congruence|].
  destruct Hd2 as [|c2 b' Hc2 Hb']; [congruence|].
  unfold test, js_match, re_plain_minutes, re_decimal_hours.
  rewrite !search_anchored. unfold exec_at.
  split.
  - step. rewrite Nat.eqb_refl, Hc.
    rewrite greedy_longest by reject_digit.
    rewrite (@span_app is_digit a' ("."%char :: c2 :: b') Ha' eq_refl).
    step. reflexivity.
  - step. rewrite Nat.eqb_refl, Hc.
    rewrite greedy_longest by reject_digit.
    rewrite (@span_app is_digit a' ("."%char :: c2 :: b') Ha' eq_refl).
    step. rewrite Hc2.
    rewrite greedy_longest by reject_digit.
    rewrite (@span_all is_digit b' Hb'). step.
    rewrite Nat.sub_0_r, firstn_all. reflexivity.
Qed.

Section Normalized.
Variable s : t.
Local Abbreviation nd := (trim (toLowerCase s)).

Lemma parse_plain : digits nd -> parseDuration s = Returned (parseInt nd).
Proof.
  intro H. unfold parseDuration. now rewrite (form_plain H).
Qed.

Lemma parse_minutes n :
  nd = n ++ "m" -> digits n ->
  parseDuration s = Returned (add (whole 0) (parseInt n)).
Proof.
  intros E H. unfold parseDuration. rewrite E.
  destruct (form_minutes H) as (-> & -> & ->).
  destruct H as [Hne _]. destruct n; [congruence|]. reflexivity.
Qed.

Lemma parse_hours n :
  nd = n ++ "h" -> digits n ->
  parseDuration s = Returned (Math_round (multiply (parseInt n) (whole 60))).
Proof.
  intros E H. unfold parseDuration. rewrite E.
  destruct (form_hours H) as (-> & ->).
  destruct H as [Hne Hd]. cbn [match_group group Nat.eqb].
  destruct n as [|c n']; [congruence|]. cbn [truthy].
  unfold parseFloat, parseInt. now rewrite (decimal_value_whole Hd).
Qed.

Lemma parse_hours_minutes h m :
  nd = h ++ "h" ++ m ++ "m" -> digits h -> digits m ->
  parseDuration s
  = Returned (add (multiply (parseInt h) (whole 60)) (parseInt m)).
Proof.
  intros E Hh Hm. unfold parseDuration. rewrite E.
  destruct (form_hours_minutes Hh Hm) as (-> & -> & ->).
  destruct Hh as [Hh _], Hm as [Hm _].
  destruct h; [congruence|]. destruct m; [congruence|]. reflexivity.
Qed.

Lemma parse_decimal_hours a b :
  nd = a ++ "." ++ b ++ "h" -> digits a -> digits b ->
  parseDuration s
  = Returned (Math_round (multiply (parseFloat (a ++ "." ++ b)) (whole 60))).
Proof.
  intros E Ha Hb. unfold parseDuration. rewrite E.
  destruct (form_decimal Ha Hb) as (-> & ->).
  destruct Ha as [Hne Ha]. cbn [match_group group Nat.eqb].
  destruct a; [congruence|]. reflexivity.
Qed.

Lemma parse_decimal_bare a b :
  nd = a ++ "." ++ b -> digits a -> digits b ->
  parseDuration s
  = Returned (Math_round (multiply (parseFloat (a ++ "." ++ b)) (whole 60))).
Proof.
  intros E Ha Hb. unfold parseDuration. rewrite E.
  destruct (form_decimal_bare Ha Hb) as (-> & ->).
  destruct Ha as [Hne Ha]. cbn [match_group group Nat.eqb].
  destruct a; [congruence|]. reflexivity.
Qed.

End Normalized.


(** C10. For the empty string, and for any input made of whitespace only,
    [parseDuration] returns 0 minutes instead of failing: the trimmed input
    is empty and the hours-and-minutes pattern, both of whose parts are
    optional, matches it. *)
Theorem parseDuration_blank (s : t) :
  Forall (fun c => is_space c = true) s ->
  parseDuration s = Returned (whole 0)
  /\ js_match false re_hours_minutes (trim (toLowerCase s)) = Some []
  /\ parseDuration [] = Returned (whole 0).
Proof.
  intro H. unfold parseDuration. rewrite (normalize_blank H).
  repeat split; vm_compute; reflexivity.
Qed.

Lemma parseDuration_blank_witness :
  parseDuration (js "   ") = Returned (whole 0).
Proof.
  apply (@parseDuration_blank (js "   ")).
  repeat constructor.
Defined.

Lemma digits_forms_plain n :
  digits n ->
  Forall plain n /\ Forall plain (n ++ "m") /\ Forall plain (n ++ "h").
Proof.
  intros [_ H]. pose proof (digits_plain H) as Hp.
  repeat split; try exact Hp; apply Forall_app; split; try exact Hp;
    repeat constructor; vm_compute; reflexivity.
Qed.

Lemma digits_value_acc_nonneg n : forall acc,
  Forall (fun c => is_digit c = true) n -> (0 <= acc)%Z ->
  (0 <= fold_left (fun a c => 10 * a + digit_val c)%Z n acc)%Z.
Proof.
  induction n as [|c r IH]; intros acc H Ha; [exact Ha|].
  inversion H as [|? ? Hc Hr]; subst. cbn [fold_left]. apply IH; [exact Hr|].
  assert (0 <= digit_val c)%Z.
  { unfold digit_val. revert Hc. unfold is_digit, in_range.
    destruct (N.leb_spec 48 (code c)); [|discriminate]. intros _. lia. }
  lia.
Qed.

Lemma digits_value_nonneg n : digits n -> (0 <= digits_value n)%Z.
Proof. intros [_ H]. apply digits_value_acc_nonneg; [exact H | lia]. Qed.

Lemma parseInt_exact n :
  digits n -> (digits_value n < 2 ^ 53)%Z -> parseInt n = whole (digits_value n).
Proof.
  intros H B. unfold parseInt. apply nearest_whole; [apply Qeq_refl|].
  split; [now apply digits_value_nonneg | exact B].
Qed.




End Duration.

(** ** Sanitisation *)

Module Sanitize.
Import JsString Regex Utils Security Model StringFacts.

Lemma remove_class_filter p fuel : forall inp s,
  List.length s < fuel ->
  remove_all fuel false (Class p) inp s = filter (fun c => negb (p c)) s.
Proof.
  induction fuel as [|fuel IH]; intros inp s H; [lia|].
  destruct s as [|c r]; [reflexivity|].
  cbn [remove_all exec_at run filter]. unfold exec_at. cbn [run].
  cbn [List.length] in H.
  destruct (p c); cbn [negb].
  - assert (E : Nat.ltb (List.length r) (List.length (c :: r)) = true)
      by (apply Nat.ltb_lt; cbn [List.length]; lia).
    rewrite E. apply IH. lia.
  - f_equal. apply IH. lia.
Qed.

(** Removing every match of a one-character class is filtering. *)
Lemma replace_class p s :
  replace_all_empty false (Class p) s = filter (fun c => negb (p c)) s.
Proof. unfold replace_all_empty. apply remove_class_filter. lia. Qed.

Lemma drop_space_suffix s : exists pre, s = pre ++ drop_space s.
Proof.
  induction s as [|c r [pre IH]]; [now exists []|].
  cbn [drop_space]. destruct (is_space c).
  - exists (c :: pre). cbn [app]. now rewrite <- IH.
  - now exists [].
Qed.

Lemma drop_space_solid s : starts_solid (drop_space s).
Proof.
  induction s as [|c r IH]; [exact I|].
  cbn [drop_space]. destruct (is_space c) eqn:E; [exact IH | exact E].
Qed.

Lemma drop_space_fixed s : starts_solid s -> drop_space s = s.
Proof. destruct s as [|c r]; [reflexivity|]. cbn. now intros ->. Qed.

Lemma trim_prefix s : exists post, drop_space s = trim s ++ post.
Proof.
  unfold trim. destruct (drop_space_suffix (rev (drop_space s))) as [pre E].
  exists (rev pre). rewrite <- rev_app_distr, <- E. symmetry. apply rev_involutive.
Qed.

(** [trim] leaves a trimmed text alone. *)
Lemma trim_trim s : trim (trim s) = trim s.
Proof.
  destruct (trim_prefix s) as [post E].
  assert (S1 : starts_solid (trim s)).
  { pose proof (drop_space_solid s) as H. rewrite E in H.
    destruct (trim s); [exact I | exact H]. }
  unfold trim at 1. rewrite (@drop_space_fixed _ S1).
  unfold trim. rewrite rev_involutive.
  now rewrite (@drop_space_fixed _ (drop_space_solid _)).
Qed.

Lemma Forall_drop_space (P : ascii -> Prop) s : Forall P s -> Forall P (drop_space s).
Proof.
  intro H. destruct (drop_space_suffix s) as [pre E]. rewrite E in H.
  now apply Forall_app in H.
Qed.

Lemma Forall_trim (P : ascii -> Prop) s : Forall P s -> Forall P (trim s).
Proof.
  intro H. unfold trim. apply Forall_rev, Forall_drop_space, Forall_rev.
  now apply Forall_drop_space.
Qed.

Lemma filter_all (f : ascii -> bool) s :
  Forall (fun c => f c = true) s -> filter f s = s.
Proof.
  induction 1 as [|c r Hc _ IH]; [reflexivity|]. cbn [filter]. now rewrite Hc, IH.
Qed.

Lemma Forall_filter_keeps (f g : ascii -> bool) s :
  Forall (fun c => f c = true) s -> Forall (fun c => f c = true) (filter g s).
Proof.
  induction 1 as [|c r Hc _ IH]; [constructor|].
  cbn [filter]. destruct (g c); [now constructor | exact IH].
Qed.

Lemma Forall_filter (f : ascii -> bool) s : Forall (fun c => f c = true) (filter f s).
Proof.
  induction s as [|c r IH]; [constructor|].
  cbn [filter]. destruct (f c) eqn:E; [now constructor | exact IH].
Qed.

(** The cleaning step of [securelyProcessInput] strips first and trims last,
    and cleaning twice is cleaning once. *)
Lemma clean_clean x : clean (clean x) = clean x.
Proof.
  unfold clean. rewrite !replace_class.
  set (y := filter (fun c => negb (is_control c)) (filter (fun c => negb (is_nul c)) x)).
  assert (Hn : Forall (fun c => negb (is_nul c) = true) (trim y)).
  { apply Forall_trim. unfold y. apply Forall_filter_keeps, Forall_filter. }
  assert (Hc : Forall (fun c => negb (is_control c) = true) (trim y)).
  { apply Forall_trim. unfold y. apply Forall_filter. }
  rewrite (@filter_all _ _ Hn), (@filter_all _ _ Hc). apply trim_trim.
Qed.

(** A text that passes the blocklist leaves every [lastIndex] at 0. *)
Lemma check_patterns_pass ps : forall st s st',
  List.length st = List.length ps ->
  check_patterns ps st s = (true, st') ->
  st' = map (fun _ => 0) ps.
Proof.
  induction ps as [|p ps IH]; intros st s st' Hl H.
  - destruct st; [|discriminate]. cbn in H. now inversion H.
  - destruct st as [|i st]; [discriminate|]. cbn [check_patterns] in H.
    destruct (test_global true p s i) as [hit i'] eqn:E.
    destruct hit; [discriminate|].
    destruct (check_patterns ps st s) as [ok st''] eqn:E2.
    inversion H; subst. cbn [map]. f_equal.
    + unfold test_global in E.
      destruct (Nat.ltb (List.length s) i); [now inversion E|].
      destruct (search true p s (skipn i s)) as [[rest cs]|]; now inversion E.
    + eapply IH; [|exact E2]. now inversion Hl.
Qed.

(** On freshly loaded patterns, what [securelyProcessInput] returns it
    returns again when given its own result. *)
Lemma securelyProcessInput_again input maxLength cleaned st :
  securelyProcessInput input maxLength fresh = (Returned cleaned, st) ->
  st = fresh /\ securelyProcessInput cleaned maxLength st = (Returned cleaned, st).
Proof.
  intro H.
  unfold securelyProcessInput, validateSecureInput in H.
  destruct (Nat.ltb maxLength (List.length (clean input))) eqn:E; [discriminate|].
  destruct (check_patterns DANGEROUS_PATTERNS fresh (clean input)) as [ok st'] eqn:E2.
  destruct ok; [|discriminate]. cbn [negb] in H.
  inversion H; subst cleaned st'. clear H.
  assert (Hst : st = fresh).
  { apply (@check_patterns_pass DANGEROUS_PATTERNS fresh (clean input) st);
      [reflexivity | exact E2]. }
  subst st. split; [reflexivity|].
  unfold securelyProcessInput, validateSecureInput.
  rewrite clean_clean, E, E2. cbn [negb]. reflexivity.
Qed.

(** C5. Sanitisation is not idempotent. [sanitizeInput] trims before it
    removes the markup characters, so a blank that follows a removed
    character ends up at the front of the result, and a second pass trims it
    away: the input of a less-than sign, a blank and a letter gives a blank
    and a letter first, the letter alone next. [securelyProcessInput] is not
    idempotent either once it has rejected a text: the call after the
    rejection returns the text, and the call on that result rejects it. *)
Theorem sanitizeInput_twice_differs :
  sanitizeInput "< a" = js " a" /\
  sanitizeInput (sanitizeInput "< a") = js "a" /\
  sanitizeInput (sanitizeInput "< a") <> sanitizeInput "< a" /\
  (let st1 := snd (securelyProcessInput "javascript:" MAX_DESCRIPTION_LENGTH fresh) in
   securelyProcessInput "javascript:" MAX_DESCRIPTION_LENGTH st1
   = (Returned (js "javascript:"), fresh) /\
   fst (securelyProcessInput "javascript:" MAX_DESCRIPTION_LENGTH fresh)
   = Thrown dangerous_message).
Proof.
  assert (E1 : sanitizeInput "< a" = js " a") by (vm_compute; reflexivity).
  assert (E2 : sanitizeInput (sanitizeInput "< a") = js "a") by (vm_compute; reflexivity).
  split; [exact E1|]. split; [exact E2|]. split.
  - rewrite E2, E1. discriminate.
  - split; vm_compute; reflexivity.
Qed.

(** With every [lastIndex] at 0 the loop over the blocklist succeeds exactly
    when no pattern occurs in the text. *)
Lemma check_patterns_fresh ps s :
  fst (check_patterns ps (map (fun _ => 0) ps) s)
  = negb (existsb (fun p => test true p s) ps).
Proof.
  induction ps as [|p ps IH]; [reflexivity|].
  cbn [check_patterns map existsb].
  unfold test_global, test. cbn [Nat.ltb Nat.leb skipn].
  destruct (search true p s s) as [[rest cs]|]; [reflexivity|].
  cbn [orb].
  destruct (check_patterns ps (map (fun _ => 0) ps) s) as [ok st].
  exact IH.
Qed.

(** On freshly loaded patterns [securelyProcessInput] does what the
    contract says: it rejects a cleaned text that is too long or contains a
    blocklisted pattern, and returns any other cleaned text as it is. *)
Lemma securelyProcessInput_first_call input maxLength :
  fst (securelyProcessInput input maxLength fresh)
  = if Nat.ltb maxLength (List.length (clean input))
       || existsb (fun p => test true p (clean input)) DANGEROUS_PATTERNS
    then Thrown dangerous_message
    else Returned (clean input).
Proof.
  unfold securelyProcessInput, validateSecureInput.
  destruct (Nat.ltb maxLength (List.length (clean input))) eqn:E; [reflexivity|].
  cbn [orb].
  pose proof (check_patterns_fresh DANGEROUS_PATTERNS (clean input)) as H.
  fold fresh in H.
  destruct (check_patterns DANGEROUS_PATTERNS fresh (clean input)) as [ok st].
  cbn [fst] in H. subst ok.
  destruct (existsb (fun p => test true p (clean input)) DANGEROUS_PATTERNS);
    cbn [negb fst]; reflexivity.
Qed.

(** C6. [securelyProcessInput] does not reject every text that matches the
    blocklist: the shared pattern objects remember where their last match
    ended, so the same blocklisted text is rejected by one call and
    returned unchanged by the next. *)
Theorem blocklist_rejects_every_other_call :
  existsb (fun p => test true p (clean "javascript:alert(1)")) DANGEROUS_PATTERNS = true /\
  fst (securelyProcessInput "javascript:alert(1)" MAX_DESCRIPTION_LENGTH fresh)
  = Thrown dangerous_message /\
  twice "javascript:alert(1)" "javascript:alert(1)"
  = (Thrown dangerous_message, Returned (js "javascript:alert(1)"), fresh) /\
  sanitizeInput "onclick=run()" = js "onclick=run()".
Proof.
  repeat split; vm_compute; reflexivity.
Qed.

End Sanitize.

(** * Further properties *)

(** ** Durations as text *)

Module DurationText.
Import JsNumber JsString Regex Utils Model StringFacts NumberFacts RegexFacts Duration Sanitize.

Lemma uint_text_digits d : Forall (fun c => is_digit c = true) (uint_text d).
Proof.
  unfold uint_text, js.
  induction d; cbn [NilEmpty.string_of_uint list_ascii_of_string];
    try constructor; try assumption; reflexivity.
Qed.

Lemma parseInt_acc d : forall acc,
  fold_left (fun a c => 10 * a + digit_val c)%Z (uint_text d) (Z.of_nat acc)
  = Z.of_nat (Nat.of_uint_acc d acc).
Proof.
  unfold uint_text, js.
  induction d; intro acc;
    cbn [NilEmpty.string_of_uint list_ascii_of_string fold_left Nat.of_uint_acc];
    try reflexivity;
    rewrite <- IHd; f_equal; rewrite ?Nat.tail_mul_spec;
    unfold digit_val, code; cbn [N_of_ascii N_of_digits]; lia.
Qed.

Lemma parseInt_show n : digits_value (uint_text (Nat.to_uint n)) = Z.of_nat n.
Proof.
  unfold digits_value. change 0%Z with (Z.of_nat 0).
  rewrite parseInt_acc. f_equal. apply (DecimalNat.Unsigned.of_to n).
Qed.

Lemma to_uint_nonnil n : uint_text (Nat.to_uint n) <> [].
Proof.
  intro H. pose proof (parseInt_show n) as P.
  destruct n as [|n].
  - vm_compute in H. discriminate.
  - rewrite H in P. cbn in P. lia.
Qed.

Lemma show_int_digits z : (0 <= z)%Z -> digits (show_int z) /\ digits_value (show_int z) = z.
Proof.
  intro H. unfold show_int. destruct (Z.ltb_spec z 0); [lia|].
  fold (uint_text (Nat.to_uint (Z.to_nat z))).
  split; [split; [apply to_uint_nonnil | apply uint_text_digits]|].
  rewrite parseInt_show. lia.
Qed.

Lemma normalize_inner s :
  Forall (fun c => lower_char c = c) s ->
  starts_solid s -> starts_solid (rev s) ->
  trim (toLowerCase s) = s.
Proof.
  intros Hl. unfold toLowerCase.
  assert (E : map lower_char s = s).
  { induction Hl as [|c r Hc _ IH]; [reflexivity|]. cbn [map]. now rewrite Hc, IH. }
  intros H1 H2. rewrite E. unfold trim.
  rewrite (@drop_space_fixed s H1), (@drop_space_fixed (rev s) H2).
  apply rev_involutive.
Qed.

Lemma digits_duration_chars n :
  digits n -> Forall (fun c => duration_char c = true) n.
Proof.
  intros [_ H]. eapply Forall_impl; [|exact H].
  intros c Hc. unfold duration_char. now rewrite Hc.
Qed.

Lemma recognized_chars s : recognized s -> Forall (fun c => duration_char c = true) s.
Proof.
  destruct 1; repeat (apply Forall_app; split);
    try (now apply digits_duration_chars);
    repeat constructor.
Qed.

Lemma unrecognized_char s c :
  In c s -> duration_char c = false -> ~ recognized s.
Proof.
  intros Hin Hc R. apply recognized_chars in R.
  rewrite Forall_forall in R. specialize (R c Hin). congruence.
Qed.

Lemma digits_lower n : digits n -> Forall (fun c => lower_char c = c) n.
Proof.
  intros [_ H]. eapply Forall_impl; [|exact H]. exact digit_lower.
Qed.

Lemma digits_solid n : digits n -> starts_solid n.
Proof.
  intros [Hne H]. destruct H as [|c r Hc _]; [congruence|].
  cbn. now apply digit_not_space.
Qed.

Lemma less_than_whole a b : less_than (whole a) (whole b) = (a <? b)%Z.
Proof.
  unfold less_than, whole, Qcompare, inject_Z. cbn [Qnum Qden].
  rewrite !Z.mul_1_r. unfold Z.ltb. destruct (a ?= b)%Z; reflexivity.
Qed.

Lemma show_whole z :
  (Z.abs z < 2 ^ 53)%Z -> show_number (whole z) = Some (show_int z).
Proof.
  intro H. unfold show_number, whole, inject_Z. cbn [Qnum Qden].
  apply Z.ltb_lt in H. rewrite H. reflexivity.
Qed.

Lemma is_zero_whole z : is_zero (whole z) = (z =? 0)%Z.
Proof. destruct z; reflexivity. Qed.

Lemma remainder_whole z c :
  (0 < c)%Z -> remainder_by (whole z) c = whole (Z.rem z c).
Proof.
  intro Hc. unfold remainder_by, whole. f_equal.
  transitivity (Qred (inject_Z (Z.rem z c))); [|apply Qred_whole].
  apply Qred_complete. cbn [inject_Z Qnum Qden].
  change (Z.pos 1 * c)%Z with (1 * c)%Z. rewrite Z.mul_1_l.
  unfold Qminus. rewrite <- inject_Z_opp.
  change (z # 1)%Q with (inject_Z z). rewrite <- inject_Z_plus.
  pose proof (Z.quot_rem' z c). replace (Z.rem z c) with (z + - (c * Z.quot z c))%Z by lia.
  apply Qeq_refl.
Qed.

Lemma divide_whole z c :
  (0 < c)%Z -> (0 <= z < 2 ^ 53)%Z -> divide_by (whole (c * z)) c = whole z.
Proof.
  intros Hc Hz. unfold divide_by, whole. apply nearest_whole; [|exact Hz].
  unfold Qeq, Qdiv, Qmult, Qinv, inject_Z. cbn [Qnum Qden].
  destruct c as [|p|p]; try lia. cbn [Qnum Qden]. nia.
Qed.

Lemma Math_floor_whole z : Math_floor (whole z) = whole z.
Proof. unfold Math_floor, whole. now rewrite Qfloor_Z. Qed.

Lemma minutes_text_read m :
  (0 <= m < 2 ^ 53)%Z ->
  parseDuration (show_int m ++ "m") = Returned (whole m).
Proof.
  intros [H0 H1]. destruct (@show_int_digits m H0) as [D P].
  rewrite (@parse_minutes (show_int m ++ "m") (show_int m));
    [|apply normalize_plain; now apply digits_forms_plain | exact D].
  rewrite parseInt_exact by (exact D || (rewrite P; exact H1)).
  rewrite P. rewrite add_whole by lia. reflexivity.
Qed.

Lemma hours_text_read h :
  (0 <= h)%Z -> (60 * h < 2 ^ 53)%Z ->
  parseDuration (show_int h ++ "h") = Returned (whole (60 * h)).
Proof.
  intros H0 H1. destruct (@show_int_digits h H0) as [D P].
  rewrite (@parse_hours (show_int h ++ "h") (show_int h));
    [|apply normalize_plain; now apply digits_forms_plain | exact D].
  rewrite parseInt_exact by (exact D || (rewrite P; lia)).
  rewrite P. rewrite multiply_whole by lia. rewrite Math_round_whole.
  now rewrite Z.mul_comm.
Qed.

Lemma two_part_text_rejected hours minutes :
  (0 <= hours)%Z -> (0 <= minutes)%Z ->
  parseDuration (show_int hours ++ "h " ++ show_int minutes ++ "m")
  = Thrown (invalid_duration_message (show_int hours ++ "h " ++ show_int minutes ++ "m")).
Proof.
  intros Hq Hrem. apply unrecognized_throws.
  destruct (@show_int_digits hours Hq) as [DH _].
  destruct (@show_int_digits minutes Hrem) as [DR _].
  set (HH := show_int hours) in *. set (RR := show_int minutes) in *.
  rewrite normalize_inner.
  - apply (@unrecognized_char _ " "%char); [|reflexivity].
    apply in_or_app. right. cbn. auto.
  - apply Forall_app. split; [now apply digits_lower|].
    cbn [js list_ascii_of_string app]. constructor; [reflexivity|].
    constructor; [reflexivity|].
    apply Forall_app. split; [now apply digits_lower|].
    repeat constructor.
  - pose proof (digits_solid DH) as S. destruct DH as [Hne _].
    destruct HH; [congruence|]. exact S.
  - rewrite !rev_app_distr. reflexivity.
Qed.

Lemma negative_text_rejected m :
  (m < 0)%Z ->
  parseDuration (show_int m ++ "m")
  = Thrown (invalid_duration_message (show_int m ++ "m")).
Proof.
  intros Hm. apply unrecognized_throws.
  unfold show_int. destruct (Z.ltb_spec m 0); [|lia].
  fold (uint_text (Nat.to_uint (Z.to_nat (- m)))).
  set (N := uint_text (Nat.to_uint (Z.to_nat (- m)))).
  assert (DN : digits N) by (split; [apply to_uint_nonnil | apply uint_text_digits]).
  rewrite normalize_plain.
  - apply (@unrecognized_char _ "-"%char); [|reflexivity]. cbn. auto.
  - apply Forall_app. split; [|repeat constructor].
    constructor; [split; reflexivity|].
    apply digits_forms_plain. exact DN.
Qed.

(** X1. What [formatDuration] prints, [parseDuration] reads back for less
    than an hour and for whole hours, and rejects for hours with minutes,
    on whole numbers of minutes below 2^53 in size.  Below an hour the text
    is the minutes and [m] and reads back as the same number; for h whole
    hours, h at least 1 and 60 h below 2^53, the text is h and [h] and reads
    back as 60 h; from an hour on with minutes left over the text is the
    whole hours, [h], a space, the minutes left and [m], which
    [parseDuration] refuses because of the space; a negative number prints
    with its sign, which [parseDuration] refuses too. *)
Theorem formatDuration_parses_back :
  (forall m, (0 <= m < 60)%Z ->
     formatDuration (whole m) = Some (show_int m ++ "m") /\
     parseDuration (show_int m ++ "m") = Returned (whole m)) /\
  (forall h, (1 <= h)%Z -> (60 * h < 2 ^ 53)%Z ->
     formatDuration (whole (60 * h)) = Some (show_int h ++ "h") /\
     parseDuration (show_int h ++ "h") = Returned (whole (60 * h))) /\
  (forall m, (60 <= m < 2 ^ 53)%Z -> Z.rem m 60 <> 0%Z ->
     formatDuration (whole m)
     = Some (show_int (m / 60) ++ "h " ++ show_int (Z.rem m 60) ++ "m") /\
     parseDuration (show_int (m / 60) ++ "h " ++ show_int (Z.rem m 60) ++ "m")
     = Thrown (invalid_duration_message
                 (show_int (m / 60) ++ "h " ++ show_int (Z.rem m 60) ++ "m"))) /\
  (forall m, (- 2 ^ 53 < m < 0)%Z ->
     formatDuration (whole m) = Some (show_int m ++ "m") /\
     parseDuration (show_int m ++ "m")
     = Thrown (invalid_duration_message (show_int m ++ "m"))).
Proof.
  assert (P6 : (60 < 2 ^ 53)%Z) by (vm_compute; reflexivity).
  split; [|split; [|split]].
  - intros m Hm. split.
    + unfold formatDuration. rewrite less_than_whole.
      destruct (Z.ltb_spec m 60); [|lia].
      rewrite show_whole by lia. reflexivity.
    + apply minutes_text_read. lia.
  - intros h Hh Hb. split.
    + unfold formatDuration. rewrite less_than_whole.
      destruct (Z.ltb_spec (60 * h) 60); [lia|].
      rewrite divide_whole by lia. rewrite Math_floor_whole.
      rewrite remainder_whole by lia. rewrite is_zero_whole.
      assert (Er : Z.rem (60 * h) 60 = 0%Z) by (rewrite Z.mul_comm; apply Z.rem_mul; lia).
      rewrite Er. cbn [Z.eqb]. rewrite show_whole by lia. reflexivity.
    + apply hours_text_read; lia.
  - intros m Hm Hr.
    assert (Hrem : (0 <= Z.rem m 60 < 60)%Z) by (apply Z.rem_bound_pos; lia).
    assert (Hq : (0 <= m / 60 <= m)%Z).
    { split; [apply Z.div_pos; lia|]. apply Z.div_le_upper_bound; lia. }
    split.
    + unfold formatDuration. rewrite less_than_whole.
      destruct (Z.ltb_spec m 60); [lia|].
      rewrite hours_whole by lia. rewrite remainder_whole by lia. rewrite is_zero_whole.
      destruct (Z.eqb_spec (Z.rem m 60) 0); [contradiction|].
      rewrite !show_whole by lia. reflexivity.
    + apply two_part_text_rejected; lia.
  - intros m Hm. split.
    + unfold formatDuration. rewrite less_than_whole.
      destruct (Z.ltb_spec m 60); [|lia].
      rewrite show_whole by lia. reflexivity.
    + apply negative_text_rejected. lia.
Qed.

Lemma formatDuration_parses_back_witness :
  (formatDuration (whole 45) = Some (js "45m") /\
   parseDuration "45m" = Returned (whole 45)) /\
  (formatDuration (whole 120) = Some (js "2h") /\
   parseDuration "2h" = Returned (whole 120)) /\
  (formatDuration (whole 90) = Some (js "1h 30m") /\
   parseDuration "1h 30m" = Thrown (invalid_duration_message "1h 30m")).
Proof.
  destruct formatDuration_parses_back as (H1 & H2 & H3 & _).
  split; [apply (H1 45%Z); lia|].
  split; [apply (H2 2%Z); [lia | vm_compute; reflexivity]|].
  apply (H3 90%Z); [split; [lia | vm_compute; reflexivity] | vm_compute; discriminate].
Defined.

Lemma nonnegative_nearest q : (0 <= q)%Q -> nonnegative (nearest q).
Proof.
  intro H. pose proof (nearest_nonneg H) as N. unfold nonnegative.
  destruct (nearest q); exact N.
Qed.

Lemma nonnegative_parseInt n : digits n -> nonnegative (parseInt n).
Proof.
  intro H. unfold parseInt. apply nonnegative_nearest.
  change 0%Q with (inject_Z 0). rewrite <- Zle_Qle. now apply digits_value_nonneg.
Qed.

Lemma nonnegative_times_sixty x : nonnegative x -> nonnegative (multiply x (whole 60)).
Proof.
  destruct x as [q|[|]|]; cbn [nonnegative]; intro H; try discriminate H; try contradiction.
  - unfold multiply, whole. apply nonnegative_nearest.
    apply Qmult_le_0_compat; [exact H | discriminate].
  - reflexivity.
Qed.

Lemma nonnegative_round x : nonnegative x -> nonnegative (Math_round x).
Proof.
  destruct x as [q|[|]|]; cbn [nonnegative Math_round]; intro H; try exact H.
  unfold whole. cbn [nonnegative]. change 0%Q with (inject_Z 0). rewrite <- Zle_Qle.
  change 0%Z with (Qfloor 0). apply Qfloor_resp_le.
  apply Qle_trans with q; [exact H|].
  rewrite <- (Qplus_0_r q) at 1. apply Qplus_le_r. discriminate.
Qed.

Lemma nonnegative_add x y : nonnegative x -> nonnegative y -> nonnegative (add x y).
Proof.
  destruct x as [a|[|]|], y as [b|[|]|]; cbn [nonnegative]; intros Hx Hy;
    try discriminate; try contradiction; try reflexivity.
  unfold add. apply nonnegative_nearest.
  replace 0%Q with (0 + 0)%Q by reflexivity. now apply Qplus_le_compat.
Qed.

Lemma decimal_text_nonneg a b :
  digits a -> digits b -> nonnegative (parseFloat (a ++ "." ++ b)).
Proof.
  intros Ha Hb. unfold parseFloat. apply nonnegative_nearest.
  destruct Ha as [_ Fa], Hb as [_ Fb].
  rewrite (decimal_value_fraction Fa Fb).
  pose proof (@digits_value_acc_nonneg a 0%Z Fa (Z.le_refl 0)) as Pa.
  pose proof (@digits_value_acc_nonneg b 0%Z Fb (Z.le_refl 0)) as Pb.
  fold (digits_value a) in Pa. fold (digits_value b) in Pb.
  assert (Hp : (0 < 10 ^ Z.of_nat (List.length b))%Z) by (apply Z.pow_pos_nonneg; lia).
  replace 0%Q with (0 + 0)%Q by reflexivity.
  apply Qplus_le_compat.
  - change 0%Q with (inject_Z 0). rewrite <- Zle_Qle. exact Pa.
  - apply Qle_shift_div_l.
    + change 0%Q with (inject_Z 0). rewrite <- Zlt_Qlt. exact Hp.
    + rewrite Qmult_0_l. change 0%Q with (inject_Z 0). rewrite <- Zle_Qle. exact Pb.
Qed.

Lemma returned_inj (A : Type) (a b : A) : Returned a = Returned b -> a = b.
Proof. intro H. now injection H. Qed.

(** X2. Whatever text [parseDuration] accepts, the number of minutes it
    returns is not negative (and is a number: never NaN). *)
Theorem parseDuration_never_negative s v :
  parseDuration s = Returned v -> nonnegative v.
Proof.
  intro H.
  assert (R : recognized (trim (toLowerCase s)) -> nonnegative v).
  { intro R.
    inversion R as [n Hn E|n Hn E|a b Ha Hb E|a b Ha Hb E|E|m Hm E|h m Hh Hm E];
      symmetry in E.
    - rewrite (parse_plain s Hn) in H. apply returned_inj in H. rewrite <- H.
      now apply nonnegative_parseInt.
    - rewrite (parse_hours s E Hn) in H. apply returned_inj in H. rewrite <- H.
      now apply nonnegative_round, nonnegative_times_sixty, nonnegative_parseInt.
    - rewrite (parse_decimal_bare s E Ha Hb) in H. apply returned_inj in H. rewrite <- H.
      now apply nonnegative_round, nonnegative_times_sixty, decimal_text_nonneg.
    - rewrite (parse_decimal_hours s E Ha Hb) in H. apply returned_inj in H. rewrite <- H.
      now apply nonnegative_round, nonnegative_times_sixty, decimal_text_nonneg.
    - unfold parseDuration in H. rewrite E in H. vm_compute in H.
      inversion H; subst v. cbn. discriminate.
    - rewrite (parse_minutes s E Hm) in H. apply returned_inj in H. rewrite <- H.
      apply nonnegative_add; [cbn; discriminate | now apply nonnegative_parseInt].
    - rewrite (parse_hours_minutes s E Hh Hm) in H. apply returned_inj in H. rewrite <- H.
      apply nonnegative_add; [|now apply nonnegative_parseInt].
      now apply nonnegative_times_sixty, nonnegative_parseInt. }
  unfold parseDuration in H.
  destruct (test false re_plain_minutes (trim (toLowerCase s))) eqn:E1;
    [apply R; now apply sound_plain|].
  destruct (js_match false re_decimal_hours (trim (toLowerCase s))) eqn:E2;
    [apply R; eapply sound_decimal; eassumption|].
  destruct (js_match false re_hours_minutes (trim (toLowerCase s))) eqn:E3;
    [apply R; eapply sound_hours_minutes; eassumption|].
  destruct (js_match false re_minutes (trim (toLowerCase s))) eqn:E4;
    [apply R; eapply sound_minutes; eassumption|].
  destruct (js_match false re_hours (trim (toLowerCase s))) eqn:E5;
    [apply R; eapply sound_hours; eassumption|].
  discriminate H.
Qed.

Lemma parseDuration_never_negative_witness :
  parseDuration "1h30m" = Returned (whole 90) /\ nonnegative (whole 90).
Proof.
  split; [vm_compute; reflexivity|].
  apply (@parseDuration_never_negative "1h30m" (whole 90)). vm_compute. reflexivity.
Defined.

Lemma plain_dot : plain "."%char.
Proof. split; reflexivity. Qed.

Lemma decimal_plain a b : digits a -> digits b -> Forall plain (a ++ "." ++ b).
Proof.
  intros Ha Hb. apply Forall_app. split; [now apply digits_forms_plain|].
  constructor; [exact plain_dot|]. now apply digits_forms_plain.
Qed.

Lemma decimal_h_plain a b : digits a -> digits b -> Forall plain (a ++ "." ++ b ++ "h").
Proof.
  intros Ha Hb. apply Forall_app. split; [now apply digits_forms_plain|].
  constructor; [exact plain_dot|]. now apply digits_forms_plain.
Qed.

(** X3. The unit is optional after a decimal number and not after a whole
    one: a decimal number alone is read as hours, exactly as with [h] after
    it, while digits alone are minutes.  For digits n with 60 n below 2^53,
    [n] is n minutes while [n.0] and [nh] are both 60 n minutes. *)
Theorem unit_optional_after_decimal :
  (forall a b, digits a -> digits b ->
     parseDuration (a ++ "." ++ b) = parseDuration (a ++ "." ++ b ++ "h")) /\
  (forall n, digits n -> (digits_value n * 60 < 2 ^ 53)%Z ->
     parseDuration n = Returned (whole (digits_value n)) /\
     parseDuration (n ++ ".0") = Returned (whole (digits_value n * 60)) /\
     parseDuration (n ++ "h") = Returned (whole (digits_value n * 60))).
Proof.
  split.
  - intros a b Ha Hb.
    rewrite (@parse_decimal_bare (a ++ "." ++ b) a b);
      [|now apply normalize_plain, decimal_plain|exact Ha|exact Hb].
    rewrite (@parse_decimal_hours (a ++ "." ++ b ++ "h") a b);
      [reflexivity|now apply normalize_plain, decimal_h_plain|exact Ha|exact Hb].
  - intros n Hn B.
    pose proof (digits_value_nonneg Hn) as N.
    assert (D0 : digits "0") by (split; [discriminate | repeat constructor]).
    assert (PI : parseInt n = whole (digits_value n)) by (apply parseInt_exact; [exact Hn | lia]).
    split; [|split].
    + rewrite <- PI. rewrite <- (normalize_plain (s := n)) at 2 by now apply digits_forms_plain.
      apply parse_plain. rewrite normalize_plain by now apply digits_forms_plain. exact Hn.
    + rewrite (@parse_decimal_bare (n ++ ".0") n "0");
        [|now apply normalize_plain, (decimal_plain Hn D0)|exact Hn|exact D0].
      assert (PF : parseFloat (n ++ "." ++ "0") = whole (digits_value n)).
      { unfold parseFloat. destruct Hn as [_ Fn], D0 as [_ F0].
        rewrite (decimal_value_fraction Fn F0).
        apply nearest_whole; [|lia].
        change (digits_value "0") with 0%Z. unfold Qdiv. rewrite Qmult_0_l. apply Qplus_0_r. }
      rewrite PF. rewrite multiply_whole by lia. now rewrite Math_round_whole.
    + rewrite (@parse_hours (n ++ "h") n);
        [|apply normalize_plain; now apply digits_forms_plain | exact Hn].
      rewrite PI. rewrite multiply_whole by lia. now rewrite Math_round_whole.
Qed.

Lemma unit_optional_after_decimal_witness :
  parseDuration "2.5" = parseDuration "2.5h" /\
  parseDuration "2" = Returned (whole 2) /\
  parseDuration "2.0" = Returned (whole 120) /\
  parseDuration "2h" = Returned (whole 120).
Proof.
  destruct unit_optional_after_decimal as [H1 H2].
  assert (D2 : digits "2") by (split; [discriminate | repeat constructor]).
  assert (D5 : digits "5") by (split; [discriminate | repeat constructor]).
  split; [exact (H1 "2" "5" D2 D5)|].
  apply (H2 "2" D2). vm_compute. reflexivity.
Defined.

End DurationText.

(** ** The matcher, continued *)

Module MatcherFacts.
Import JsString Regex Model StringFacts RegexFacts.

(** What is left over after a match is a suffix of where it started. *)
Lemma matches_suffix ci inp r s s' :
  matches ci inp r s s' -> exists w, s = w ++ s'.
Proof.
  induction 1;
    try (now exists [x]); try (now exists w); try (now exists []); try assumption.
  destruct IHmatches1 as [w1 ->]. destruct IHmatches2 as [w2 ->].
  exists (w1 ++ w2). now rewrite app_assoc.
Qed.

Lemma exec_at_suffix ci r inp s rest cs :
  exec_at ci r inp s = Some (rest, cs) -> exists w, s = w ++ rest.
Proof. intro H. eapply matches_suffix, exec_at_sound, H. Qed.

(** Removing matches keeps a property that every character has, and never
    lengthens the text. *)
Lemma remove_all_Forall (P : ascii -> Prop) ci r inp fuel : forall s,
  Forall P s -> Forall P (remove_all fuel ci r inp s).
Proof.
  induction fuel as [|fuel IH]; intros s H; [exact H|].
  cbn [remove_all].
  assert (Step : Forall P match s with c :: s' => c :: remove_all fuel ci r inp s' | [] => [] end).
  { destruct H as [|c s' Hc Hs]; [constructor|]. constructor; [exact Hc | now apply IH]. }
  destruct (exec_at ci r inp s) as [[rest cs]|] eqn:E; [|exact Step].
  destruct (Nat.ltb (List.length rest) (List.length s)); [|exact Step].
  apply IH. destruct (exec_at_suffix _ _ _ _ E) as [w ->].
  now apply Forall_app in H.
Qed.

Lemma remove_all_length ci r inp fuel : forall s,
  List.length (remove_all fuel ci r inp s) <= List.length s.
Proof.
  induction fuel as [|fuel IH]; intros s; [apply Nat.le_refl|].
  cbn [remove_all].
  assert (Step : List.length match s with c :: s' => c :: remove_all fuel ci r inp s' | [] => [] end
                 <= List.length s).
  { destruct s as [|c s']; [apply Nat.le_refl|]. cbn [List.length]. specialize (IH s'). lia. }
  destruct (exec_at ci r inp s) as [[rest cs]|] eqn:E; [|exact Step].
  destruct (Nat.ltb_spec (List.length rest) (List.length s)); [|exact Step].
  specialize (IH rest). lia.
Qed.

(** Where the pattern matches nowhere, nothing is removed. *)
Lemma remove_all_nomatch ci r inp fuel : forall s,
  (forall pre s', s = pre ++ s' -> exec_at ci r inp s' = None) ->
  remove_all fuel ci r inp s = s.
Proof.
  induction fuel as [|fuel IH]; intros s H; [reflexivity|].
  cbn [remove_all]. rewrite (H [] s eq_refl).
  destruct s as [|c s']; [reflexivity|]. f_equal. apply IH.
  intros pre s'' ->. apply (H (c :: pre)). reflexivity.
Qed.

(** A literal text matches where the input goes on with its characters. *)
Lemma lits_run ci w : forall inp s cs k,
  w <> [] ->
  run ci (lits w) inp s cs k
  = if starts_with ci w s then k (skipn (List.length w) s) cs else None.
Proof.
  induction w as [|c w IH]; intros inp s cs k Hw; [congruence|].
  destruct w as [|c' w'].
  - cbn [lits run starts_with List.length skipn].
    destruct s as [|x s']; [reflexivity|].
    destruct (lit_eqb ci c x); reflexivity.
  - change (lits (c :: c' :: w')) with (Cat (Lit c) (lits (c' :: w'))).
    cbn [run]. destruct s as [|x s']; [reflexivity|].
    cbn [starts_with]. destruct (lit_eqb ci c x); [|reflexivity].
    cbn [andb]. rewrite IH by discriminate. reflexivity.
Qed.

(** A match further on is found by the search, unless an earlier one is. *)
Lemma search_finds ci r inp pre : forall s,
  exec_at ci r inp s <> None -> search ci r inp (pre ++ s) <> None.
Proof.
  induction pre as [|c pre IH]; intros s H.
  - cbn [app]. destruct s; cbn [search]; destruct (exec_at ci r inp _); congruence.
  - cbn [app search]. destruct (exec_at ci r inp (c :: pre ++ s)); [congruence|].
    now apply IH.
Qed.

Lemma test_finds ci r pre s :
  exec_at ci r (pre ++ s) s <> None -> test ci r (pre ++ s) = true.
Proof.
  intro H. unfold test.
  pose proof (@search_finds ci r (pre ++ s) pre s H) as F.
  destruct (search ci r (pre ++ s) (pre ++ s)); congruence.
Qed.

End MatcherFacts.

(** ** What [sanitizeInput] returns *)

Module Sanitized.
Import JsString Regex Utils Model StringFacts RegexFacts Sanitize MatcherFacts.

Lemma triple_nomatch a b c inp s :
  ~ occurs [a; b; c] s ->
  forall pre s', s = pre ++ s' ->
  exec_at false (Cat (Lit a) (Cat (Lit b) (Lit c))) inp s' = None.
Proof.
  intros H pre s' ->. unfold exec_at. cbn [run].
  destruct s' as [|x s1]; [reflexivity|].
  unfold lit_eqb. destruct (Ascii.eqb_spec a x) as [->|]; [|reflexivity].
  destruct s1 as [|y s2]; [reflexivity|].
  destruct (Ascii.eqb_spec b y) as [->|]; [|reflexivity].
  destruct s2 as [|z s3]; [reflexivity|].
  destruct (Ascii.eqb_spec c z) as [->|]; [|reflexivity].
  elim H. exists pre, s3. reflexivity.
Qed.

Lemma occurs_removed_none a b c s :
  ~ occurs [a; b; c] s ->
  replace_all_empty false (Cat (Lit a) (Cat (Lit b) (Lit c))) s = s.
Proof.
  intro H. unfold replace_all_empty. apply remove_all_nomatch.
  now apply triple_nomatch.
Qed.

Lemma Forall_prefix (P : ascii -> Prop) n : forall s, Forall P s -> Forall P (firstn n s).
Proof.
  induction n as [|n IH]; intros s H; [constructor|].
  destruct H as [|c r Hc Hr]; [constructor|]. cbn [firstn]. constructor; auto.
Qed.

Lemma markup_negb s :
  Forall (fun c => is_markup_char c = false) s ->
  Forall (fun c => negb (is_markup_char c) = true) s.
Proof. intro H. eapply Forall_impl; [|exact H]. now intros c ->. Qed.

(** X4. Whatever the input, the result of [sanitizeInput] has at most 1000
    characters, is no longer than the input, and contains none of the six
    characters of the first replacement (less-than, greater-than, ampersand,
    the two quotes, the backquote). *)
Theorem sanitizeInput_output x :
  List.length (sanitizeInput x) <= 1000 /\
  List.length (sanitizeInput x) <= List.length x /\
  Forall (fun c => is_markup_char c = false) (sanitizeInput x).
Proof.
  unfold sanitizeInput, substring0. split; [|split].
  - rewrite length_firstn. apply Nat.le_min_l.
  - rewrite length_firstn. unfold replace_all_empty.
    etransitivity; [apply Nat.le_min_r|].
    etransitivity; [apply remove_all_length|].
    etransitivity; [apply remove_all_length|].
    etransitivity; [apply remove_all_length|].
    unfold trim. rewrite length_rev.
    destruct (drop_space_suffix (rev (drop_space x))) as [p1 E1].
    destruct (drop_space_suffix x) as [p2 E2].
    apply (f_equal (@List.length ascii)) in E1, E2.
    rewrite length_app in E1, E2. rewrite length_rev in E1. lia.
  - apply Forall_prefix. unfold replace_all_empty.
    apply remove_all_Forall. apply remove_all_Forall.
    fold (replace_all_empty false (Class is_markup_char) (trim x)).
    rewrite replace_class.
    eapply Forall_impl; [|apply Forall_filter].
    intros c H. cbv beta in H. now destruct (is_markup_char c).
Qed.

(** X5. [sanitizeInput] returns unchanged every text of at most 1000
    characters that has no blank at either end, none of the six markup
    characters, and neither of the two three-character sequences its last
    two replacements look for. Control characters are among what it lets
    through: the two patterns that their comments say remove them have no
    brackets. *)
Theorem sanitizeInput_fixed x :
  trim x = x ->
  Forall (fun c => is_markup_char c = false) x ->
  ~ occurs nul_dash_us x ->
  ~ occurs del_dash_apc x ->
  List.length x <= 1000 ->
  sanitizeInput x = x.
Proof.
  intros Ht Hm H1 H2 Hl. unfold sanitizeInput.
  rewrite Ht, replace_class, (filter_all _ (markup_negb Hm)).
  unfold re_nul_dash_us. rewrite (occurs_removed_none H1).
  unfold re_del_dash_apc. rewrite (occurs_removed_none H2).
  unfold substring0. apply firstn_all2. exact Hl.
Qed.

Lemma sanitizeInput_fixed_witness :
  sanitizeInput ("a" ++ [ascii_of_N 0; ascii_of_N 27] ++ "b")
  = "a" ++ [ascii_of_N 0; ascii_of_N 27] ++ "b".
Proof.
  apply sanitizeInput_fixed.
  - vm_compute. reflexivity.
  - repeat constructor.
  - intros (pre & post & E).
    destruct pre as [|? [|? [|? [|? [|? ?]]]]]; cbn in E; discriminate E.
  - intros (pre & post & E).
    destruct pre as [|? [|? [|? [|? [|? ?]]]]]; cbn in E; discriminate E.
  - cbn. lia.
Defined.

End Sanitized.

(** ** Well-formed keys *)

Module ApiKeys.
Import JsString Regex Utils Security Model StringFacts RegexFacts Sanitize MatcherFacts.

Lemma alnum_not_space c : is_alnum c = true -> is_space c = false.
Proof. unfold is_alnum. intro H. code_cases. Qed.

Lemma alnum_test k :
  test false re_alnum k = true -> Forall (fun c => is_alnum c = true) k.
Proof.
  intro H. destruct (test_anchored_sound _ _ _ H) as [s' M].
  inversion M as [| |r1 r2 s0 s1 s2 M1 M2| | | | | | | | | |]; subst.
  inversion M2; subst. inversion M1 as [| | | | | | |p w s0 Hne Hw| | | | |]; subst.
  now rewrite app_nil_r.
Qed.

(** X6. A key [isValidApiKey] accepts has 40 to 60 characters, all of them
    letters or digits, no character repeated eleven times in a row, and
    [trim] leaves it as it is, so that the key read back from the key file
    is the key that was stored. *)
Theorem isValidApiKey_shape k :
  isValidApiKey k = true ->
  40 <= List.length k <= 60 /\
  Forall (fun c => is_alnum c = true) k /\
  trim k = k /\
  has_run None 0 k = false.
Proof.
  unfold isValidApiKey. intro H.
  destruct (Nat.ltb_spec (List.length k) 40) as [|L1]; [discriminate|].
  destruct (Nat.ltb_spec 60 (List.length k)) as [|L2]; [discriminate|].
  cbn [orb] in H.
  destruct (test false re_alnum k) eqn:A; [|discriminate]. cbn [negb] in H.
  apply negb_true_iff in H. apply orb_false_iff in H. destruct H as [_ R].
  pose proof (alnum_test _ A) as F.
  split; [lia|]. split; [exact F|]. split; [|exact R].
  apply trim_none. eapply Forall_impl; [|exact F]. exact alnum_not_space.
Qed.

Lemma isValidApiKey_shape_witness :
  isValidApiKey sample_key = true /\ trim sample_key = sample_key.
Proof.
  assert (H : isValidApiKey sample_key = true) by (vm_compute; reflexivity).
  split; [exact H|]. apply (isValidApiKey_shape sample_key H).
Defined.

(** Anchored alternatives of literal texts, as tests of how the key starts. *)
Lemma prefix_test4 ci a b c d k :
  a <> [] -> b <> [] -> c <> [] -> d <> [] ->
  test ci (Cat Bol (Grp 1 (Alt (lits a) (Alt (lits b) (Alt (lits c) (lits d)))))) k
  = starts_with ci a k || starts_with ci b k || starts_with ci c k || starts_with ci d k.
Proof.
  intros. unfold test. rewrite search_anchored. unfold exec_at. cbn [run].
  rewrite Nat.eqb_refl. rewrite !lits_run by assumption.
  destruct (starts_with ci a k), (starts_with ci b k), (starts_with ci c k),
    (starts_with ci d k); reflexivity.
Qed.

Lemma prefix_test3 ci a b c k :
  a <> [] -> b <> [] -> c <> [] ->
  test ci (Cat Bol (Grp 1 (Alt (lits a) (Alt (lits b) (lits c))))) k
  = starts_with ci a k || starts_with ci b k || starts_with ci c k.
Proof.
  intros. unfold test. rewrite search_anchored. unfold exec_at. cbn [run].
  rewrite Nat.eqb_refl. rewrite !lits_run by assumption.
  destruct (starts_with ci a k), (starts_with ci b k), (starts_with ci c k); reflexivity.
Qed.

Lemma prefix_test6 ci a b c d e f k :
  a <> [] -> b <> [] -> c <> [] -> d <> [] -> e <> [] -> f <> [] ->
  test ci (Cat Bol (Grp 1 (Alt (lits a) (Alt (lits b) (Alt (lits c)
             (Alt (lits d) (Alt (lits e) (lits f)))))))) k
  = starts_with ci a k || starts_with ci b k || starts_with ci c k
    || starts_with ci d k || starts_with ci e k || starts_with ci f k.
Proof.
  intros. unfold test. rewrite search_anchored. unfold exec_at. cbn [run].
  rewrite Nat.eqb_refl. rewrite !lits_run by assumption.
  destruct (starts_with ci a k), (starts_with ci b k), (starts_with ci c k),
    (starts_with ci d k), (starts_with ci e k), (starts_with ci f k); reflexivity.
Qed.

Lemma prefix_test5 ci a b c d e k :
  a <> [] -> b <> [] -> c <> [] -> d <> [] -> e <> [] ->
  test ci (Cat Bol (Grp 1 (Alt (lits a) (Alt (lits b) (Alt (lits c)
             (Alt (lits d) (lits e))))))) k
  = starts_with ci a k || starts_with ci b k || starts_with ci c k
    || starts_with ci d k || starts_with ci e k.
Proof.
  intros. unfold test. rewrite search_anchored. unfold exec_at. cbn [run].
  rewrite Nat.eqb_refl. rewrite !lits_run by assumption.
  destruct (starts_with ci a k), (starts_with ci b k), (starts_with ci c k),
    (starts_with ci d k), (starts_with ci e k); reflexivity.
Qed.

(** X7. [validateApiKeySecurity] is stricter than [isValidApiKey], the check
    that [login] and the request interceptor use: every key it accepts they
    accept, and a key of forty lower-case letters passes [isValidApiKey]
    while [validateApiKeySecurity] takes it for a placeholder. *)
Theorem validateApiKeySecurity_stricter :
  (forall k, valid (validateApiKeySecurity k) = true -> isValidApiKey k = true) /\
  isValidApiKey lowercase_key = true /\
  validateApiKeySecurity lowercase_key
  = {| valid := false;
       reason := Some (js "API key appears to be a placeholder or test key") |}.
Proof.
  split; [|split; vm_compute; reflexivity].
  intros k H. unfold validateApiKeySecurity in H. unfold isValidApiKey.
  change MIN_API_KEY_LENGTH with 40 in H. change MAX_API_KEY_LENGTH with 60 in H.
  destruct (Nat.ltb (List.length k) 40 || Nat.ltb 60 (List.length k)); [discriminate|].
  change API_KEY_CHARS_REGEX with re_alnum in H.
  destruct (negb (test false re_alnum k)); [discriminate|].
  destruct (existsb (fun pattern => pattern k) SUSPICIOUS_API_KEY_PATTERNS) eqn:E;
    [discriminate|].
  unfold SUSPICIOUS_API_KEY_PATTERNS in E. cbn [existsb] in E.
  rewrite prefix_test6, prefix_test5 in E by discriminate.
  unfold re_placeholder_prefix, re_sequence_prefix.
  rewrite prefix_test4, prefix_test3 by discriminate.
  repeat (apply orb_false_iff in E; destruct E as [? E]).
  repeat match goal with H : _ || _ = false |- _ =>
    apply orb_false_iff in H; destruct H end.
  repeat match goal with H : ?x = false |- context [?x] => rewrite H end.
  reflexivity.
Qed.

Lemma validateApiKeySecurity_stricter_witness :
  valid (validateApiKeySecurity sample_key) = true /\ isValidApiKey sample_key = true.
Proof.
  assert (H : valid (validateApiKeySecurity sample_key) = true) by (vm_compute; reflexivity).
  split; [exact H|].
  destruct validateApiKeySecurity_stricter as [S _]. exact (S sample_key H).
Defined.

End ApiKeys.

(** ** The blocklist on any state *)

Module Blocklist.
Import JsString Regex Utils Security Model StringFacts RegexFacts Sanitize MatcherFacts.

Lemma clean_plain x :
  Forall (fun c => is_control c = false) (clean x) /\ trim (clean x) = clean x.
Proof.
  split.
  - unfold clean. apply Forall_trim. rewrite !replace_class.
    eapply Forall_impl; [|apply Forall_filter].
    intros c H. cbv beta in H. now destruct (is_control c).
  - unfold clean. apply trim_trim.
Qed.

(** X8. Whatever the state of the pattern objects, a text that
    [securelyProcessInput] returns is the cleaned input in full, within the
    maximum length, free of control characters and with no blank at either
    end: the truncation after the validation never cuts anything. A cleaned
    text over the maximum length is rejected, and the pattern objects are
    not touched. *)
Theorem securelyProcessInput_result input maxLength st :
  (forall c st',
     securelyProcessInput input maxLength st = (Returned c, st') ->
     c = clean input /\ List.length c <= maxLength /\
     Forall (fun ch => is_control ch = false) c /\ trim c = c) /\
  (maxLength < List.length (clean input) ->
   securelyProcessInput input maxLength st = (Thrown dangerous_message, st)).
Proof.
  unfold securelyProcessInput, validateSecureInput. split.
  - intros c st' H.
    destruct (Nat.ltb_spec maxLength (List.length (clean input))) as [|L];
      [discriminate|].
    destruct (check_patterns DANGEROUS_PATTERNS st (clean input)) as [ok st''].
    destruct ok; [|discriminate]. cbn [negb] in H. inversion H; subst.
    split; [reflexivity|]. split; [exact L|]. apply clean_plain.
  - intro L. apply Nat.ltb_lt in L. rewrite L. reflexivity.
Qed.

Lemma securelyProcessInput_result_witness :
  securelyProcessInput "  hello  " 1000 fresh = (Returned (js "hello"), fresh) /\
  js "hello" = clean "  hello  ".
Proof.
  assert (H : securelyProcessInput "  hello  " 1000 fresh = (Returned (js "hello"), fresh))
    by (vm_compute; reflexivity).
  split; [exact H|].
  destruct (securelyProcessInput_result "  hello  " 1000 fresh) as [R _].
  apply (R _ _ H).
Defined.

(** X9. A call of [securelyProcessInput] that returns leaves every pattern
    object at position 0. The call that follows it therefore does what the
    contract says: it rejects a cleaned text that is too long or contains a
    blocklisted pattern and returns any other. Only a call that follows a
    rejection can let a blocklisted text through. *)
Theorem returning_call_resets input maxLength st c st' :
  List.length st = List.length DANGEROUS_PATTERNS ->
  securelyProcessInput input maxLength st = (Returned c, st') ->
  st' = fresh /\
  forall next,
    fst (securelyProcessInput next maxLength st')
    = if Nat.ltb maxLength (List.length (clean next))
         || existsb (fun p => test true p (clean next)) DANGEROUS_PATTERNS
      then Thrown dangerous_message
      else Returned (clean next).
Proof.
  intros Hl H. unfold securelyProcessInput, validateSecureInput in H.
  destruct (Nat.ltb maxLength (List.length (clean input))); [discriminate|].
  destruct (check_patterns DANGEROUS_PATTERNS st (clean input)) as [ok st''] eqn:E.
  destruct ok; [|discriminate]. cbn [negb] in H. inversion H; subst.
  assert (F : st' = fresh) by (eapply check_patterns_pass; eassumption).
  split; [exact F|]. intro next. rewrite F. apply securelyProcessInput_first_call.
Qed.

Lemma returning_call_resets_witness :
  fst (securelyProcessInput "javascript:" 1000
         (snd (securelyProcessInput "hello" 1000 [0; 11; 0; 0; 0])))
  = Thrown dangerous_message.
Proof.
  assert (H : securelyProcessInput "hello" 1000 [0; 11; 0; 0; 0] = (Returned (js "hello"), fresh))
    by (vm_compute; reflexivity).
  destruct (@returning_call_resets "hello" 1000 [0; 11; 0; 0; 0] _ _ eq_refl H) as [_ N].
  rewrite H. cbn [snd]. rewrite N. vm_compute. reflexivity.
Defined.

Lemma rejected_when_found input maxLength p :
  In p DANGEROUS_PATTERNS ->
  test true p (clean input) = true ->
  fst (securelyProcessInput input maxLength fresh) = Thrown dangerous_message.
Proof.
  intros Hin Ht. rewrite securelyProcessInput_first_call.
  assert (E : existsb (fun p => test true p (clean input)) DANGEROUS_PATTERNS = true).
  { apply existsb_exists. exists p. split; assumption. }
  rewrite E, orb_true_r. reflexivity.
Qed.

Lemma lits_found w pre rest :
  w <> [] -> starts_with true w rest = true ->
  test true (lits w) (pre ++ rest) = true.
Proof.
  intros Hw Hs. apply test_finds. unfold exec_at.
  rewrite lits_run by exact Hw. rewrite Hs. discriminate.
Qed.

(** X10. On freshly loaded patterns, a text whose cleaned form goes on, at
    any place and in any letter case, with [javascript:], [vbscript:] or
    [data:text/html] is rejected. *)
Theorem scheme_rejected input maxLength scheme pre rest :
  In scheme [js "javascript:"; js "vbscript:"; js "data:text/html"] ->
  clean input = pre ++ rest ->
  starts_with true scheme rest = true ->
  fst (securelyProcessInput input maxLength fresh) = Thrown dangerous_message.
Proof.
  intros Hin Hc Hs.
  apply rejected_when_found with (p := lits scheme).
  - cbn [In] in Hin. unfold DANGEROUS_PATTERNS. cbn [In].
    destruct Hin as [<-|[<-|[<-|[]]]]; auto 6.
  - rewrite Hc. apply lits_found; [|exact Hs].
    cbn [In] in Hin. destruct Hin as [<-|[<-|[<-|[]]]]; discriminate.
Qed.

Lemma scheme_rejected_witness :
  fst (securelyProcessInput "see JavaScript:void(0)" 1000 fresh) = Thrown dangerous_message.
Proof.
  apply (@scheme_rejected "see JavaScript:void(0)" 1000 "javascript:" "see " "JavaScript:void(0)").
  - cbn [In]. auto.
  - vm_compute. reflexivity.
  - vm_compute. reflexivity.
Defined.

Lemma word_not_space c : is_word c = true -> is_space c = false.
Proof. intro H. code_cases. Qed.

Lemma eq_sign_only c : lit_eqb true "="%char c = true -> c = "="%char.
Proof.
  unfold lit_eqb. intro H. apply Ascii.eqb_eq in H.
  change (canon_char "=") with "="%char in H.
  unfold canon_char in H.
  destruct (in_range 97 122 c) eqn:E1.
  - exfalso. apply (f_equal code) in H. unfold code in H at 2.
    rewrite N_ascii_embedding in H; [|unfold in_range in E1; code_cases].
    change (code "=") with 61%N in H. unfold in_range in E1. code_cases.
  - destruct (in_range 224 254 c && negb (code c =? 247)%N) eqn:E2; [|now symmetry].
    exfalso. apply (f_equal code) in H. unfold code in H at 2.
    rewrite N_ascii_embedding in H.
    + change (code "=") with 61%N in H. apply andb_true_iff in E2.
      destruct E2 as [E2 _]. unfold in_range in E2. code_cases.
    + apply andb_true_iff in E2. destruct E2 as [E2 _]. unfold in_range in E2. code_cases.
Qed.

Lemma word_not_eq_sign c : is_word c = true -> lit_eqb true "="%char c = false.
Proof.
  intro H. destruct (lit_eqb true "="%char c) eqn:E; [|reflexivity].
  apply eq_sign_only in E. subst c. vm_compute in H. discriminate.
Qed.

Lemma space_not_eq_sign c : is_space c = true -> lit_eqb true "="%char c = false.
Proof.
  intro H. destruct (lit_eqb true "="%char c) eqn:E; [|reflexivity].
  apply eq_sign_only in E. subst c. vm_compute in H. discriminate.
Qed.

Lemma blanks_then_eq_sign blanks post :
  Forall (fun c => is_space c = true) blanks ->
  match blanks ++ "=" ++ post with c :: _ => is_word c = false | [] => True end.
Proof.
  intros [|c r Hc _]; [reflexivity|]. cbn [app].
  destruct (is_word c) eqn:E; [|reflexivity].
  apply word_not_space in E. congruence.
Qed.

Lemma starts_with_app ci w : forall o r,
  starts_with ci w o = true -> starts_with ci w (o ++ r) = true.
Proof.
  induction w as [|c w IH]; intros o r H; [reflexivity|].
  destruct o as [|x o]; [discriminate|]. cbn [app starts_with] in *.
  apply andb_true_iff in H. destruct H as [-> H]. cbn [andb]. now apply IH.
Qed.

(** X11. On freshly loaded patterns the pattern for event handlers rejects
    more than handlers: any text in whose cleaned form the letters [on], in
    any case, are followed by one or more word characters, optional blanks
    and an equals sign is rejected, wherever the letters stand, as in
    [money = 5]. *)
Theorem assignment_after_on_rejected input maxLength pre o name blanks post :
  clean input = pre ++ o ++ name ++ blanks ++ "=" ++ post ->
  List.length o = 2 -> starts_with true "on" o = true ->
  name <> [] -> Forall (fun c => is_word c = true) name ->
  Forall (fun c => is_space c = true) blanks ->
  fst (securelyProcessInput input maxLength fresh) = Thrown dangerous_message.
Proof.
  intros Hc Ho Hon Hne Hname Hblanks.
  apply rejected_when_found
    with (p := Cat (lits "on") (Cat (Plus is_word) (Cat (Star is_space) (Lit "=")))).
  { unfold DANGEROUS_PATTERNS. cbn [In]. auto. }
  rewrite Hc. apply test_finds. unfold exec_at. cbn [run].
  rewrite lits_run by discriminate.
  rewrite (@starts_with_app true (js "on") o _ Hon).
  change (List.length (js "on")) with 2.
  rewrite skipn_app, Ho, skipn_all2 by lia. cbn [Nat.sub skipn app].
  destruct Hname as [|c name' Hw Hname']; [congruence|].
  cbn [app run]. rewrite Hw.
  rewrite greedy_longest.
  - rewrite (@span_app is_word name' _ Hname' (blanks_then_eq_sign post Hblanks)).
    cbn [snd run]. rewrite greedy_longest.
    + rewrite (@span_app is_space blanks ("=" ++ post) Hblanks) by reflexivity.
      cbn [snd js list_ascii_of_string app]. discriminate.
    + intros x r Hx. now rewrite (space_not_eq_sign x Hx).
  - intros x r Hx. cbn [run greedy]. rewrite (word_not_space x Hx).
    now rewrite (word_not_eq_sign x Hx).
Qed.

Lemma assignment_after_on_rejected_witness :
  fst (securelyProcessInput "money = 5" 1000 fresh) = Thrown dangerous_message.
Proof.
  apply (@assignment_after_on_rejected "money = 5" 1000 "m" "on" "ey" " " " 5").
  - vm_compute. reflexivity.
  - reflexivity.
  - vm_compute. reflexivity.
  - discriminate.
  - repeat constructor.
  - repeat constructor.
Defined.

End Blocklist.


(** ** Stored credentials and configuration *)

Module Credentials.
Import JsString Sys ConfigManager Api Model Pipeline.
Local Open Scope Z_scope.

Lemma getApiKey_eq w : getApiKey w = (Ret (effective_key w), w).
Proof.
  unfold getApiKey, effective_key, truthy_opt.
  destruct (env_api_key w) as [k|]; [destruct (truthy k)|];
    destruct (api_key_file w); reflexivity.
Qed.

Lemma hasApiKey_eq w : hasApiKey w = (Ret (truthy_opt (effective_key w)), w).
Proof.
  unfold hasApiKey, bind, ret. rewrite getApiKey_eq.
  destruct (effective_key w) as [[|c r]|]; reflexivity.
Qed.

Lemma setApiKey_eq env k w :
  setApiKey env k w
  = if disk_writable w then (Ret tt, with_api_key_file (Some k) w)
    else (Throw (Error ("Failed to store API key: " ++ fs_error env)), w).
Proof.
  unfold setApiKey, try_catch, bind, fs_guard, modify, throw.
  destruct (disk_writable w); reflexivity.
Qed.

Lemma removeApiKey_eq env w :
  removeApiKey env w
  = match api_key_file w with
    | Some _ => if disk_writable w then (Ret true, with_api_key_file None w)
                else (Ret false, w)
    | None => (Ret false, w)
    end.
Proof.
  unfold removeApiKey, try_catch, bind, gets, fs_guard, modify, ret.
  destruct (api_key_file w); [|reflexivity].
  destruct (disk_writable w); reflexivity.
Qed.

Lemma saveConfig_eq env w :
  saveConfig env w
  = if disk_writable w then (Ret tt, with_config_file (Some (config w)) w)
    else (Throw (Error ("Failed to save config: " ++ fs_error env)), w).
Proof.
  unfold saveConfig, try_catch, bind, fs_guard, gets, modify, throw.
  destruct (disk_writable w); reflexivity.
Qed.

(** X12. On a disk that accepts writes, the key stored by [setApiKey] is
    the key [getApiKey] hands back, trimmed, unless [CLOCKIFY_API_KEY] is
    set and not empty: then [getApiKey] hands back the key of the
    environment, whatever was stored. On a disk that refuses writes
    [setApiKey] throws "Failed to store API key: ..." and changes nothing. *)
Theorem stored_key_read_back env k w :
  (disk_writable w = true ->
   fst (setApiKey env k w) = Ret tt /\
   (truthy_opt (env_api_key w) = false ->
    fst (getApiKey (snd (setApiKey env k w))) = Ret (Some (trim k))) /\
   (forall ek, env_api_key w = Some ek -> truthy ek = true ->
    fst (getApiKey (snd (setApiKey env k w))) = Ret (Some ek))) /\
  (disk_writable w = false ->
   setApiKey env k w
   = (Throw (Error ("Failed to store API key: " ++ fs_error env)), w)).
Proof.
  rewrite setApiKey_eq. split; intro D; rewrite D; [|reflexivity].
  cbn [fst snd]. split; [reflexivity|]. rewrite getApiKey_eq. cbn [fst].
  unfold effective_key. world_simpl. split.
  - intros ->. reflexivity.
  - intros ek E T. rewrite E. cbn [truthy_opt]. now rewrite T.
Qed.

Lemma stored_key_read_back_witness :
  fst (getApiKey (snd (setApiKey busy_env (" " ++ sample_key ++ " ") (started 0 None))))
  = Ret (Some sample_key).
Proof.
  destruct (stored_key_read_back busy_env (" " ++ sample_key ++ " ") (started 0 None))
    as [[_ [H _]] _]; [reflexivity|].
  rewrite H by reflexivity. vm_compute. reflexivity.
Defined.

(** X13. [removeApiKey] never throws. It answers [true] exactly when the
    key file exists and the disk lets it be removed, and then the file is
    gone; otherwise it answers [false] and changes nothing. While
    [CLOCKIFY_API_KEY] is set, [hasApiKey] still answers [true] after the
    removal. *)
Theorem removeApiKey_outcome env w :
  (fst (removeApiKey env w) = Ret true \/ fst (removeApiKey env w) = Ret false) /\
  (fst (removeApiKey env w) = Ret true
   <-> api_key_file w <> None /\ disk_writable w = true) /\
  (fst (removeApiKey env w) = Ret true ->
   snd (removeApiKey env w) = with_api_key_file None w) /\
  (fst (removeApiKey env w) = Ret false -> snd (removeApiKey env w) = w) /\
  (forall ek, env_api_key w = Some ek -> truthy ek = true ->
   fst (hasApiKey (snd (removeApiKey env w))) = Ret true).
Proof.
  rewrite removeApiKey_eq.
  destruct (api_key_file w) as [k|] eqn:F; [destruct (disk_writable w) eqn:D|];
    cbn [fst snd]; (split; [auto|]); (split; [split|]);
    try discriminate; try (intros [? ?]; congruence); try (split; congruence);
    (split; [try discriminate; reflexivity|]); (split; [try discriminate; reflexivity|]);
    intros ek E T; rewrite hasApiKey_eq; cbn [fst]; unfold effective_key; world_simpl;
    rewrite E; cbn [truthy_opt]; rewrite T; cbn [truthy_opt]; now rewrite T.
Qed.

Lemma removeApiKey_outcome_witness :
  fst (removeApiKey busy_env (overridden sample_key (started 0 (Some sample_key)))) = Ret true /\
  fst (hasApiKey (snd (removeApiKey busy_env (overridden sample_key (started 0 (Some sample_key))))))
  = Ret true.
Proof.
  destruct (removeApiKey_outcome busy_env (overridden sample_key (started 0 (Some sample_key))))
    as (_ & [_ R] & _ & _ & H).
  split.
  - apply R. split; [discriminate | reflexivity].
  - apply (H sample_key); reflexivity.
Defined.

(** X14. [set] and [reset] change the configuration in memory first and
    save it afterwards. On a disk that accepts writes the file then holds
    the configuration in memory; on one that refuses them the call throws
    "Failed to save config: ..." with the change already made in memory
    and the file as it was. After [reset] no workspace is configured. *)
Theorem configuration_saved_after_change env w :
  (forall value,
     config (snd (set_workspaceId env value w)) = with_workspaceId value (config w)) /\
  config (snd (reset env w)) = initial_config /\
  fst (get_workspaceId (snd (reset env w))) = Ret None /\
  (disk_writable w = true ->
   (forall value,
      fst (set_workspaceId env value w) = Ret tt /\
      config_file (snd (set_workspaceId env value w))
      = Some (with_workspaceId value (config w))) /\
   fst (reset env w) = Ret tt /\
   config_file (snd (reset env w)) = Some initial_config) /\
  (disk_writable w = false ->
   (forall value,
      fst (set_workspaceId env value w)
      = Throw (Error ("Failed to save config: " ++ fs_error env)) /\
      config_file (snd (set_workspaceId env value w)) = config_file w) /\
   fst (reset env w) = Throw (Error ("Failed to save config: " ++ fs_error env)) /\
   config_file (snd (reset env w)) = config_file w).
Proof.
  assert (S : forall value, set_workspaceId env value w
            = saveConfig env (with_config (with_workspaceId value (config w)) w))
    by reflexivity.
  assert (R : reset env w = saveConfig env (with_config initial_config w)) by reflexivity.
  rewrite R. setoid_rewrite S. setoid_rewrite saveConfig_eq. world_simpl.
  destruct (disk_writable w); cbn [fst snd]; world_simpl;
    repeat split; try discriminate; reflexivity.
Qed.

Lemma configuration_saved_after_change_witness :
  fst (reset busy_env (started 0 None)) = Ret tt /\
  config_file (snd (reset busy_env (started 0 None))) = Some initial_config.
Proof.
  destruct (configuration_saved_after_change busy_env (started 0 None))
    as (_ & _ & _ & H & _).
  destruct (H eq_refl) as (_ & H1 & H2). split; assumption.
Defined.

End Credentials.

(** ** The client, continued *)

Module Client.
Import JsString Sys Api Model Pipeline Stop Login Credentials.
Local Open Scope Z_scope.

Lemma key_accepted_eq w :
  key_accepted w
  = if truthy_opt (effective_key w)
    then Utils.isValidApiKey (or_empty (effective_key w)) else true.
Proof.
  unfold key_accepted, authenticate, bind. rewrite getApiKey_eq.
  destruct (truthy_opt (effective_key w)); [|reflexivity].
  destruct (Utils.isValidApiKey (or_empty (effective_key w))); reflexivity.
Qed.

Lemma valid_key_truthy k : Utils.isValidApiKey k = true -> truthy k = true.
Proof.
  unfold Utils.isValidApiKey. destruct k as [|c r]; [|reflexivity].
  cbn. discriminate.
Qed.

Lemma send_blocked env A (req : Request) (reply : History -> Reply A) w :
  key_accepted w = false ->
  fst (send env req reply w) = Throw (Error msg_generic) /\
  net_log (snd (send env req reply w)) = net_log w /\
  dispatch_log (snd (send env req reply w)) = dispatch_log w /\
  lastRequestTime (snd (send env req reply w)) = clock (paced env w) /\
  clock (snd (send env req reply w)) = clock (paced env w).
Proof.
  intro H. rewrite send_eq, H. cbn [fst snd].
  destruct (noted_fields "undefined" (paced env w))
    as (_ & _ & _ & _ & _ & _ & N1 & N2 & _ & N3 & N4).
  destruct (paced_fields env w) as (_ & _ & _ & _ & _ & _ & P1 & P2 & _ & _ & P3).
  repeat split; congruence.
Qed.

(** X15. What the request interceptor does with the key. Without a key, or
    with an empty one, the request leaves all the same, with no key header.
    With a well-formed key it leaves with that key. With a key that is
    not empty and not well formed nothing leaves: the call fails with the
    generic message, the pacing stamp is still advanced, [stopTimer] fails
    the same way without a request, and [testConnection] puts its prefix in
    front. The interceptor's own message, "Invalid API key format
    detected", reaches no caller. *)
Theorem key_gate env A (req : Request) (reply : History -> Reply A) w :
  (truthy_opt (effective_key w) = false ->
   fst (authenticate w) = Ret None /\
   net_log (snd (send env req reply w)) = req :: net_log w) /\
  (forall k, effective_key w = Some k -> Utils.isValidApiKey k = true ->
   fst (authenticate w) = Ret (Some k) /\
   net_log (snd (send env req reply w)) = req :: net_log w) /\
  (forall k, effective_key w = Some k -> truthy k = true ->
   Utils.isValidApiKey k = false ->
   fst (send env req reply w) = Throw (Error msg_generic) /\
   net_log (snd (send env req reply w)) = net_log w /\
   lastRequestTime (snd (send env req reply w)) = clock (paced env w) /\
   (forall ws uid,
      fst (stopTimer env ws uid w) = Throw (Error msg_generic) /\
      net_log (snd (stopTimer env ws uid w)) = net_log w) /\
   fst (testConnection env w)
   = Throw (Error ("Connection test failed: " ++ msg_generic))) /\
  (forall e, fst (send env req reply w) = Throw e ->
   exn_message e <> msg_invalid_key_format).
Proof.
  split; [|split; [|split]].
  - intro H. split.
    + unfold authenticate, bind. rewrite getApiKey_eq, H. reflexivity.
    + apply send_log. now rewrite key_accepted_eq, H.
  - intros k E V. pose proof (valid_key_truthy k V) as T. split.
    + unfold authenticate, bind. rewrite getApiKey_eq, E. cbn [truthy_opt or_empty].
      now rewrite T, V.
    + apply send_log. rewrite key_accepted_eq, E. cbn [truthy_opt or_empty].
      now rewrite T.
  - intros k E T V.
    assert (K : key_accepted w = false).
    { rewrite key_accepted_eq, E. cbn [truthy_opt or_empty]. now rewrite T. }
    destruct (@send_blocked env A req reply w K) as (S1 & S2 & _ & S3 & _).
    split; [exact S1|]. split; [exact S2|]. split; [exact S3|]. split.
    + intros ws uid. unfold stopTimer, bind, getTimeEntries, client_get.
      destruct (@send_blocked env _ {| method := GET; path := entries_path ws uid; body := None |}
                  (fun h => service_time_entries env h ws uid) w K) as (G1 & G2 & _).
      destruct (send env _ (fun h => service_time_entries env h ws uid) w) as [o w1].
      cbn [fst snd] in G1, G2. subst o. cbn [fst snd]. split; [reflexivity | exact G2].
    + rewrite testConnection_eq. unfold getCurrentUser, client_get.
      destruct (@send_blocked env _ {| method := GET; path := "/user"; body := None |}
                  (service_user env) w K) as (G1 & _).
      destruct (send env _ (service_user env) w) as [o w1].
      cbn [fst] in G1. subst o. reflexivity.
  - intros e H. pose proof (send_outcome env req reply w) as O. rewrite H in O.
    destruct O as [st ->]. cbn [exn_message].
    pose proof (classify_cases st) as C. cbn [In] in C.
    intro Bad. rewrite Bad in C.
    repeat (destruct C as [C|C]; [vm_compute in C; discriminate C|]). exact C.
Qed.

Lemma key_gate_witness :
  fst (stopTimer busy_env "ws" "u1" (started 1000 (Some (js "short"))))
  = Throw (Error msg_generic) /\
  net_log (snd (stopTimer busy_env "ws" "u1" (started 1000 (Some (js "short"))))) = [].
Proof.
  destruct (@key_gate busy_env unit {| method := GET; path := "/user"; body := None |}
              (fun _ => Success tt) (started 1000 (Some (js "short"))))
    as (_ & _ & H & _).
  destruct (H "short") as (_ & _ & _ & S & _); try (vm_compute; reflexivity).
  exact (S "ws" "u1").
Defined.



(** X17. [stopTimer] ends in one of three ways: with the entry the update
    returned, the update being the last request sent; with a classified
    error, of the fetch of the entries or of the update; or with "No
    running timer found". An error it throws is the one the fetch of the
    entries threw, or "No running timer found", or the classified error of
    the update that was sent last and failed: a failure of the project
    lookup is never handed on. It never ends the process and sends three
    requests at most. *)
Theorem stopTimer_outcomes env ws uid w :
  match fst (stopTimer env ws uid w) with
  | Ret saved =>
      exists id d sent,
        net_log (snd (stopTimer env ws uid w)) = update_request ws id d :: sent /\
        service_update_entry env sent ws id (PStop d) = Success saved
  | Throw e =>
      (classified e \/ e = Error msg_no_running_timer) /\
      (fst (getTimeEntries env ws uid w) = Throw e \/
       (exists entries, fst (getTimeEntries env ws uid w) = Ret entries /\
                        find is_running entries = None /\
                        e = Error msg_no_running_timer) \/
       (exists id d sent st raw msg,
          net_log (snd (stopTimer env ws uid w)) = update_request ws id d :: sent /\
          service_update_entry env sent ws id (PStop d) = Failure st raw msg /\
          e = Error (classify st)))
  | Exit _ => False
  end /\
  (List.length (net_log (snd (stopTimer env ws uid w))) <= 3 + List.length (net_log w))%nat.
Proof.
  destruct (getTimeEntries env ws uid w) as [[entries|e|c] w1] eqn:G.
  - destruct (getTimeEntries_inv _ _ _ _ G) as (K & _ & W1).
    assert (L1 : net_log w1 = entries_request ws uid :: net_log w).
    { rewrite W1. apply (answered_fields env (entries_request ws uid) w). }
    destruct (find is_running entries) as [r|] eqn:F.
    + destruct (stopTimer_running _ _ _ _ G F) as [K2 ->].
      set (w2 := snd (project_lookup env ws r w1)) in *.
      set (d := stop_data r (fst (project_lookup env ws r w1)) (clock w2)).
      assert (L2 : net_log w2
                   = (if truthy_opt (te_projectId r) then [] else [projects_request ws])
                     ++ net_log w1) by apply project_lookup_log.
      pose proof (@send_log env _ (update_request ws (te_id r) d)
                    (fun h => service_update_entry env h ws (te_id r) (PStop d)) w2 K2) as L3.
      assert (SE : fst (send env (update_request ws (te_id r) d)
                             (fun h => service_update_entry env h ws (te_id r) (PStop d)) w2)
                   = match service_update_entry env (net_log w2) ws (te_id r) (PStop d) with
                     | Success saved => Ret saved
                     | Failure st _ _ => Throw (Error (classify st))
                     end).
      { rewrite send_eq, K2.
        destruct (service_update_entry env (net_log w2) ws (te_id r) (PStop d)); reflexivity. }
      split.
      * rewrite SE.
        destruct (service_update_entry env (net_log w2) ws (te_id r) (PStop d))
          as [saved|st raw msg] eqn:U.
        -- exists (te_id r), d, (net_log w2). split; [exact L3 | exact U].
        -- split; [left; now exists st|]. right. right.
           exists (te_id r), d, (net_log w2), st, raw, msg.
           split; [exact L3|]. split; [exact U | reflexivity].
      * rewrite L3, L2, L1. destruct (truthy_opt (te_projectId r)); cbn; lia.
    + unfold stopTimer, bind. rewrite G, F. cbn [fst snd throw].
      split; [split; [now right | right; left; now exists entries]|].
      rewrite L1. cbn. lia.
  - pose proof (send_outcome env (entries_request ws uid)
                  (fun h => service_time_entries env h ws uid) w) as O.
    change (send env (entries_request ws uid) (fun h => service_time_entries env h ws uid) w)
      with (getTimeEntries env ws uid w) in O.
    unfold stopTimer, bind. rewrite G in *. cbn [fst snd] in *.
    split; [split; [now left | left; reflexivity]|].
    assert (L : (List.length (net_log (snd (getTimeEntries env ws uid w)))
                 <= 1 + List.length (net_log w))%nat).
    { unfold getTimeEntries, client_get. rewrite send_eq.
      destruct (key_accepted w).
      - destruct (service_time_entries env (net_log w) ws uid) as [x|st raw msg]; cbn [snd].
        + destruct (answered_fields env {| method := GET; path := entries_path ws uid; body := None |} w)
            as (_ & _ & _ & _ & _ & _ & -> & _). cbn. lia.
        + destruct (noted_fields raw (answered env {| method := GET; path := entries_path ws uid; body := None |} w))
            as (_ & _ & _ & _ & _ & _ & -> & _).
          destruct (answered_fields env {| method := GET; path := entries_path ws uid; body := None |} w)
            as (_ & _ & _ & _ & _ & _ & -> & _). cbn. lia.
      - cbn [snd].
        destruct (noted_fields "undefined" (paced env w)) as (_ & _ & _ & _ & _ & _ & -> & _).
        destruct (paced_fields env w) as (_ & _ & _ & _ & _ & _ & -> & _). lia. }
    rewrite G in L. cbn [snd] in L. lia.
  - pose proof (send_outcome env (entries_request ws uid)
                  (fun h => service_time_entries env h ws uid) w) as O.
    change (send env (entries_request ws uid) (fun h => service_time_entries env h ws uid) w)
      with (getTimeEntries env ws uid w) in O.
    rewrite G in O. destruct O.
Qed.

(** X18. [startTimer] puts the reading of the clock at the time of the call
    into the entry, whatever start the caller supplied, and posts that
    entry. The reading is taken before the pacing gate, so, with timers
    that are not early, it is not later than the departure of the
    request. *)
Theorem startTimer_stamp env ws r w :
  (forall s, startTimer env ws (with_start s r) w = startTimer env ws r w) /\
  (key_accepted w = true ->
   net_log (snd (startTimer env ws r w))
   = {| method := POST; path := entry_collection_path ws;
        body := Some (PEntry (with_start (clock w) r)) |} :: net_log w /\
   ((forall c ms, 0 <= timer_slack env c ms) ->
    exists departure,
      dispatch_log (snd (startTimer env ws r w)) = departure :: dispatch_log w /\
      clock w <= departure)).
Proof.
  split; [reflexivity|]. intro K.
  assert (E : startTimer env ws r w
              = send env {| method := POST; path := entry_collection_path ws;
                            body := Some (PEntry (with_start (clock w) r)) |}
                     (fun h => service_create_entry env h ws (with_start (clock w) r)) w)
    by reflexivity.
  rewrite E. split; [now apply send_log|].
  intro Slack. exists (clock (paced env w)). split.
  - rewrite send_eq, K.
    destruct (answered_fields env {| method := POST; path := entry_collection_path ws;
                 body := Some (PEntry (with_start (clock w) r)) |} w)
      as (_ & _ & _ & _ & _ & _ & _ & A1 & _).
    destruct (service_create_entry env (net_log w) ws (with_start (clock w) r))
      as [d|st raw msg]; cbn [snd]; [exact A1|].
    destruct (noted_fields raw (answered env {| method := POST; path := entry_collection_path ws;
                 body := Some (PEntry (with_start (clock w) r)) |} w))
      as (_ & _ & _ & _ & _ & _ & _ & N1 & _).
    congruence.
  - rewrite paced_clock.
    destruct (Z.ltb_spec (clock w - lastRequestTime w) minRequestInterval); [|lia].
    specialize (Slack (clock w) (minRequestInterval - (clock w - lastRequestTime w))). lia.
Qed.

Lemma startTimer_stamp_witness :
  net_log (snd (startTimer busy_env "ws"
                  {| req_start := Some 7; req_end := None; req_billable := None;
                     req_description := None; req_projectId := None;
                     req_taskId := None; req_tagIds := None |}
                  (started 30 (Some sample_key))))
  = [ {| method := POST; path := entry_collection_path "ws";
         body := Some (PEntry {| req_start := Some 30; req_end := None;
                                 req_billable := None; req_description := None;
                                 req_projectId := None; req_taskId := None;
                                 req_tagIds := None |}) |} ].
Proof.
  destruct (startTimer_stamp busy_env "ws"
              {| req_start := Some 7; req_end := None; req_billable := None;
                 req_description := None; req_projectId := None;
                 req_taskId := None; req_tagIds := None |}
              (started 30 (Some sample_key))) as [_ H].
  destruct H as [H _]; [vm_compute; reflexivity|]. rewrite H. reflexivity.
Defined.

Lemma same_store_refl w : same_store w w.
Proof. repeat split. Qed.

Lemma same_store_trans w1 w2 w3 :
  same_store w1 w2 -> same_store w2 w3 -> same_store w1 w3.
Proof.
  unfold same_store. intros (A1 & A2 & A3 & A4 & A5 & A6) (B1 & B2 & B3 & B4 & B5 & B6).
  repeat split; congruence.
Qed.

Lemma send_keeps env A (req : Request) (reply : History -> Reply A) w :
  same_store w (snd (send env req reply w)).
Proof.
  destruct (send_frame env req reply w) as (F1 & F2 & F3 & F4 & F5).
  split; [|repeat split; assumption].
  rewrite send_eq.
  destruct (paced_fields env w) as (P & _). destruct (answered_fields env req w) as (Q & _).
  destruct (key_accepted w); [destruct (reply (net_log w)) as [d|st raw msg]|]; cbn [snd].
  - exact Q.
  - destruct (noted_fields raw (answered env req w)) as (N & _). congruence.
  - destruct (noted_fields "undefined" (paced env w)) as (N & _). congruence.
Qed.

Lemma bind_keeps A B (m : M A) (f : A -> M B) :
  (forall w, same_store w (snd (m w))) ->
  (forall a w, same_store w (snd (f a w))) ->
  forall w, same_store w (snd (bind m f w)).
Proof.
  intros Hm Hf w. unfold bind. specialize (Hm w).
  destruct (m w) as [[a|e|c] w1]; cbn [snd] in *; [|exact Hm|exact Hm].
  eapply same_store_trans; [exact Hm | apply Hf].
Qed.

Lemma try_catch_keeps A (m : M A) (h : Exn -> M A) :
  (forall w, same_store w (snd (m w))) ->
  (forall e w, same_store w (snd (h e w))) ->
  forall w, same_store w (snd (try_catch m h w)).
Proof.
  intros Hm Hh w. unfold try_catch. specialize (Hm w).
  destruct (m w) as [[a|e|c] w1]; cbn [snd] in *; [exact Hm| |exact Hm].
  eapply same_store_trans; [exact Hm | apply Hh].
Qed.

Lemma same_errors_refl w : same_errors w w.
Proof. split; reflexivity. Qed.

Lemma same_errors_trans w1 w2 w3 :
  same_errors w1 w2 -> same_errors w2 w3 -> same_errors w1 w3.
Proof.
  unfold same_errors. intros (A1 & A2) (B1 & B2).
  split; [congruence|]. intro D. rewrite B2, A2; congruence.
Qed.

(** What one call prints with [console.error]. *)
Lemma send_stderr env A (req : Request) (reply : History -> Reply A) w :
  development (snd (send env req reply w)) = development w /\
  stderr (snd (send env req reply w))
  = if development w then
      if key_accepted w then
        match reply (net_log w) with
        | Success _ => stderr w
        | Failure _ raw _ => ("API Error: " ++ raw) :: stderr w
        end
      else ("API Error: " ++ "undefined") :: stderr w
    else stderr w.
Proof.
  rewrite send_eq.
  destruct (paced_fields env w) as (_ & _ & P1 & _ & _ & _ & _ & _ & _ & P2 & _).
  destruct (answered_fields env req w) as (_ & _ & Q1 & _ & _ & _ & _ & _ & _ & Q2 & _).
  destruct (key_accepted w); [destruct (reply (net_log w)) as [d|st raw msg]|]; cbn [snd].
  - rewrite Q1, Q2. split; [reflexivity|]. now destruct (development w).
  - unfold noted. rewrite Q1.
    destruct (development w) eqn:D; world_simpl; rewrite ?Q1, ?Q2; now split.
  - unfold noted. rewrite P1.
    destruct (development w) eqn:D; world_simpl; rewrite ?P1, ?P2; now split.
Qed.

Lemma send_errors env A (req : Request) (reply : History -> Reply A) w :
  same_errors w (snd (send env req reply w)).
Proof.
  destruct (send_stderr env req reply w) as [D S].
  split; [exact D|]. intro H. rewrite S, H. reflexivity.
Qed.

Lemma bind_errors A B (m : M A) (f : A -> M B) :
  (forall w, same_errors w (snd (m w))) ->
  (forall a w, same_errors w (snd (f a w))) ->
  forall w, same_errors w (snd (bind m f w)).
Proof.
  intros Hm Hf w. unfold bind. specialize (Hm w).
  destruct (m w) as [[a|e|c] w1]; cbn [snd] in *; [|exact Hm|exact Hm].
  eapply same_errors_trans; [exact Hm | apply Hf].
Qed.

Lemma try_catch_errors A (m : M A) (h : Exn -> M A) :
  (forall w, same_errors w (snd (m w))) ->
  (forall e w, same_errors w (snd (h e w))) ->
  forall w, same_errors w (snd (try_catch m h w)).
Proof.
  intros Hm Hh w. unfold try_catch. specialize (Hm w).
  destruct (m w) as [[a|e|c] w1]; cbn [snd] in *; [exact Hm| |exact Hm].
  eapply same_errors_trans; [exact Hm | apply Hh].
Qed.

Lemma stopTimer_errors env ws uid w : same_errors w (snd (stopTimer env ws uid w)).
Proof.
  revert w. unfold stopTimer. apply bind_errors.
  - intro w. apply send_errors.
  - intros entries w. destruct (find is_running entries) as [r|];
      [|apply same_errors_refl].
    revert w. apply bind_errors.
    + intro w. destruct (negb (truthy_opt (te_projectId r))); [|apply same_errors_refl].
      revert w. apply try_catch_errors.
      * apply bind_errors; [intro w; apply send_errors|].
        intros [|p l] w; apply same_errors_refl.
      * intros e w. apply same_errors_refl.
    + intros pid. apply bind_errors; [intro w; apply same_errors_refl|].
      intros now w. apply send_errors.
Qed.

(** X19. No call through the client touches what the process stores: the
    key of the environment, the key file, the state of the disk, the
    configuration in memory and on disk, and the lines printed with
    [console.log] are after a call (a single one, [testConnection],
    [startTimer], [stopTimer]) what they were before, whether the call
    succeeds or fails.  With [console.error] a call prints in development
    mode only: there a single call that fails prints one line, "API Error: "
    and the data of the response ("undefined" when the key was refused
    before anything was sent), and a call that succeeds prints none; outside
    development mode no call prints anything that way. *)
Theorem client_keeps_store env w :
  (forall A (req : Request) (reply : History -> Reply A),
     same_store w (snd (send env req reply w))) /\
  same_store w (snd (testConnection env w)) /\
  (forall ws r, same_store w (snd (startTimer env ws r w))) /\
  (forall ws uid, same_store w (snd (stopTimer env ws uid w))) /\
  (forall A (req : Request) (reply : History -> Reply A),
     stderr (snd (send env req reply w))
     = if development w then
         if key_accepted w then
           match reply (net_log w) with
           | Success _ => stderr w
           | Failure _ raw _ => ("API Error: " ++ raw) :: stderr w
           end
         else ("API Error: " ++ "undefined") :: stderr w
       else stderr w) /\
  (development w = false ->
   stderr (snd (testConnection env w)) = stderr w /\
   (forall ws r, stderr (snd (startTimer env ws r w)) = stderr w) /\
   (forall ws uid, stderr (snd (stopTimer env ws uid w)) = stderr w)).
Proof.
  split; [intros; apply send_keeps|].
  split; [|split; [|split; [|split; [intros; apply send_stderr|]]]];
    [| | | intro D; split; [|split]].
  4: { assert (E : same_errors w (snd (testConnection env w))).
       { revert w D. intros w _. revert w. apply try_catch_errors.
         - intro w. apply send_errors.
         - intros e w. apply same_errors_refl. }
       now apply E. }
  4: { intros ws r. now apply (send_errors env _ _ w). }
  4: { intros ws uid. now apply (stopTimer_errors env ws uid w). }
  - revert w. apply try_catch_keeps.
    + intro w. apply send_keeps.
    + intros e w. apply same_store_refl.
  - intros ws r. apply send_keeps.
  - intros ws uid. revert w. unfold stopTimer. apply bind_keeps.
    + intro w. apply send_keeps.
    + intros entries w. destruct (find is_running entries) as [r|];
        [|apply same_store_refl].
      revert w. apply bind_keeps.
      * intro w. destruct (negb (truthy_opt (te_projectId r))); [|apply same_store_refl].
        revert w. apply try_catch_keeps.
        -- apply bind_keeps; [intro w; apply send_keeps|].
           intros [|p l] w; apply same_store_refl.
        -- intros e w. apply same_store_refl.
      * intros pid. apply bind_keeps; [intro w; apply same_store_refl|].
        intros now w. apply send_keeps.
Qed.

Lemma client_keeps_store_witness :
  development (started 1000 (Some sample_key)) = false /\
  stderr (snd (stopTimer idle_env "ws" "u1" (started 1000 (Some sample_key)))) = [].
Proof.
  split; [reflexivity|].
  destruct (client_keeps_store idle_env (started 1000 (Some sample_key)))
    as (_ & _ & _ & _ & _ & H).
  destruct (H eq_refl) as (_ & _ & H3). rewrite H3. reflexivity.
Defined.

End Client.

(** ** The commands of [auth] *)

Module Session.
Import JsString Sys Api Model Pipeline Stop Login Credentials Client.
Local Open Scope Z_scope.

Lemma prompted_fields key w :
  api_key_file (prompted key w) = api_key_file w /\
  net_log (prompted key w) = net_log w /\
  env_api_key (prompted key w) = env_api_key w /\
  config (prompted key w) = config w /\
  config_file (prompted key w) = config_file w.
Proof. unfold prompted. destruct (truthy_opt key); repeat split. Qed.

Lemma login_start env key w :
  Auth.login env key w
  = let k := entered_key env key in
    let w0 := prompted key w in
    if negb (truthy k) then (Exit 1, with_console "No API key provided" w0)
    else if negb (Utils.isValidApiKey k)
    then (Exit 1, with_console "Invalid API key format" w0)
    else if negb (disk_writable w)
    then (Exit 1,
          with_console ("Authentication failed: Failed to store API key: " ++ fs_error env)
            (with_console "Validating API key..." w0))
    else Auth.login env key w.
Proof.
  cbv zeta. unfold entered_key, prompted.
  destruct (truthy_opt key) eqn:Hk.
  - destruct key as [k|]; [|discriminate Hk]. cbn [truthy_opt or_empty] in *.
    rewrite Hk. cbn [negb].
    destruct (Utils.isValidApiKey k) eqn:V; cbn [negb];
      [destruct (disk_writable w) eqn:D; cbn [negb]; [reflexivity|]|];
      unfold Auth.login, try_catch, bind, ret, console_log, modify, throw, exit,
        ConfigManager.setApiKey, ConfigManager.fs_guard, try_catch, bind, modify, throw;
      repeat (progress (cbn [truthy_opt negb or_empty exn_message]; world_simpl;
                        rewrite ?Hk, ?V, ?D)); reflexivity.
  - destruct (truthy (trim (prompt_answer env))) eqn:T; cbn [negb];
      [destruct (Utils.isValidApiKey (trim (prompt_answer env))) eqn:V; cbn [negb];
       [destruct (disk_writable w) eqn:D; cbn [negb]; [reflexivity|]|]|];
      unfold Auth.login, try_catch, bind, ret, console_log, modify, throw, exit,
        ConfigManager.setApiKey, ConfigManager.fs_guard, try_catch, bind, modify, throw;
      repeat (progress (cbn [truthy_opt negb or_empty exn_message]; world_simpl;
                        rewrite ?Hk, ?T, ?V, ?D)); reflexivity.
Qed.

(** X20. [login] gives up before anything is stored or sent in three
    cases: no key (none given and a blank answer at the prompt), a key that
    is not well formed, and a disk that refuses the key file. Each time the
    process exits with code 1, the key file, the configuration and the
    request log are what they were, and the console says which case it
    was. *)
Theorem login_refuses env key w :
  let k := entered_key env key in
  truthy k = false \/ Utils.isValidApiKey k = false \/ disk_writable w = false ->
  fst (Auth.login env key w) = Exit 1 /\
  api_key_file (snd (Auth.login env key w)) = api_key_file w /\
  net_log (snd (Auth.login env key w)) = net_log w /\
  config (snd (Auth.login env key w)) = config w /\
  printed (prompted key w) (snd (Auth.login env key w))
    (if negb (truthy k) then [js "No API key provided"]
     else if negb (Utils.isValidApiKey k) then [js "Invalid API key format"]
     else ["Authentication failed: Failed to store API key: " ++ fs_error env;
           js "Validating API key..."]).
Proof.
  intros k H. rewrite login_start. fold k. cbv zeta.
  destruct (prompted_fields key w) as (P1 & P2 & _ & P3 & _).
  unfold printed.
  destruct (truthy k); cbn [negb];
    [destruct (Utils.isValidApiKey k); cbn [negb];
     [destruct (disk_writable w); cbn [negb]|]|];
    cbn [fst snd]; world_simpl; try (repeat split; (assumption || reflexivity)).
  destruct H as [H|[H|H]]; discriminate H.
Qed.

Lemma login_refuses_witness :
  fst (Auth.login busy_env (Some (js "secret")) (started 0 (Some sample_key))) = Exit 1 /\
  api_key_file (snd (Auth.login busy_env (Some (js "secret")) (started 0 (Some sample_key))))
  = Some sample_key.
Proof.
  destruct (@login_refuses busy_env (Some (js "secret")) (started 0 (Some sample_key)))
    as (H1 & H2 & _).
  - right. left. vm_compute. reflexivity.
  - split; [exact H1 | exact H2].
Defined.

Lemma getWorkspaces_frame env w :
  api_key_file (snd (getWorkspaces env w)) = api_key_file w /\
  disk_writable (snd (getWorkspaces env w)) = disk_writable w /\
  config (snd (getWorkspaces env w)) = config w /\
  config_file (snd (getWorkspaces env w)) = config_file w /\
  console (snd (getWorkspaces env w)) = console w.
Proof. apply send_frame. Qed.

Lemma verify_other_workspaces env w1 user w2 workspaces w3 :
  testConnection env w1 = (Ret user, w2) ->
  getWorkspaces env (with_console (greeting user) w2) = (Ret workspaces, w3) ->
  List.length workspaces <> 1%nat ->
  fst (Auth.verify_and_configure env w1) = Ret tt /\
  config (snd (Auth.verify_and_configure env w1)) = config w3 /\
  config_file (snd (Auth.verify_and_configure env w1)) = config_file w3 /\
  api_key_file (snd (Auth.verify_and_configure env w1)) = api_key_file w3.
Proof.
  intros H1 H2 Hn.
  assert (E : exists wf,
             Auth.verify_and_configure env w1 = (Ret tt, wf) /\
             config wf = config w3 /\ config_file wf = config_file w3 /\
             api_key_file wf = api_key_file w3).
  { unfold Auth.verify_and_configure, bind at 1. rewrite H1.
    unfold bind at 1, console_log at 1, modify at 1. fold (greeting user).
    unfold bind at 1. rewrite H2.
    destruct workspaces as [|a [|b l]]; [|elim Hn; reflexivity|];
      unfold bind, console_log, modify, ret;
      (eexists; split; [reflexivity|]); world_simpl; repeat split; reflexivity. }
  destruct E as (wf & E & P1 & P2 & P3). rewrite E. cbn [fst snd].
  repeat split; assumption.
Qed.

Lemma verify_listing_fails env w1 user w2 e w3 :
  testConnection env w1 = (Ret user, w2) ->
  getWorkspaces env (with_console (greeting user) w2) = (Throw e, w3) ->
  Auth.verify_and_configure env w1 = (Throw e, w3).
Proof.
  intros H1 H2.
  unfold Auth.verify_and_configure, bind at 1. rewrite H1.
  unfold bind at 1, console_log at 1, modify at 1. fold (greeting user).
  unfold bind at 1. rewrite H2. reflexivity.
Qed.

(** X21. After a check of the connection that passed, a list of no
    workspace or of several leaves the key stored and the configuration as
    it was, in memory and on disk; a failure to list the workspaces is
    classified, removes the key just stored, is printed after the greeting,
    and ends the process with code 1. The disk is taken to accept
    writes. *)
Theorem login_workspaces env key w :
  let k := entered_key env key in
  let w1 := key_stored k (prompted key w) in
  truthy k = true ->
  Utils.isValidApiKey k = true ->
  disk_writable w = true ->
  (forall user w2 workspaces w3,
      testConnection env w1 = (Ret user, w2) ->
      getWorkspaces env (with_console (greeting user) w2) = (Ret workspaces, w3) ->
      List.length workspaces <> 1%nat ->
      fst (Auth.login env key w) = Ret tt /\
      api_key_file (snd (Auth.login env key w)) = Some k /\
      config (snd (Auth.login env key w)) = config w /\
      config_file (snd (Auth.login env key w)) = config_file w) /\
  (forall user w2 e w3,
      testConnection env w1 = (Ret user, w2) ->
      getWorkspaces env (with_console (greeting user) w2) = (Throw e, w3) ->
      classified e /\
      fst (Auth.login env key w) = Exit 1 /\
      api_key_file (snd (Auth.login env key w)) = None /\
      console (snd (Auth.login env key w))
      = ("Authentication failed: " ++ exn_message e) :: greeting user :: console w1).
Proof.
  intros k w1 Ht Hv Hd.
  pose proof (login_eq env key w Ht Hv Hd) as E. fold k in E. fold w1 in E.
  destruct (prompted_fields key w) as (_ & _ & _ & PC & PF).
  assert (K1 : api_key_file w1 = Some k) by reflexivity.
  assert (D1 : disk_writable w1 = true).
  { unfold w1, key_stored. world_simpl. now rewrite prompted_disk. }
  assert (C1 : config w1 = config w) by (unfold w1, key_stored; world_simpl; exact PC).
  assert (F1 : config_file w1 = config_file w) by (unfold w1, key_stored; world_simpl; exact PF).
  split.
  - intros user w2 workspaces w3 H1 H2 Hn.
    destruct (@verify_other_workspaces env w1 user w2 workspaces w3 H1 H2 Hn) as (V1 & V2 & V3 & V4).
    pose proof (testConnection_frame env w1) as T. rewrite H1 in T. cbn [snd] in T.
    destruct T as (T1 & T2 & T3 & T4 & T5).
    pose proof (getWorkspaces_frame env (with_console (greeting user) w2)) as G.
    rewrite H2 in G. cbn [snd] in G. world_simpl. destruct G as (G1 & G2 & G3 & G4 & G5).
    destruct (Auth.verify_and_configure env w1) as [[[]|e|c] wf]; cbn [fst] in V1;
      try discriminate V1.
    rewrite E. cbn [fst snd] in *. repeat split; congruence.
  - intros user w2 e w3 H1 H2.
    pose proof (@verify_listing_fails env w1 user w2 e w3 H1 H2) as V.
    pose proof (testConnection_frame env w1) as T. rewrite H1 in T. cbn [snd] in T.
    destruct T as (T1 & T2 & T3 & T4 & T5).
    pose proof (getWorkspaces_frame env (with_console (greeting user) w2)) as G.
    rewrite H2 in G. cbn [snd] in G. world_simpl. destruct G as (G1 & G2 & G3 & G4 & G5).
    split.
    + pose proof (send_outcome env {| method := GET; path := "/workspaces"; body := None |}
                    (service_workspaces env) (with_console (greeting user) w2)) as O.
      change (send env _ (service_workspaces env) (with_console (greeting user) w2))
        with (getWorkspaces env (with_console (greeting user) w2)) in O.
      rewrite H2 in O. exact O.
    + rewrite E, V.
      rewrite (@removeApiKey_removes env w3 k);
        [|rewrite G2, T2; exact D1|rewrite G1, T1; exact K1].
      cbn [fst snd]. world_simpl. split; [reflexivity|]. split; [reflexivity|].
      rewrite G5, T5. reflexivity.
Qed.

Lemma login_workspaces_witness :
  fst (Auth.login busy_env (Some sample_key) (started 1000 None)) = Ret tt /\
  api_key_file (snd (Auth.login busy_env (Some sample_key) (started 1000 None)))
  = Some sample_key.
Proof.
  destruct (@login_workspaces busy_env (Some sample_key) (started 1000 None))
    as (H & _); try (vm_compute; reflexivity).
  destruct (H sample_user
              (snd (testConnection busy_env (key_stored sample_key (started 1000 None))))
              []
              (snd (getWorkspaces busy_env
                      (with_console (greeting sample_user)
                         (snd (testConnection busy_env
                                 (key_stored sample_key (started 1000 None))))))))
    as (H1 & H2 & _); try (vm_compute; reflexivity).
  - discriminate.
  - split; [exact H1 | exact H2].
Defined.

Lemma key_stored_fields k w :
  env_api_key (key_stored k w) = env_api_key w /\
  api_key_file (key_stored k w) = Some k /\
  disk_writable (key_stored k w) = disk_writable w /\
  net_log (key_stored k w) = net_log w.
Proof. repeat split. Qed.

(** X22. While [CLOCKIFY_API_KEY] is set, the key [login] checks is the key
    of the environment, not the key entered: the interceptor works with the
    key of the environment, and when that key is not well formed [login]
    fails without a request, prints the generic connection failure and
    removes the key file it has just written, however good the entered key
    is. *)
Theorem login_checks_environment_key env key w ek :
  let k := entered_key env key in
  let w1 := key_stored k (prompted key w) in
  truthy k = true ->
  Utils.isValidApiKey k = true ->
  disk_writable w = true ->
  env_api_key w = Some ek ->
  truthy ek = true ->
  (Utils.isValidApiKey ek = true -> fst (authenticate w1) = Ret (Some ek)) /\
  (Utils.isValidApiKey ek = false ->
   fst (Auth.login env key w) = Exit 1 /\
   api_key_file (snd (Auth.login env key w)) = None /\
   net_log (snd (Auth.login env key w)) = net_log w /\
   console (snd (Auth.login env key w))
   = ("Authentication failed: Connection test failed: " ++ msg_generic) :: console w1).
Proof.
  intros k w1 Ht Hv Hd He Te.
  destruct (prompted_fields key w) as (_ & PN & PE & _ & _).
  assert (EK : effective_key w1 = Some ek).
  { unfold effective_key, w1, key_stored. world_simpl. rewrite PE, He.
    cbn [truthy_opt]. now rewrite Te. }
  split.
  - intro V. unfold authenticate, bind. rewrite getApiKey_eq, EK.
    cbn [truthy_opt or_empty]. now rewrite Te, V.
  - intro V.
    assert (K : key_accepted w1 = false).
    { rewrite key_accepted_eq, EK. cbn [truthy_opt or_empty]. now rewrite Te. }
    destruct (@send_blocked env _ {| method := GET; path := "/user"; body := None |}
                (service_user env) w1 K) as (S1 & S2 & _).
    destruct (send_frame env {| method := GET; path := "/user"; body := None |}
                (service_user env) w1) as (F1 & F2 & _ & _ & F5).
    pose proof (testConnection_eq env w1) as TC.
    unfold getCurrentUser, client_get in TC.
    destruct (send env {| method := GET; path := "/user"; body := None |}
                (service_user env) w1) as [o w2].
    cbn [fst snd] in *. subst o.
    rewrite (login_eq env key w Ht Hv Hd). fold k. fold w1.
    rewrite (@verify_fails env w1 _ w2 TC).
    rewrite (@removeApiKey_removes env w2 k);
      [|rewrite F2; unfold w1, key_stored; world_simpl; now rewrite prompted_disk
       |rewrite F1; reflexivity].
    cbn [fst snd exn_message]. world_simpl.
    split; [reflexivity|]. split; [reflexivity|].
    split; [rewrite S2; unfold w1, key_stored; world_simpl; exact PN|].
    now rewrite F5.
Qed.

Lemma login_checks_environment_key_witness :
  fst (Auth.login busy_env (Some sample_key) (overridden "short" (started 1000 None)))
  = Exit 1 /\
  net_log (snd (Auth.login busy_env (Some sample_key) (overridden "short" (started 1000 None))))
  = [].
Proof.
  destruct (@login_checks_environment_key busy_env (Some sample_key)
              (overridden "short" (started 1000 None)) "short")
    as (_ & H); try (vm_compute; reflexivity).
  destruct H as (H1 & _ & H2 & _); [vm_compute; reflexivity|].
  split; [exact H1 | exact H2].
Defined.

Lemma logout_eq env w :
  Auth.logout env w
  = (Ret tt,
     let w1 := with_console "Removing stored credentials..." w in
     if negb (truthy_opt (effective_key w))
     then with_console "No credentials found to remove" w1
     else
       match api_key_file w with
       | Some _ =>
           if disk_writable w
           then with_console "Run 'clockify auth login' to authenticate again"
                  (with_console "Credentials removed successfully"
                     (with_api_key_file None w1))
           else with_console "Could not remove credentials from keychain" w1
       | None => with_console "Could not remove credentials from keychain" w1
       end).
Proof.
  unfold Auth.logout, try_catch, bind at 1, console_log at 1, modify at 1.
  unfold bind at 1. rewrite hasApiKey_eq.
  assert (E : effective_key (with_console "Removing stored credentials..." w)
              = effective_key w) by reflexivity.
  rewrite E. cbv zeta.
  destruct (truthy_opt (effective_key w)); cbn [negb]; [|reflexivity].
  unfold bind at 1. rewrite removeApiKey_eq. world_simpl.
  destruct (api_key_file w); [destruct (disk_writable w)|]; reflexivity.
Qed.

(** X23. [logout] always returns, sends nothing and leaves the
    configuration alone. Without a usable key it reports that there is
    nothing to remove; with one, it removes the key file when there is one
    and the disk allows it, and otherwise reports that it could not. While
    [CLOCKIFY_API_KEY] is set the process still has a key after [logout];
    without it, and on a disk that accepts writes, it has none. *)
Theorem logout_outcome env w :
  fst (Auth.logout env w) = Ret tt /\
  net_log (snd (Auth.logout env w)) = net_log w /\
  config (snd (Auth.logout env w)) = config w /\
  (truthy_opt (effective_key w) = false ->
   api_key_file (snd (Auth.logout env w)) = api_key_file w /\
   printed w (snd (Auth.logout env w))
     [js "No credentials found to remove"; js "Removing stored credentials..."]) /\
  (truthy_opt (effective_key w) = true ->
   api_key_file w <> None -> disk_writable w = true ->
   api_key_file (snd (Auth.logout env w)) = None /\
   printed w (snd (Auth.logout env w))
     [js "Run 'clockify auth login' to authenticate again";
      js "Credentials removed successfully"; js "Removing stored credentials..."]) /\
  (truthy_opt (effective_key w) = true ->
   api_key_file w = None \/ disk_writable w = false ->
   api_key_file (snd (Auth.logout env w)) = api_key_file w /\
   printed w (snd (Auth.logout env w))
     [js "Could not remove credentials from keychain";
      js "Removing stored credentials..."]) /\
  (truthy_opt (env_api_key w) = true ->
   fst (ConfigManager.hasApiKey (snd (Auth.logout env w))) = Ret true) /\
  (truthy_opt (env_api_key w) = false -> disk_writable w = true ->
   fst (ConfigManager.hasApiKey (snd (Auth.logout env w))) = Ret false).
Proof.
  rewrite logout_eq. cbn [fst snd]. cbv zeta. unfold printed.
  split; [reflexivity|].
  split; [destruct (negb (truthy_opt (effective_key w))); [reflexivity|];
          destruct (api_key_file w); [destruct (disk_writable w)|]; reflexivity|].
  split; [destruct (negb (truthy_opt (effective_key w))); [reflexivity|];
          destruct (api_key_file w); [destruct (disk_writable w)|]; reflexivity|].
  split; [intros ->; cbn [negb]; split; reflexivity|].
  split.
  { intros -> F D. cbn [negb]. rewrite D.
    destruct (api_key_file w); [split; reflexivity | congruence]. }
  split.
  { intros -> [F|D]; cbn [negb].
    - rewrite F. world_simpl. split; [exact F | reflexivity].
    - rewrite D. destruct (api_key_file w) eqn:F; world_simpl; split;
        (exact F || reflexivity). }
  split.
  - intro E. rewrite hasApiKey_eq. cbn [fst]. f_equal.
    assert (K : forall w', env_api_key w' = env_api_key w ->
                           truthy_opt (effective_key w') = true).
    { intros w' Ew. unfold effective_key. now rewrite Ew, E. }
    rewrite (K w eq_refl). cbn [negb].
    destruct (api_key_file w); [destruct (disk_writable w)|]; apply K; reflexivity.
  - intros E D. rewrite hasApiKey_eq. cbn [fst]. f_equal. rewrite D.
    assert (EK : forall w', env_api_key w' = env_api_key w ->
                            effective_key w' = option_map trim (api_key_file w')).
    { intros w' Ew. unfold effective_key. now rewrite Ew, E. }
    rewrite (EK w eq_refl).
    destruct (api_key_file w) as [c|] eqn:F; cbn [option_map truthy_opt negb].
    + destruct (truthy (trim c)) eqn:T; cbn [negb]; rewrite EK by reflexivity;
        world_simpl; [reflexivity | rewrite F; exact T].
    + rewrite EK by reflexivity. world_simpl. rewrite F. reflexivity.
Qed.

Lemma logout_outcome_witness :
  api_key_file (snd (Auth.logout busy_env (overridden sample_key (started 0 (Some sample_key)))))
  = None /\
  fst (ConfigManager.hasApiKey
         (snd (Auth.logout busy_env (overridden sample_key (started 0 (Some sample_key))))))
  = Ret true.
Proof.
  destruct (logout_outcome busy_env (overridden sample_key (started 0 (Some sample_key))))
    as (_ & _ & _ & _ & H1 & _ & H2 & _).
  split.
  - apply H1; [reflexivity | discriminate | reflexivity].
  - apply H2. reflexivity.
Defined.

Lemma status_eq env rule path w :
  Auth.status env rule path w
  = let w0 := with_console ("Checking authentication status..." ++ [Auth.LF]) w in
    if negb (truthy_opt (effective_key w))
    then (Ret tt, with_console "Run: clockify auth login"
                    (with_console "Not authenticated" w0))
    else
      match getCurrentUser env w0 with
      | (Ret user, w2) =>
          match getWorkspaces env w2 with
          | (Ret workspaces, w3) =>
              (Ret tt,
               with_console rule
                 (with_console ("Config File: " ++ path)
                    (with_console
                       (if truthy_opt (cfg_workspaceId (config w3))
                        then "Current Workspace: "
                               ++ Auth.workspace_label workspaces
                                    (or_empty (cfg_workspaceId (config w3)))
                        else "Current Workspace: Not set")
                       (with_console ("Workspaces: " ++ Auth.show_nat (List.length workspaces))
                          (with_console ("Email: " ++ user_email user)
                             (with_console ("User: " ++ user_name user)
                                (with_console rule
                                   (with_console "Authenticated" w3))))))))
          | (Throw _, w3) =>
              (Ret tt, with_console "Run: clockify auth login"
                         (with_console "Authentication invalid" w3))
          | (Exit c, w3) => (Exit c, w3)
          end
      | (Throw _, w2) =>
          (Ret tt, with_console "Run: clockify auth login"
                     (with_console "Authentication invalid" w2))
      | (Exit c, w2) => (Exit c, w2)
      end.
Proof.
  unfold Auth.status, try_catch at 1, bind at 1, console_log at 1, modify at 1.
  unfold bind at 1. rewrite hasApiKey_eq.
  assert (E : effective_key (with_console ("Checking authentication status..." ++ [Auth.LF]) w)
              = effective_key w) by reflexivity.
  rewrite E. cbv zeta.
  destruct (truthy_opt (effective_key w)); cbn [negb]; [|reflexivity].
  unfold try_catch, bind at 1.
  destruct (getCurrentUser env _) as [[user|e|c] w2]; [|reflexivity|reflexivity].
  unfold bind at 1.
  destruct (getWorkspaces env w2) as [[workspaces|e|c] w3]; [|reflexivity|reflexivity].
  unfold bind, ConfigManager.getAll, gets, console_log, modify. world_simpl.
  destruct (truthy_opt (cfg_workspaceId (config w3))); reflexivity.
Qed.

Lemma send_log_length env A (req : Request) (reply : History -> Reply A) w :
  (List.length (net_log (snd (send env req reply w))) <= 1 + List.length (net_log w))%nat.
Proof.
  rewrite send_eq.
  destruct (answered_fields env req w) as (_ & _ & _ & _ & _ & _ & A1 & _).
  destruct (paced_fields env w) as (_ & _ & _ & _ & _ & _ & P1 & _).
  destruct (key_accepted w); [destruct (reply (net_log w)) as [d|st raw msg]|]; cbn [snd].
  - rewrite A1. cbn. lia.
  - destruct (noted_fields raw (answered env req w)) as (_ & _ & _ & _ & _ & _ & -> & _).
    rewrite A1. cbn. lia.
  - destruct (noted_fields "undefined" (paced env w)) as (_ & _ & _ & _ & _ & _ & -> & _).
    rewrite P1. lia.
Qed.

(** X24. [auth status] always returns: it neither throws nor ends the
    process. It changes neither keys nor configuration and sends two requests
    at most; without a usable key it sends none and reports "Not
    authenticated". Whatever makes one of its two calls fail, a refused key
    or a server failure alike, is reported as "Authentication invalid".
    When both calls succeed it prints user, e-mail, number of workspaces,
    the name of the configured workspace ("Unknown" when it is not in the
    list, "Not set" when none is configured) and the path of the
    configuration file, between two rules. *)
Theorem status_outcome env rule path w :
  let w0 := with_console ("Checking authentication status..." ++ [Auth.LF]) w in
  let after := snd (Auth.status env rule path w) in
  fst (Auth.status env rule path w) = Ret tt /\
  (env_api_key after = env_api_key w /\ api_key_file after = api_key_file w /\
   config after = config w /\ config_file after = config_file w) /\
  (List.length (net_log after) <= 2 + List.length (net_log w))%nat /\
  (truthy_opt (effective_key w) = false ->
   net_log after = net_log w /\
   printed w0 after [js "Run: clockify auth login"; js "Not authenticated"]) /\
  (truthy_opt (effective_key w) = true ->
   (forall e w2,
      getCurrentUser env w0 = (Throw e, w2) ->
      printed w0 after [js "Run: clockify auth login"; js "Authentication invalid"]) /\
   (forall user w2 e w3,
      getCurrentUser env w0 = (Ret user, w2) ->
      getWorkspaces env w2 = (Throw e, w3) ->
      printed w0 after [js "Run: clockify auth login"; js "Authentication invalid"]) /\
   (forall user w2 workspaces w3,
      getCurrentUser env w0 = (Ret user, w2) ->
      getWorkspaces env w2 = (Ret workspaces, w3) ->
      printed w0 after
        [rule; "Config File: " ++ path;
         match cfg_workspaceId (config w) with
         | Some id =>
             if truthy id
             then "Current Workspace: " ++ Auth.workspace_label workspaces id
             else js "Current Workspace: Not set"
         | None => js "Current Workspace: Not set"
         end;
         "Workspaces: " ++ Auth.show_nat (List.length workspaces);
         "Email: " ++ user_email user; "User: " ++ user_name user;
         rule; js "Authenticated"])).
Proof.
  intros w0 after. unfold after. rewrite status_eq. fold w0. cbv zeta.
  pose proof (send_outcome env {| method := GET; path := "/user"; body := None |}
                (service_user env) w0) as O1.
  pose proof (@send_keeps env _ {| method := GET; path := "/user"; body := None |}
                (service_user env) w0) as K1.
  pose proof (@send_log_length env _ {| method := GET; path := "/user"; body := None |}
                (service_user env) w0) as L1.
  change (send env _ (service_user env) w0) with (getCurrentUser env w0) in O1, K1, L1.
  assert (W0 : env_api_key w0 = env_api_key w /\ api_key_file w0 = api_key_file w /\
               config w0 = config w /\ config_file w0 = config_file w /\
               net_log w0 = net_log w) by (repeat split).
  destruct W0 as (W1 & W2 & W3 & W4 & W5).
  destruct (truthy_opt (effective_key w)) eqn:EK; cbn [negb].
  - destruct (getCurrentUser env w0) as [[user|e|c] w2] eqn:G1; cbn [fst snd] in *;
      [| |destruct O1].
    + pose proof (send_outcome env {| method := GET; path := "/workspaces"; body := None |}
                    (service_workspaces env) w2) as O2.
      pose proof (@send_keeps env _ {| method := GET; path := "/workspaces"; body := None |}
                    (service_workspaces env) w2) as K2.
      pose proof (@send_log_length env _ {| method := GET; path := "/workspaces"; body := None |}
                    (service_workspaces env) w2) as L2.
      change (send env _ (service_workspaces env) w2) with (getWorkspaces env w2) in O2, K2, L2.
      destruct K1 as (A1 & A2 & _ & A4 & A5 & A6).
      destruct (getWorkspaces env w2) as [[workspaces|e|c] w3] eqn:G2; cbn [fst snd] in *;
        [| |destruct O2]; destruct K2 as (B1 & B2 & _ & B4 & B5 & B6);
        unfold printed; world_simpl.
      * split; [reflexivity|].
        split; [rewrite B1, B2, B4, B5, A1, A2, A4, A5; repeat split; assumption|].
        split; [rewrite W5 in L1; lia|].
        split; [discriminate|]. intros _.
        split; [intros ? ? [=]|].
        split; [intros ? ? ? ? [= <- <-] H2; rewrite G2 in H2; discriminate H2|].
        intros user' w2' wss' w3' [= <- <-] H2. rewrite G2 in H2.
        injection H2 as <- <-.
        rewrite B6, A6, B4, A4, W3.
        destruct (cfg_workspaceId (config w)) as [id|]; cbn [truthy_opt or_empty];
          [destruct (truthy id)|]; reflexivity.
      * split; [reflexivity|].
        split; [rewrite B1, B2, B4, B5, A1, A2, A4, A5; repeat split; assumption|].
        split; [rewrite W5 in L1; lia|].
        split; [discriminate|]. intros _.
        split; [intros ? ? [=]|].
        split; [|intros ? ? ? ? [= <- <-] H2; rewrite G2 in H2; discriminate H2].
        intros user' w2' e' w3' [= <- <-] H2.
        rewrite B6, A6. reflexivity.
    + destruct K1 as (A1 & A2 & _ & A4 & A5 & A6). unfold printed. world_simpl.
      split; [reflexivity|].
      split; [rewrite A1, A2, A4, A5; repeat split; assumption|].
      split; [rewrite W5 in L1; lia|].
      split; [discriminate|]. intros _.
      split; [|split; intros ? ? ? ? [=]].
      intros e' w2' [= <- <-]. rewrite A6. reflexivity.
  - cbn [fst snd]. unfold printed, w0. world_simpl.
    split; [reflexivity|]. split; [repeat split|]. split; [lia|].
    split; [intros _; split; reflexivity | discriminate].
Qed.

Lemma status_outcome_witness :
  console (snd (Auth.status unauthorized_env "--" "config.json" (started 0 (Some sample_key))))
  = [js "Run: clockify auth login"; js "Authentication invalid";
     "Checking authentication status..." ++ [Auth.LF]].
Proof.
  destruct (@status_outcome unauthorized_env "--" "config.json" (started 0 (Some sample_key)))
    as (_ & _ & _ & _ & H).
  destruct H as (H & _); [vm_compute; reflexivity|].
  apply (H (Error msg_authentication_failed)
           (snd (getCurrentUser unauthorized_env
                   (with_console ("Checking authentication status..." ++ [Auth.LF])
                      (started 0 (Some sample_key)))))).
  vm_compute. reflexivity.
Defined.

End Session.

(** ** The check of the environment *)

Module EnvironmentFacts.
Import JsString Sys Environment Model StringFacts.
Local Open Scope Z_scope.








End EnvironmentFacts.
